(** * Ingredient pipeline of the meal planner: parser, aggregator, categorizer,
    and the grocery list made of them

    A shallow embedding of [lib/ingredients/parser.ts],
    [lib/ingredients/aggregator.ts], [lib/ingredients/categorizer.ts] and of
    the grocery list of [lib/formatters/notesFormatter.ts].

    Modelling conventions.
    - Strings are ASCII strings; [toLowerCase], [toUpperCase], [trim] and the
      regular-expression classes act on ASCII.
    - A JavaScript number is an exact rational, or one of NaN, +Infinity,
      -Infinity.  Rounding of binary floating point and the sign of zero are
      not represented; the text a template literal gives a number is a
      parameter of the formatter.
    - A property that JavaScript may leave out, or that JSON may deliver as
      [null], has type [nullable].
    - The two static tables of the parser are object literals: a key that is
      not in the table and names a member of [Object.prototype] finds that
      member, which is truthy and is not a string.  The answer of the
      classifier is looked up among its own properties.
    - The answer of an external service is an argument of the function that
      awaits it.  Its properties have their declared type, are [null], or are
      missing; an answer no JSON value can be read from is a failed call.
    - [None] stands for an exception that leaves the function. *)

From Stdlib Require Import Bool Arith Lia List ZArith QArith Qround.
From Stdlib Require Import Ascii String Permutation.
Import ListNotations.

Set Implicit Arguments.

Local Close Scope Q_scope.
Local Open Scope nat_scope.
Local Open Scope string_scope.
Local Open Scope list_scope.

(* ------------------------------------------------------------------ *)
(** ** JavaScript values *)

Inductive nullable (A : Type) : Type :=
| undefined : nullable A
| null : nullable A
| val : A -> nullable A.

Arguments undefined {A}.
Arguments null {A}.
Arguments val {A} _.

Inductive number : Type :=
| NaN : number
| PosInf : number
| NegInf : number
| Fin : Q -> number.

Module Num.

Definition of_Z (z : Z) : number := Fin (inject_Z z).

Definition zero : number := of_Z 0%Z.

Definition sign (q : Q) : comparison := (Qnum q ?= 0)%Z.

Definition inf_of (c : comparison) : number :=
  match c with Gt => PosInf | Lt => NegInf | Eq => NaN end.

Definition flip (c : comparison) : comparison := CompOpp c.

(** [!n] is false exactly for zero and NaN. *)
Definition truthy (n : number) : bool :=
  match n with
  | NaN => false
  | Fin q => negb (Qeq_bool q 0%Q)
  | _ => true
  end.

Definition isNaN (n : number) : bool :=
  match n with NaN => true | _ => false end.

Definition add (a b : number) : number :=
  match a, b with
  | NaN, _ | _, NaN => NaN
  | PosInf, NegInf | NegInf, PosInf => NaN
  | PosInf, _ | _, PosInf => PosInf
  | NegInf, _ | _, NegInf => NegInf
  | Fin x, Fin y => Fin (Qred (x + y)%Q)
  end.

Definition mul (a b : number) : number :=
  match a, b with
  | NaN, _ | _, NaN => NaN
  | PosInf, PosInf | NegInf, NegInf => PosInf
  | PosInf, NegInf | NegInf, PosInf => NegInf
  | PosInf, Fin y | Fin y, PosInf => inf_of (sign y)
  | NegInf, Fin y | Fin y, NegInf => inf_of (flip (sign y))
  | Fin x, Fin y => Fin (Qred (x * y)%Q)
  end.

Definition div (a b : number) : number :=
  match a, b with
  | NaN, _ | _, NaN => NaN
  | Fin x, Fin y =>
      match sign y with
      | Eq => inf_of (sign x)
      | _ => Fin (Qred (x / y)%Q)
      end
  | Fin _, _ => zero
  | PosInf, Fin y =>
      match sign y with Lt => NegInf | _ => PosInf end
  | NegInf, Fin y =>
      match sign y with Lt => PosInf | _ => NegInf end
  | _, _ => NaN
  end.

(** [Math.floor]. *)
Definition floor (a : number) : number :=
  match a with
  | Fin x => of_Z (Qfloor x)
  | _ => a
  end.

(** The remainder [a % b] takes the sign of the dividend. *)
Definition trunc (x : Q) : Z :=
  match sign x with
  | Lt => Z.opp (Qfloor (Qopp x))
  | _ => Qfloor x
  end.

Definition rem (a b : number) : number :=
  match a, b with
  | Fin x, Fin y =>
      match sign y with
      | Eq => NaN
      | _ => Fin (Qred (x - y * inject_Z (trunc (x / y)))%Q)
      end
  | Fin x, PosInf | Fin x, NegInf => Fin x
  | _, _ => NaN
  end.

(** [a >= b]. *)
Definition ge (a b : number) : bool :=
  match a, b with
  | NaN, _ | _, NaN => false
  | PosInf, _ => true
  | _, NegInf => true
  | NegInf, _ => false
  | _, PosInf => false
  | Fin x, Fin y => Qle_bool y x
  end.

(** [a === b]. *)
Definition eqb (a b : number) : bool :=
  match a, b with
  | PosInf, PosInf | NegInf, NegInf => true
  | Fin x, Fin y => Qeq_bool x y
  | _, _ => false
  end.

End Num.

(* ------------------------------------------------------------------ *)
(** ** Strings *)

Module Str.

Definition code (c : ascii) : nat := nat_of_ascii c.

(** White space and line terminators, as [trim] and [\s] see them. *)
Definition is_space (c : ascii) : bool :=
  let n := code c in (((9 <=? n) && (n <=? 13)) || (n =? 32))%nat.

Definition is_digit (c : ascii) : bool :=
  let n := code c in ((48 <=? n) && (n <=? 57))%nat.

Definition is_lower (c : ascii) : bool :=
  let n := code c in ((97 <=? n) && (n <=? 122))%nat.

Definition is_upper (c : ascii) : bool :=
  let n := code c in ((65 <=? n) && (n <=? 90))%nat.

Definition is_line_end (c : ascii) : bool :=
  let n := code c in ((n =? 10) || (n =? 13))%nat.

Definition lower (c : ascii) : ascii :=
  if is_upper c then ascii_of_nat (code c + 32) else c.

Definition upper (c : ascii) : ascii :=
  if is_lower c then ascii_of_nat (code c - 32) else c.

Fixpoint map (f : ascii -> ascii) (s : string) : string :=
  match s with
  | EmptyString => EmptyString
  | String c s' => String (f c) (map f s')
  end.

Definition toLowerCase : string -> string := map lower.
Definition toUpperCase : string -> string := map upper.

Fixpoint trimStart (s : string) : string :=
  match s with
  | EmptyString => EmptyString
  | String c s' => if is_space c then trimStart s' else s
  end.

Definition is_empty (s : string) : bool :=
  match s with EmptyString => true | _ => false end.

Fixpoint trimEnd (s : string) : string :=
  match s with
  | EmptyString => EmptyString
  | String c s' =>
      let t := trimEnd s' in
      if is_space c && is_empty t then EmptyString else String c t
  end.

Definition trim (s : string) : string := trimEnd (trimStart s).

(** [s.startsWith(p)]. *)
Fixpoint startsWith (p s : string) : bool :=
  match p, s with
  | EmptyString, _ => true
  | String a p', String b s' => Ascii.eqb a b && startsWith p' s'
  | _, EmptyString => false
  end.

(** [s.includes(p)]. *)
Fixpoint includes (s p : string) : bool :=
  startsWith p s ||
  match s with
  | EmptyString => false
  | String _ s' => includes s' p
  end.

Definition rev (s : string) : string :=
  string_of_list_ascii (List.rev (list_ascii_of_string s)).

(** [s.endsWith(p)]: [p] is [s] or ends the tail of [s]. *)
Fixpoint endsWith (s p : string) : bool :=
  String.eqb s p ||
  match s with
  | EmptyString => false
  | String _ s' => endsWith s' p
  end.

(** [s.slice(0, -1)]. *)
Fixpoint dropLast (s : string) : string :=
  match s with
  | EmptyString => EmptyString
  | String c EmptyString => EmptyString
  | String c s' => String c (dropLast s')
  end.

Fixpoint drop (n : nat) (s : string) : string :=
  match n, s with
  | O, _ => s
  | S n', String _ s' => drop n' s'
  | S _, EmptyString => EmptyString
  end.

Fixpoint take (n : nat) (s : string) : string :=
  match n, s with
  | S n', String c s' => String c (take n' s')
  | _, _ => EmptyString
  end.

(** [s.split(sep)] for a separator that is not empty; [skip] counts the
    characters of the separator still to pass over. *)
Fixpoint split_go (sep : string) (skip : nat) (acc : string) (s : string)
  : list string :=
  match s with
  | EmptyString => [rev acc]
  | String c s' =>
      match skip with
      | S k => split_go sep k acc s'
      | O =>
          if startsWith sep s
          then rev acc :: split_go sep (String.length sep - 1) EmptyString s'
          else split_go sep 0 (String c acc) s'
      end
  end.

Definition split (sep s : string) : list string :=
  split_go sep 0 EmptyString s.

(** [parts.join(sep)]. *)
Fixpoint join (sep : string) (parts : list string) : string :=
  match parts with
  | [] => EmptyString
  | [p] => p
  | p :: rest => p ++ sep ++ join sep rest
  end.

(** A string is truthy when it is not empty. *)
Definition truthy (s : string) : bool := negb (is_empty s).

End Str.

(* ------------------------------------------------------------------ *)
(** ** Regular expressions

    A backtracking matcher in continuation-passing style, with the priorities
    of the JavaScript engine: the leftmost start wins, alternatives are tried
    in order, repetition is greedy, and an iteration of a star that consumes
    nothing is rejected.  All patterns of the parser carry the [i] flag. *)

Module Re.

Inductive cls : Type :=
| Digit      (* \d *)
| Space      (* \s *)
| Letter     (* [a-z], under the i flag *)
| AnyChar    (* .   *)
| Except : ascii -> cls.   (* [^c] *)

Inductive regex : Type :=
| Void : regex
| Eps : regex
| Chr : ascii -> regex
| Cls : cls -> regex
| Seq : regex -> regex -> regex
| Alt : regex -> regex -> regex
| Star : regex -> regex
| Group : nat -> regex -> regex
| Bol : regex      (* ^ *)
| Eol : regex      (* $ *)
| Wb : regex.      (* \b *)

Definition Plus (r : regex) : regex := Seq r (Star r).
Definition Opt (r : regex) : regex := Alt r Eps.

Fixpoint lit (s : string) : regex :=
  match s with
  | EmptyString => Eps
  | String c s' => Seq (Chr c) (lit s')
  end.

Fixpoint seq (rs : list regex) : regex :=
  match rs with
  | [] => Eps
  | [r] => r
  | r :: rs' => Seq r (seq rs')
  end.

Fixpoint oneOf (rs : list regex) : regex :=
  match rs with
  | [] => Void
  | [r] => r
  | r :: rs' => Alt r (oneOf rs')
  end.

Definition words (ws : list string) : regex := oneOf (List.map lit ws).

Definition in_cls (k : cls) (c : ascii) : bool :=
  match k with
  | Digit => Str.is_digit c
  | Space => Str.is_space c
  | Letter => Str.is_lower (Str.lower c)
  | AnyChar => negb (Str.is_line_end c)
  | Except x => negb (Ascii.eqb x c)
  end.

(** A word character, [\w]. *)
Definition is_word (c : option ascii) : bool :=
  match c with
  | Some c =>
      Str.is_lower c || Str.is_upper c || Str.is_digit c
      || Ascii.eqb c "_"%char
  | None => false
  end.

Definition head (s : string) : option ascii :=
  match s with
  | String c _ => Some c
  | EmptyString => None
  end.

Definition chr_eq (a b : ascii) : bool :=
  Ascii.eqb (Str.lower a) (Str.lower b).

Definition caps : Type := list (nat * string).

Fixpoint group (n : nat) (cs : caps) : nullable string :=
  match cs with
  | [] => undefined
  | (m, s) :: cs' => if Nat.eqb m n then val s else group n cs'
  end.

Section Matcher.

Variable R : Type.

(** The whole subject, for the character before the position. *)
Variable whole : string.

Definition before (pos : nat) : option ascii :=
  match pos with
  | O => None
  | S p => String.get p whole
  end.

Definition cont : Type := nat -> string -> caps -> option R.

Definition orElse (a : option R) (b : unit -> option R) : option R :=
  match a with
  | Some x => Some x
  | None => b tt
  end.

(** Greedy repetition of [step]: one more iteration first, provided it
    consumes something, and the continuation when that fails. *)
Fixpoint iterate (step : nat -> string -> caps -> cont -> option R) (k : cont)
  (fuel : nat) (pos : nat) (s : string) (cs : caps) : option R :=
  match fuel with
  | O => k pos s cs
  | S fuel' =>
      orElse
        (step pos s cs
           (fun pos' s' cs' =>
              if Nat.ltb pos pos' then iterate step k fuel' pos' s' cs'
              else None))
        (fun _ => k pos s cs)
  end.

Fixpoint run (r : regex) (pos : nat) (s : string) (cs : caps) (k : cont)
  {struct r} : option R :=
  match r with
  | Void => None
  | Eps => k pos s cs
  | Chr c =>
      match s with
      | String x s' => if chr_eq c x then k (S pos) s' cs else None
      | EmptyString => None
      end
  | Cls c =>
      match s with
      | String x s' => if in_cls c x then k (S pos) s' cs else None
      | EmptyString => None
      end
  | Seq r1 r2 =>
      run r1 pos s cs (fun pos' s' cs' => run r2 pos' s' cs' k)
  | Alt r1 r2 =>
      orElse (run r1 pos s cs k) (fun _ => run r2 pos s cs k)
  | Star r' => iterate (run r') k (S (String.length s)) pos s cs
  | Group n r' =>
      run r' pos s cs
        (fun pos' s' cs' => k pos' s' ((n, Str.take (pos' - pos) s) :: cs'))
  | Bol => if Nat.eqb pos 0 then k pos s cs else None
  | Eol => if Str.is_empty s then k pos s cs else None
  | Wb =>
      if Bool.eqb (is_word (before pos)) (is_word (head s)) then None
      else k pos s cs
  end.

End Matcher.

(** A match: where it starts, where it ends, and what the groups hold. *)
Record found : Type := Found { m_start : nat; m_end : nat; m_caps : caps }.

Fixpoint search (r : regex) (whole : string) (pos : nat) (s : string)
  : option found :=
  match run whole r pos s [] (fun pos' _ cs => Some (Found pos pos' cs)) with
  | Some m => Some m
  | None =>
      match s with
      | EmptyString => None
      | String _ s' => search r whole (S pos) s'
      end
  end.

(** [s.match(r)] for a pattern without the g flag. *)
Definition exec (r : regex) (s : string) : option found := search r s 0 s.

(** [r.test(s)]. *)
Definition test (r : regex) (s : string) : bool :=
  match exec r s with Some _ => true | None => false end.

(** [s.replace(r, "")] for a pattern without the g flag. *)
Definition remove (r : regex) (s : string) : string :=
  match exec r s with
  | Some m => Str.take (m_start m) s ++ Str.drop (m_end m) s
  | None => s
  end.

(** [s.replace(r, by)] for a pattern with the g flag: every match, from
    left to right, the search resuming where the last match ended (one
    character further after an empty match). *)
Fixpoint replaceFrom (fuel : nat) (r : regex) (by_ whole : string)
  (pos : nat) (s : string) : string :=
  match fuel with
  | O => s
  | S fuel' =>
      match search r whole pos s with
      | None => s
      | Some m =>
          let kept := Str.take (m_start m - pos) s in
          let rest := Str.drop (m_end m - pos) s in
          if Nat.eqb (m_end m) (m_start m) then
            match rest with
            | EmptyString => kept ++ by_
            | String c rest' =>
                kept ++ by_ ++ String c
                  (replaceFrom fuel' r by_ whole (S (m_end m)) rest')
            end
          else kept ++ by_ ++ replaceFrom fuel' r by_ whole (m_end m) rest
      end
  end.

Definition replaceAll (r : regex) (by_ : string) (s : string) : string :=
  replaceFrom (S (String.length s)) r by_ s 0 s.

End Re.

Import Re.

Definition sp : regex := Cls Space.
Definition ch (s : string) : regex := lit s.

(* ------------------------------------------------------------------ *)
(** ** lib/ingredients/types.ts *)

Inductive BaseUnit : Type := BTsp | BTbsp | BCup | BUnit | BNone.

Definition baseUnit_string (b : BaseUnit) : string :=
  match b with
  | BTsp => "tsp"
  | BTbsp => "tbsp"
  | BCup => "cup"
  | BUnit => "unit"
  | BNone => "none"
  end.

(** [canonicalName] is declared a string.  What [normalizeCanonicalName]
    hands back is a string or, for a name that is a key of
    [Object.prototype], the member found under that key. *)
Inductive CanonicalName : Type :=
| Text : string -> CanonicalName
| Member : string -> CanonicalName.

(** The string a template literal or a regular expression makes of a name:
    [Object.prototype] for the key [__proto__], a built-in function for
    every other key. *)
Definition textOf (name : CanonicalName) : string :=
  match name with
  | Text s => s
  | Member key =>
      if String.eqb key "__proto__" then "[object Object]"
      else "function "
           ++ (if String.eqb key "constructor" then "Object" else key)
           ++ "() { [native code] }"
  end.

Definition truthy_name (name : CanonicalName) : bool :=
  match name with
  | Text s => Str.truthy s
  | Member _ => true
  end.

Record ParsedIngredient : Type := mkParsed {
  pi_raw : nullable string;
  pi_name : string;
  pi_baseName : string;
  pi_prepNote : nullable string;
  pi_canonicalName : CanonicalName;
  pi_quantity : nullable number;
  pi_unit : nullable string;
  pi_baseUnit : nullable BaseUnit;
  pi_quantityInBaseUnits : nullable number;
  pi_notes : nullable string;
  pi_originalText : nullable string
}.

Record AggregatedIngredient : Type := mkAggregated {
  ag_name : string;
  ag_canonicalName : string;
  ag_baseName : string;
  ag_totalQuantity : nullable number;
  ag_unit : nullable string;
  ag_baseUnit : string;
  ag_lines : list ParsedIngredient;
  ag_section : string
}.

(** Truthiness of a property that holds a string or a number. *)
Definition truthy_string (v : nullable string) : bool :=
  match v with val s => Str.truthy s | _ => false end.

Definition truthy_number (v : nullable number) : bool :=
  match v with val n => Num.truthy n | _ => false end.

Definition is_undefined {A : Type} (v : nullable A) : bool :=
  match v with undefined => true | _ => false end.

(** [a || b] on strings that may be missing. *)
Definition or_string (a : nullable string) (b : string) : string :=
  match a with
  | val s => if Str.truthy s then s else b
  | _ => b
  end.

(* ------------------------------------------------------------------ *)
(** ** lib/ingredients/parser.ts: the two tables

    The tables are object literals.  Reading [table[key]] finds the entry of
    the table under [key], or else the member of [Object.prototype] of that
    name, or else nothing. *)

Fixpoint lookup {A : Type} (k : string) (m : list (string * A)) : option A :=
  match m with
  | [] => None
  | (k', v) :: m' => if String.eqb k' k then Some v else lookup k m'
  end.

Definition prototypeKeys : list string :=
  [ "constructor"; "__defineGetter__"; "__defineSetter__"; "hasOwnProperty";
    "__lookupGetter__"; "__lookupSetter__"; "isPrototypeOf";
    "propertyIsEnumerable"; "toString"; "valueOf"; "__proto__";
    "toLocaleString" ].

Inductive member (A : Type) : Type :=
| Own : A -> member A
| Inherited : string -> member A
| Absent : member A.

Arguments Own {A} _.
Arguments Inherited {A} _.
Arguments Absent {A}.

Definition property {A : Type} (key : string) (table : list (string * A))
  : member A :=
  match lookup key table with
  | Some v => Own v
  | None =>
      if existsb (String.eqb key) prototypeKeys then Inherited key else Absent
  end.

(** Every value of the table is a string that is not empty, and every member
    of [Object.prototype] is a function or an object, so the test
    [if (NAME_NORMALIZATION_MAP[k])] is the presence of [k] in the table or
    among the inherited keys. *)
Definition NAME_NORMALIZATION_MAP : list (string * string) :=
  [ ("garlic cloves", "garlic");
    ("cloves garlic", "garlic");
    ("clove garlic", "garlic");
    ("green onions", "green onions");
    ("scallions", "green onions");
    ("zucchinis", "zucchini");
    ("zucchini", "zucchini");
    ("zucchini noodles", "zucchini");
    ("red bell pepper", "bell pepper");
    ("yellow bell pepper", "bell pepper");
    ("orange bell pepper", "bell pepper");
    ("green bell pepper", "bell pepper");
    ("bell peppers", "bell pepper");
    ("bell pepper", "bell pepper");
    ("cherry tomatoes", "cherry tomatoes");
    ("cherry tomatoes, halved", "cherry tomatoes");
    ("basil leaves", "basil");
    ("basil", "basil");
    ("feta cheese", "feta cheese");
    ("feta cheese, crumbled", "feta cheese");
    ("parmesan cheese", "parmesan cheese");
    ("grated parmesan cheese", "parmesan cheese");
    ("cooked quinoa", "cooked quinoa");
    ("red lentils", "red lentils");
    ("red lentils, rinsed", "red lentils");
    ("lime", "lime");
    ("lime wedges", "lime");
    ("juice of 1 lime", "lime");
    ("lime juice", "lime");
    ("broccoli florets", "broccoli florets");
    ("fresh ginger", "ginger");
    ("ginger root", "ginger");
    ("apple cider vinegar", "apple cider vinegar");
    ("dried oregano", "oregano");
    ("salt and pepper", "salt and pepper");
    ("salt & pepper", "salt and pepper");
    ("black pepper", "black pepper") ].

Record UnitInfo : Type := mkUnit { u_baseUnit : BaseUnit; u_factor : number }.

Definition one : number := Num.of_Z 1.

Definition UNIT_MAP : list (string * UnitInfo) :=
  [ ("tsp", mkUnit BTsp one);
    ("teaspoon", mkUnit BTsp one);
    ("teaspoons", mkUnit BTsp one);
    ("tbsp", mkUnit BTbsp one);
    ("tablespoon", mkUnit BTbsp one);
    ("tablespoons", mkUnit BTbsp one);
    ("cup", mkUnit BCup one);
    ("cups", mkUnit BCup one);
    ("clove", mkUnit BUnit one);
    ("cloves", mkUnit BUnit one);
    ("lb", mkUnit BUnit one);
    ("lbs", mkUnit BUnit one);
    ("pound", mkUnit BUnit one);
    ("pounds", mkUnit BUnit one);
    ("oz", mkUnit BUnit one);
    ("ounce", mkUnit BUnit one);
    ("ounces", mkUnit BUnit one);
    ("can", mkUnit BUnit one);
    ("cans", mkUnit BUnit one);
    ("head", mkUnit BUnit one);
    ("heads", mkUnit BUnit one);
    ("bunch", mkUnit BUnit one);
    ("bunches", mkUnit BUnit one);
    ("fillet", mkUnit BUnit one);
    ("fillets", mkUnit BUnit one);
    ("breast", mkUnit BUnit one);
    ("breasts", mkUnit BUnit one);
    ("", mkUnit BNone one) ].

(* ------------------------------------------------------------------ *)
(** ** extractBaseNameAndPrep *)

Definition optionalPrefix : regex := seq [Bol; ch "optional:"; Star sp].

Definition prepPattern : regex :=
  seq [ ch ","; Star sp;
        Group 1
          (oneOf
             [ seq [ Opt (seq [words ["finely"; "roughly"; "coarsely"]; Plus sp]);
                     words [ "minced"; "chopped"; "diced"; "sliced"; "grated";
                             "crushed"; "spiralized"; "into noodles"; "halved";
                             "seeded"; "trimmed"; "rinsed"; "peeled";
                             "deveined"; "crumbled"; "riced"; "julienned";
                             "shredded" ];
                     Opt (seq [ Plus sp; ch "and"; Plus sp;
                                words [ "seeded"; "trimmed"; "rinsed"; "peeled";
                                        "deveined"; "crumbled"; "sliced";
                                        "diced" ] ]) ];
               ch "for garnish";
               ch "for serving" ]) ].

Definition sizePrefix : regex :=
  seq [ Bol;
        Group 1
          (oneOf [ ch "fresh"; ch "large"; ch "small"; ch "medium"; ch "organic";
                   ch "dried"; ch "boneless"; ch "skinless"; ch "lean";
                   seq [ch "boneless,"; Star sp; ch "skinless"] ]);
        Plus sp ].

Definition trailingDescriptor : regex :=
  seq [ Plus sp; Group 1 (words ["for garnish"; "for serving"]); Eol ].

Definition commonPrefix : regex :=
  seq [ Bol; Group 1 (words ["juice of"; "wedges of"; "wedges from"]); Plus sp ].

Definition extractBaseNameAndPrep (name : string) : string * nullable string :=
  let baseName := Str.trim name in
  let baseName := remove optionalPrefix baseName in
  let prepMatch := exec prepPattern baseName in
  let '(baseName, prepNote) :=
    match prepMatch with
    | Some m =>
        (Str.trim (remove prepPattern baseName),
         match group 1 (m_caps m) with
         | val g => val (Str.trim g)
         | other => other
         end)
    | None => (baseName, undefined)
    end in
  let baseName := remove sizePrefix baseName in
  let baseName := remove trailingDescriptor baseName in
  let baseName := remove commonPrefix baseName in
  (Str.trim baseName, prepNote).

(* ------------------------------------------------------------------ *)
(** ** normalizeCanonicalName (the parser's) *)

Definition saltAndPepper : regex :=
  seq [ Bol; ch "salt"; Star sp; Group 1 (oneOf [ch "and"; ch "&"]); Star sp;
        ch "pepper" ].

Definition saltToTaste : regex :=
  seq [ Bol; ch "salt"; Plus sp; ch "to"; Plus sp; ch "taste" ].

Definition pepperToTaste : regex :=
  seq [ Bol; ch "pepper"; Plus sp; ch "to"; Plus sp; ch "taste"; Eol ].

(** [if (NAME_NORMALIZATION_MAP[k]) normalized = NAME_NORMALIZATION_MAP[k]]. *)
Definition synonym (normalized : string) : CanonicalName :=
  match property normalized NAME_NORMALIZATION_MAP with
  | Own v => Text v
  | Inherited key => Member key
  | Absent => Text normalized
  end.

(** [None] is the TypeError of [normalized.trim()] when the plural rule has
    put a member of [Object.prototype] in [normalized].  The regular
    expressions test the text of what they are given. *)
Definition normalizeCanonicalName (baseName : string) : option CanonicalName :=
  let normalized := Str.trim (Str.toLowerCase baseName) in
  let normalized :=
    if Str.endsWith normalized "s"
       && negb (Str.endsWith normalized "ss")
       && negb (Str.endsWith normalized "us")
    then
      let singular := Str.dropLast normalized in
      match property singular NAME_NORMALIZATION_MAP with
      | Own v => Text v
      | Inherited key => Member key
      | Absent => synonym normalized
      end
    else Text normalized in
  match normalized with
  | Member _ => None
  | Text normalized =>
      let normalized := Str.trim normalized in
      let normalized := synonym normalized in
      let normalized :=
        if test saltAndPepper (textOf normalized)
           || test saltToTaste (textOf normalized)
        then Text "salt and pepper" else normalized in
      let normalized :=
        if test pepperToTaste (textOf normalized)
        then Text "salt and pepper" else normalized in
      Some normalized
  end.

(* ------------------------------------------------------------------ *)
(** ** normalizeUnit *)

Definition sixteen : number := Num.of_Z 16.

(** A member of [Object.prototype] found in the place of a unit is truthy and
    has no property [baseUnit]: the last branch of the conversion hands back
    a base unit that is [undefined], with the quantity. *)
Definition normalizeUnit (unit : nullable string) (quantity : nullable number)
  : nullable BaseUnit * nullable number :=
  if negb (truthy_string unit) && negb (is_undefined quantity) then
    (val BUnit, quantity)
  else
    match unit, quantity with
    | val u, val q =>
        if negb (Str.truthy u) || negb (Num.truthy q)
        then (val BNone, undefined)
        else
          let normalizedUnit := Str.trim (Str.toLowerCase u) in
          match property normalizedUnit UNIT_MAP with
          | Own unitInfo =>
              match u_baseUnit unitInfo with
              | BCup => (val BTbsp, val (Num.mul q sixteen))
              | BTbsp => (val BTbsp, val q)
              | BTsp => (val BTsp, val q)
              | other => (val other, val q)
              end
          | Inherited _ => (undefined, val q)
          | Absent => (val BUnit, val q)
          end
    | _, _ => (val BNone, undefined)
    end.

(* ------------------------------------------------------------------ *)
(** ** enrichParsedIngredient *)

(** [None] is the TypeError [normalizeCanonicalName] raises. *)
Definition enrichParsedIngredient (parsed : ParsedIngredient)
  : option ParsedIngredient :=
  let '(baseName, prepNote) := extractBaseNameAndPrep (pi_name parsed) in
  match normalizeCanonicalName baseName with
  | None => None
  | Some canonicalName =>
      let '(baseUnit, quantityInBaseUnits) :=
        normalizeUnit (pi_unit parsed) (pi_quantity parsed) in
      Some
        {| pi_raw :=
             val (or_string (pi_originalText parsed)
                    (or_string (pi_raw parsed) ""));
           pi_name := pi_name parsed;
           pi_baseName := baseName;
           pi_prepNote := prepNote;
           pi_canonicalName := canonicalName;
           pi_quantity := pi_quantity parsed;
           pi_unit := pi_unit parsed;
           pi_baseUnit := baseUnit;
           pi_quantityInBaseUnits := quantityInBaseUnits;
           pi_notes := pi_notes parsed;
           pi_originalText := pi_originalText parsed |}
  end.

(* ------------------------------------------------------------------ *)
(** ** Reading a quantity

    [parseFloat] and [Number] on the strings the two patterns capture:
    decimal digits, optionally followed by a point and more digits. *)

Fixpoint read_digits (acc : Z) (n : nat) (s : string) : Z * nat * string :=
  match s with
  | String c s' =>
      if Str.is_digit c
      then read_digits (10 * acc + Z.of_nat (Str.code c - 48))%Z (S n) s'
      else (acc, n, s)
  | EmptyString => (acc, n, s)
  end.

Definition decimal (whole : bool) (s : string) : number :=
  let '(i, n, rest) := read_digits 0%Z 0 s in
  if Nat.eqb n 0 then NaN
  else
    match rest with
    | EmptyString => Num.of_Z i
    | String c rest' =>
        if Ascii.eqb c "."%char then
          let '(f, m, rest'') := read_digits 0%Z 0 rest' in
          if whole && negb (Str.is_empty rest'') then NaN
          else if Nat.eqb m 0 then Num.of_Z i
          else Fin (Qred (inject_Z i + Qmake f (Z.to_pos (10 ^ Z.of_nat m)))%Q)
        else if whole then NaN else Num.of_Z i
    end.

(** [parseFloat(s)] reads the longest numeric prefix. *)
Definition parseFloat : string -> number := decimal false.

(** [Number(s)] wants the whole string to be numeric. *)
Definition Number : string -> number := decimal true.

Definition readQuantity (quantityStr : string) : number :=
  if Str.includes quantityStr "/" then
    match List.map Number (Str.split "/" quantityStr) with
    | num :: den :: _ => Num.div num den
    | _ => NaN
    end
  else parseFloat quantityStr.

Definition definedUnlessNaN (quantity : number) : nullable number :=
  if Num.isNaN quantity then undefined else val quantity.

(* ------------------------------------------------------------------ *)
(** ** parseIngredientRegex *)

Definition noQuantityPhrase : regex :=
  words ["to taste"; "as needed"; "optional"; "for garnish"].

Definition quantityToken : regex :=
  seq [ Plus (Cls Digit);
        Opt (seq [ch "/"; Plus (Cls Digit)]);
        Opt (seq [ch "."; Plus (Cls Digit)]) ].

Definition unitToken : regex :=
  oneOf
    (Plus (Cls Letter) ::
     List.map lit
       [ "lb"; "oz"; "g"; "kg"; "ml"; "l"; "cup"; "cups"; "tbsp"; "tsp";
         "can"; "cans"; "clove"; "cloves"; "bunch"; "bunches"; "head";
         "heads" ]).

Definition simplePattern : regex :=
  seq [ Bol; Group 1 quantityToken; Plus sp; Group 2 unitToken; Plus sp;
        Group 3 (Plus (Cls AnyChar)); Eol ].

Definition noUnitPattern : regex :=
  seq [ Bol; Group 1 quantityToken; Plus sp; Group 2 (Plus (Cls AnyChar)); Eol ].

(** The record a tier builds before enrichment. *)
Definition draft (name : string) (quantity : nullable number)
  (unit : nullable string) (text : string) : ParsedIngredient :=
  {| pi_raw := val text;
     pi_name := name;
     pi_baseName := "";
     pi_prepNote := undefined;
     pi_canonicalName := Text "";
     pi_quantity := quantity;
     pi_unit := unit;
     pi_baseUnit := val BNone;
     pi_quantityInBaseUnits := undefined;
     pi_notes := undefined;
     pi_originalText := val text |}.

Definition captured (n : nat) (m : found) : string :=
  match group n (m_caps m) with val s => s | _ => "" end.

(** What [parseIngredientRegex] does with a line: it returns [null] when no
    pattern applies, it returns the record of the pattern that applies, or
    the enrichment of that record raises its TypeError. *)
Inductive Tier : Type :=
| NoPattern : Tier
| Resolved : ParsedIngredient -> Tier
| Raised : Tier.

Definition returned (enriched : option ParsedIngredient) : Tier :=
  match enriched with
  | Some regexResult => Resolved regexResult
  | None => Raised
  end.

Definition parseIngredientRegex (line : string) : Tier :=
  let trimmed := Str.trim line in
  if test noQuantityPhrase trimmed then
    returned (enrichParsedIngredient
                (draft (Str.toLowerCase trimmed) undefined undefined trimmed))
  else
    match exec simplePattern trimmed with
    | Some simpleMatch =>
        let quantity := readQuantity (captured 1 simpleMatch) in
        let unit := Str.toLowerCase (captured 2 simpleMatch) in
        let name := Str.trim (captured 3 simpleMatch) in
        returned (enrichParsedIngredient
                    (draft name (definedUnlessNaN quantity) (val unit) trimmed))
    | None =>
        match exec noUnitPattern trimmed with
        | Some noUnitMatch =>
            let quantity := readQuantity (captured 1 noUnitMatch) in
            let name := Str.trim (captured 2 noUnitMatch) in
            returned (enrichParsedIngredient
                        (draft name (definedUnlessNaN quantity) undefined
                           trimmed))
        | None => NoPattern
        end
    end.

(** The minimal record of a line no tier and no interpreter resolved. *)
Definition fallbackRecord (line : string) : ParsedIngredient :=
  {| pi_raw := val line;
     pi_name := Str.trim line;
     pi_baseName := "";
     pi_prepNote := undefined;
     pi_canonicalName := Text "";
     pi_quantity := undefined;
     pi_unit := undefined;
     pi_baseUnit := val BNone;
     pi_quantityInBaseUnits := undefined;
     pi_notes := undefined;
     pi_originalText := val line |}.

(* ------------------------------------------------------------------ *)
(** ** The external interpretation service

    What [JSON.parse] hands back is cast to [ParsedIngredient] unchecked.  An
    element of the answer is either a plain object, whose properties have
    their declared type, are [null], or are missing, or it is something else
    (null, a number, a string, an array), on which the code raises a
    TypeError.  [CallFailed] stands for a call that throws and for an answer
    that is not JSON. *)

Record AiItem : Type := mkItem {
  ai_name : nullable string;
  ai_quantity : nullable number;
  ai_unit : nullable string;
  ai_originalText : nullable string;
  ai_raw : nullable string;
  ai_notes : nullable string
}.

Inductive AiElement : Type :=
| NotAnObject : AiElement
| Object : AiItem -> AiElement.

Inductive AiJson : Type :=
| JsonArray : list AiElement -> AiJson
| JsonValue : AiElement -> AiJson.

Inductive AiResponse : Type :=
| CallFailed : AiResponse
| Reply : AiJson -> AiResponse.

Definition at_index {A : Type} (l : list A) (i : nat) : nullable A :=
  match nth_error l i with
  | Some x => val x
  | None => undefined
  end.

(** [if (!result.originalText) result.originalText = text;
     if (!result.raw) result.raw = text]. *)
Definition fillTexts (text : nullable string) (result : AiItem) : AiItem :=
  {| ai_name := ai_name result;
     ai_quantity := ai_quantity result;
     ai_unit := ai_unit result;
     ai_originalText :=
       if truthy_string (ai_originalText result)
       then ai_originalText result else text;
     ai_raw := if truthy_string (ai_raw result) then ai_raw result else text;
     ai_notes := ai_notes result |}.

(** Enrichment of an element of the answer; [None] is the TypeError of
    [parsed.name.trim()] on a name that is not a string, or the one the
    enrichment raises. *)
Definition enrichAiItem (parsed : AiItem) : option ParsedIngredient :=
  match ai_name parsed with
  | val name =>
      enrichParsedIngredient
              {| pi_raw := ai_raw parsed;
                 pi_name := name;
                 pi_baseName := "";
                 pi_prepNote := undefined;
                 pi_canonicalName := Text "";
                 pi_quantity := ai_quantity parsed;
                 pi_unit := ai_unit parsed;
                 pi_baseUnit := undefined;
                 pi_quantityInBaseUnits := undefined;
                 pi_notes := ai_notes parsed;
                 pi_originalText := ai_originalText parsed |}
  | _ => None
  end.

(** The [forEach] and the [map] of the batch, element [index] onwards. *)
Fixpoint enrichAiResults (complexLines : list string) (index : nat)
  (aiResults : list AiElement) : option (list ParsedIngredient) :=
  match aiResults with
  | [] => Some []
  | NotAnObject :: _ => None
  | Object result :: rest =>
      match enrichAiItem (fillTexts (at_index complexLines index) result),
            enrichAiResults complexLines (S index) rest with
      | Some r, Some rs => Some (r :: rs)
      | _, _ => None
      end
  end.

(* ------------------------------------------------------------------ *)
(** ** parseIngredient *)

(** [None] is a TypeError that leaves the function: the one of the pattern
    tiers, which run outside the [try], or the one of the enrichment of the
    fallback record. *)
Definition parseIngredient (line : string) (useAI : bool) (answer : AiResponse)
  : option ParsedIngredient :=
  match parseIngredientRegex line with
  | Raised => None
  | Resolved regexResult => Some regexResult
  | NoPattern =>
      if useAI then
        match answer with
        | Reply (JsonValue (Object parsed)) =>
            match enrichAiItem (fillTexts (val line) parsed) with
            | Some r => Some r
            | None => enrichParsedIngredient (fallbackRecord line)
            end
        | _ => enrichParsedIngredient (fallbackRecord line)
        end
      else enrichParsedIngredient (fallbackRecord line)
  end.

(* ------------------------------------------------------------------ *)
(** ** parseIngredients *)

(** The first loop, which runs outside the [try]; [None] is the TypeError of
    a pattern tier. *)
Fixpoint partitionLines (lines : list string)
  : option (list string * list string * list ParsedIngredient) :=
  match lines with
  | [] => Some ([], [], [])
  | line :: rest =>
      match parseIngredientRegex line with
      | Raised => None
      | Resolved regexResult =>
          option_map
            (fun '(simpleLines, complexLines, simpleResults) =>
               (line :: simpleLines, complexLines,
                regexResult :: simpleResults))
            (partitionLines rest)
      | NoPattern =>
          option_map
            (fun '(simpleLines, complexLines, simpleResults) =>
               (simpleLines, line :: complexLines, simpleResults))
            (partitionLines rest)
      end
  end.

(** [simpleLines.includes(line)]. *)
Definition includesLine (simpleLines : list string) (line : string) : bool :=
  existsb (String.eqb line) simpleLines.

(** The loop that recombines the results after a usable answer.  [None] is
    the TypeError of the enrichment of a fallback record, which the [catch]
    takes, or a read past the end of [simpleResults]. *)
Fixpoint combineWithAnswer (simpleLines : list string)
  (simpleResults enrichedAiResults : list ParsedIngredient)
  (simpleIndex complexIndex : nat) (lines : list string)
  : option (list ParsedIngredient) :=
  match lines with
  | [] => Some []
  | line :: rest =>
      if includesLine simpleLines line then
        match at_index simpleResults simpleIndex with
        | val r =>
            option_map (cons r)
              (combineWithAnswer simpleLines simpleResults enrichedAiResults
                 (S simpleIndex) complexIndex rest)
        | _ => None
        end
      else
        match
          match at_index enrichedAiResults complexIndex with
          | val r => Some r
          | _ => enrichParsedIngredient (fallbackRecord line)
          end
        with
        | Some r =>
            option_map (cons r)
              (combineWithAnswer simpleLines simpleResults enrichedAiResults
                 simpleIndex (S complexIndex) rest)
        | None => None
        end
  end.

(** [if (!fallback.baseName) fallback.baseName = ...]. *)
Definition ensureBaseName (fallback : ParsedIngredient) : ParsedIngredient :=
  if Str.truthy (pi_baseName fallback) then fallback
  else
    {| pi_raw := pi_raw fallback;
       pi_name := pi_name fallback;
       pi_baseName := fst (extractBaseNameAndPrep (pi_name fallback));
       pi_prepNote := pi_prepNote fallback;
       pi_canonicalName := pi_canonicalName fallback;
       pi_quantity := pi_quantity fallback;
       pi_unit := pi_unit fallback;
       pi_baseUnit := pi_baseUnit fallback;
       pi_quantityInBaseUnits := pi_quantityInBaseUnits fallback;
       pi_notes := pi_notes fallback;
       pi_originalText := pi_originalText fallback |}.

(** The loop of the catch block.  [None] is the TypeError of an enrichment,
    which leaves the function, or a read past the end of an array. *)
Fixpoint combineWithFallback (simpleLines : list string)
  (simpleResults fallbackResults : list ParsedIngredient)
  (simpleIndex complexIndex : nat) (lines : list string)
  : option (list ParsedIngredient) :=
  match lines with
  | [] => Some []
  | line :: rest =>
      if includesLine simpleLines line then
        match at_index simpleResults simpleIndex with
        | val r =>
            option_map (cons r)
              (combineWithFallback simpleLines simpleResults fallbackResults
                 (S simpleIndex) complexIndex rest)
        | _ => None
        end
      else
        match at_index fallbackResults complexIndex with
        | val fallback =>
            match enrichParsedIngredient (ensureBaseName fallback) with
            | Some r =>
                option_map (cons r)
                  (combineWithFallback simpleLines simpleResults
                     fallbackResults simpleIndex (S complexIndex) rest)
            | None => None
            end
        | _ => None
        end
  end.

Definition answerElements (json : AiJson) : list AiElement :=
  match json with
  | JsonArray parsed => parsed
  | JsonValue parsed => [parsed]
  end.

(** What the try block computes before the recombination; [None] is an
    exception. *)
Definition batchAnswer (complexLines : list string) (answer : AiResponse)
  : option (list ParsedIngredient) :=
  match answer with
  | CallFailed => None
  | Reply json => enrichAiResults complexLines 0 (answerElements json)
  end.

(** [Promise.all]: the results, unless one of the promises is rejected. *)
Fixpoint promiseAll {A : Type} (promises : list (option A)) : option (list A) :=
  match promises with
  | [] => Some []
  | None :: _ => None
  | Some x :: rest => option_map (cons x) (promiseAll rest)
  end.

(** The [try] block. *)
Definition tryBatch (lines simpleLines complexLines : list string)
  (simpleResults : list ParsedIngredient) (answer : AiResponse)
  : option (list ParsedIngredient) :=
  match batchAnswer complexLines answer with
  | Some enrichedAiResults =>
      combineWithAnswer simpleLines simpleResults enrichedAiResults 0 0 lines
  | None => None
  end.

(** The [catch] block. *)
Definition catchBatch (lines simpleLines complexLines : list string)
  (simpleResults : list ParsedIngredient) : option (list ParsedIngredient) :=
  match
    promiseAll
      (List.map (fun line => parseIngredient line false CallFailed)
         complexLines)
  with
  | Some fallbackResults =>
      combineWithFallback simpleLines simpleResults fallbackResults 0 0 lines
  | None => None
  end.

(** [None] is an exception that rejects the promise. *)
Definition parseIngredients (lines : list string) (useAI : bool)
  (answer : AiResponse) : option (list ParsedIngredient) :=
  match partitionLines lines with
  | None => None
  | Some (simpleLines, complexLines, simpleResults) =>
      if Nat.ltb 0 (List.length complexLines) && useAI then
        match
          tryBatch lines simpleLines complexLines simpleResults answer
        with
        | Some allResults => Some allResults
        | None => catchBatch lines simpleLines complexLines simpleResults
        end
      else Some simpleResults
  end.

(* ------------------------------------------------------------------ *)
(** ** lib/ingredients/aggregator.ts *)

(** A total that is missing compares as NaN, a [null] one as zero. *)
Definition toNumber (v : nullable number) : number :=
  match v with
  | val n => n
  | null => Num.zero
  | undefined => NaN
  end.

Definition three : number := Num.of_Z 3.

Definition cupOrCups (n : number) : string :=
  if Num.eqb n one then "cup" else "cups".

Definition formatQuantity (totalQuantity : nullable number) (baseUnit : string)
  (name : string) : nullable number * nullable string :=
  if String.eqb baseUnit "none" || is_undefined totalQuantity then
    (undefined, undefined)
  else
    let total := toNumber totalQuantity in
    if String.eqb baseUnit "tbsp" && Num.ge total sixteen then
      let cups := Num.floor (Num.div total sixteen) in
      let remainingTbsp := Num.rem total sixteen in
      if Num.eqb remainingTbsp Num.zero
      then (val cups, val (cupOrCups cups))
      else (val cups, val (cupOrCups cups))
    else if String.eqb baseUnit "tsp" && Num.ge total three then
      let tbsp := Num.floor (Num.div total three) in
      let remainingTsp := Num.rem total three in
      if Num.eqb remainingTsp Num.zero
      then (val tbsp, val "tbsp")
      else (totalQuantity, val "tsp")
    else if String.eqb baseUnit "tsp" then (totalQuantity, val "tsp")
    else if String.eqb baseUnit "tbsp" then (totalQuantity, val "tbsp")
    else if String.eqb baseUnit "cup" then
      (totalQuantity, val (cupOrCups total))
    else if String.eqb baseUnit "unit" then (totalQuantity, val "")
    else (undefined, undefined).

(** The aggregator's own [normalizeCanonicalName]. *)
Definition lowerTrim (name : string) : string :=
  Str.trim (Str.toLowerCase name).

Definition capitalize (word : string) : string :=
  Str.toUpperCase (Str.take 1 word) ++ Str.drop 1 word.

Fixpoint capitalizeWords (index : nat) (words : list string) : list string :=
  match words with
  | [] => []
  | word :: rest =>
      (if Nat.eqb index 0 || Nat.ltb 3 (String.length word)
       then capitalize word else word)
      :: capitalizeWords (S index) rest
  end.

Definition formatDisplayName (canonicalName baseName : string) : string :=
  if String.eqb canonicalName "salt and pepper" then "Salt and black pepper"
  else Str.join " " (capitalizeWords 0 (Str.split " " baseName)).

Definition groupKey (ing : ParsedIngredient) : string :=
  let canonical :=
    if truthy_name (pi_canonicalName ing) then textOf (pi_canonicalName ing)
    else lowerTrim (if Str.truthy (pi_baseName ing)
                    then pi_baseName ing else pi_name ing) in
  let baseUnit :=
    match pi_baseUnit ing with
    | val b => baseUnit_string b
    | _ => "none"
    end in
  canonical ++ "::" ++ baseUnit.

(** The [Map] of groups, in insertion order. *)
Definition Groups : Type := list (string * list ParsedIngredient).

Fixpoint addToGroup (key : string) (ingredient : ParsedIngredient)
  (groups : Groups) : Groups :=
  match groups with
  | [] => [(key, [ingredient])]
  | (k, members) :: rest =>
      if String.eqb k key then (k, members ++ [ingredient]) :: rest
      else (k, members) :: addToGroup key ingredient rest
  end.

Definition groupIngredients (parsed : list ParsedIngredient) : Groups :=
  fold_left (fun groups ingredient =>
               addToGroup (groupKey ingredient) ingredient groups)
            parsed [].

Definition hasQuantity (ing : ParsedIngredient) : bool :=
  match pi_quantityInBaseUnits ing with
  | val _ => true
  | _ => false
  end.

(** [sum + (ing.quantityInBaseUnits || 0)]. *)
Definition addQuantity (sum : number) (ing : ParsedIngredient) : number :=
  Num.add sum
    (match pi_quantityInBaseUnits ing with
     | val q => if Num.truthy q then q else Num.zero
     | _ => Num.zero
     end).

(** The body of the loop over the groups.  [None] is the TypeError of
    [ingredients[0].baseName] on a group without a member; the destructured
    parts of the key default to the empty string. *)
Definition aggregateGroup (key : string) (ingredients : list ParsedIngredient)
  : option AggregatedIngredient :=
  let parts := Str.split "::" key in
  let canonicalName := nth 0 parts "" in
  let baseUnit := nth 1 parts "" in
  let itemsWithQuantity := filter hasQuantity ingredients in
  let itemsWithoutQuantity :=
    filter (fun ing => negb (hasQuantity ing)) ingredients in
  let totalQuantity :=
    if Nat.ltb 0 (List.length itemsWithQuantity)
    then val (fold_left addQuantity itemsWithQuantity Num.zero)
    else undefined in
  match ingredients with
  | [] => None
  | first :: _ =>
      let baseName :=
        if Str.truthy (pi_baseName first) then pi_baseName first
        else pi_name first in
      let displayName := formatDisplayName canonicalName baseName in
      let formattedDisplayUnit :=
        snd (formatQuantity totalQuantity baseUnit displayName) in
      let displayUnit :=
        if String.eqb baseUnit "unit" && truthy_string (pi_unit first)
        then pi_unit first
        else if String.eqb baseUnit "unit"
                && negb (truthy_string formattedDisplayUnit)
        then val ""
        else formattedDisplayUnit in
      let withoutQuantity :=
        {| ag_name := displayName;
           ag_canonicalName := canonicalName;
           ag_baseName := pi_baseName first;
           ag_totalQuantity := undefined;
           ag_unit := undefined;
           ag_baseUnit := "none";
           ag_lines := ingredients;
           ag_section := "Other" |} in
      let withQuantity :=
        {| ag_name := displayName;
           ag_canonicalName := canonicalName;
           ag_baseName := pi_baseName first;
           ag_totalQuantity := totalQuantity;
           ag_unit := displayUnit;
           ag_baseUnit := baseUnit;
           ag_lines := ingredients;
           ag_section := "Other" |} in
      Some
        (if String.eqb canonicalName "salt and pepper" then
           {| ag_name := displayName;
              ag_canonicalName := canonicalName;
              ag_baseName := pi_baseName first;
              ag_totalQuantity := undefined;
              ag_unit := undefined;
              ag_baseUnit := "none";
              ag_lines := ingredients;
              ag_section := "Spices" |}
         else if Nat.ltb 0 (List.length itemsWithQuantity)
                 && Nat.eqb (List.length itemsWithoutQuantity) 0
         then withQuantity
         else if Nat.eqb (List.length itemsWithQuantity) 0
                 && Nat.ltb 0 (List.length itemsWithoutQuantity)
         then withoutQuantity
         else withQuantity)
  end.

Fixpoint aggregateGroups (groups : Groups) : option (list AggregatedIngredient) :=
  match groups with
  | [] => Some []
  | (key, ingredients) :: rest =>
      match aggregateGroup key ingredients, aggregateGroups rest with
      | Some entry, Some entries => Some (entry :: entries)
      | _, _ => None
      end
  end.

Definition aggregateIngredients (parsed : list ParsedIngredient)
  : option (list AggregatedIngredient) :=
  aggregateGroups (groupIngredients parsed).

(* ------------------------------------------------------------------ *)
(** ** lib/ingredients/categorizer.ts *)

Definition IngredientCategory : Type := string.

Definition postProcessSection (name : string) (aiSection : IngredientCategory)
  (canonicalName : nullable string) : IngredientCategory :=
  let text := Str.toLowerCase name in
  let canonicalText :=
    match canonicalName with
    | val c => Str.toLowerCase c
    | _ => ""
    end in
  let inText := Str.includes text in
  let inCanonical := Str.includes canonicalText in
  let either kw := inText kw || inCanonical kw in
  let neither kw := negb (inText kw) && negb (inCanonical kw) in
  if either "bell pepper" then "Produce"
  else if either "salmon" then "Meat/Fish"
  else if either "shrimp" then "Meat/Fish"
  else if either "chicken" then "Meat/Fish"
  else if either "beef" then "Meat/Fish"
  else if either "pork" then "Meat/Fish"
  else if either "turkey" && neither "broth" then "Meat/Fish"
  else if either "fish" && neither "sauce" then "Meat/Fish"
  else if either "zucchini" then "Produce"
  else if either "onion" && neither "powder" then "Produce"
  else if either "garlic" && neither "powder" then "Produce"
  else if either "lemon" then "Produce"
  else if either "lime" then "Produce"
  else if either "cilantro" then "Produce"
  else if either "parsley" then "Produce"
  else if either "basil" then "Produce"
  else if either "broccoli" then "Produce"
  else if either "spinach" then "Produce"
  else if either "carrot" then "Produce"
  else if either "tomato" && neither "paste" then "Produce"
  else if either "lettuce" then "Produce"
  else if either "cucumber" then "Produce"
  else if either "avocado" then "Produce"
  else if either "cauliflower" then "Produce"
  else if either "snap pea" then "Produce"
  else if either "green onion" then "Produce"
  else if inText "parmesan" then "Dairy"
  else if inText "feta" then "Dairy"
  else if inText "mozzarella" then "Dairy"
  else if inText "cheese" && negb (inText "sauce") then "Dairy"
  else if inText "olive oil" then "Pantry"
  else if inText "sesame oil" then "Pantry"
  else if inText "coconut oil" then "Pantry"
  else if inText "vinegar" then "Pantry"
  else if inText "broth" then "Pantry"
  else if inText "stock" then "Pantry"
  else if inText "coconut milk" then "Pantry"
  else if inText "fish sauce" then "Pantry"
  else if inText "soy sauce" then "Pantry"
  else if inText "cumin" || inText "paprika" || inText "turmeric"
          || inText "cinnamon" || inText "chili" || inText "coriander"
          || inText "garlic powder" || inText "onion powder"
  then "Spices"
  else aiSection.

(** The answer of the classification service.  [ClassifierFailed] stands for
    a call that throws and for an answer from which no JSON value other than
    [null] can be recovered; otherwise the answer is an object, given by its
    properties, which hold strings. *)
Inductive ClassifierResponse : Type :=
| ClassifierFailed : ClassifierResponse
| Categories : list (string * IngredientCategory) -> ClassifierResponse.

(** [categories[key] || "Other"]. *)
Definition sectionOrOther (categories : list (string * IngredientCategory))
  (key : string) : IngredientCategory :=
  match lookup key categories with
  | Some section => if Str.truthy section then section else "Other"
  | None => "Other"
  end.

Record IngredientRef : Type := mkRef {
  ir_name : string;
  ir_canonicalName : nullable string;
  ir_baseName : nullable string
}.

(** [a || b] on properties that may be missing. *)
Definition or_nullable (a b : nullable string) : nullable string :=
  if truthy_string a then a else b.

(** [map.set(key, value)] on a [Map] kept in insertion order. *)
Fixpoint mapSet {A : Type} (key : string) (value : A) (m : list (string * A))
  : list (string * A) :=
  match m with
  | [] => [(key, value)]
  | (k, v) :: rest =>
      if String.eqb k key then (k, value) :: rest
      else (k, v) :: mapSet key value rest
  end.

(** ** normalizeForAICategorization *)

Definition parenthetical : regex :=
  seq [ch "("; Star (Cls (Except ")")); ch ")"].

Definition prepWords : list string :=
  [ "minced"; "chopped"; "diced"; "sliced"; "grated"; "zested"; "juiced";
    "halved"; "seeded"; "spiralized"; "rinsed"; "drained"; "for garnish";
    "optional"; "pitted"; "trimmed"; "peeled"; "deveined"; "crumbled";
    "riced"; "for serving"; "cut into"; "thick slices"; "thin slices" ].

Definition wholeWord (prep : string) : regex := seq [Wb; ch prep; Wb].

Definition decimalToken : regex :=
  seq [Plus (Cls Digit); Opt (Group 1 (seq [ch "."; Plus (Cls Digit)]))].

Definition leadingNumber : regex := seq [Bol; decimalToken; Star sp].

Definition quantityAndUnit : regex :=
  seq [ Star sp; decimalToken; Star sp;
        Group 2
          (words [ "oz"; "lb"; "lbs"; "cup"; "cups"; "tbsp"; "tsp";
                   "tablespoon"; "teaspoon"; "clove"; "cloves"; "head";
                   "heads"; "bunch"; "bunches"; "can"; "cans"; "fillet";
                   "fillets"; "breast"; "breasts"; "inch"; "inches" ]);
        Star sp ].

Definition fraction : regex :=
  seq [Star sp; Plus (Cls Digit); ch "/"; Plus (Cls Digit); Star sp].

(** [s.substring(0, s.indexOf(","))] when there is a comma. *)
Fixpoint cutAtComma (s : string) : string :=
  match s with
  | EmptyString => EmptyString
  | String c s' =>
      if Ascii.eqb c ","%char then EmptyString else String c (cutAtComma s')
  end.

Definition normalizeForAICategorization (raw : string) : string :=
  let normalized := Str.trim raw in
  let normalized := remove optionalPrefix normalized in
  let normalized := replaceAll parenthetical "" normalized in
  let normalized := cutAtComma normalized in
  let normalized :=
    fold_left (fun text prep => replaceAll (wholeWord prep) "" text)
      prepWords normalized in
  let normalized := replaceAll leadingNumber "" normalized in
  let normalized := replaceAll quantityAndUnit "" normalized in
  let normalized := replaceAll fraction "" normalized in
  let normalized := Str.trim (replaceAll (Plus sp) " " normalized) in
  Str.toLowerCase normalized.

Definition categorizeIngredient (name : string) (useAI : bool)
  (canonicalName baseName : nullable string) (answer : ClassifierResponse)
  : IngredientCategory :=
  let ingredientName :=
    or_string canonicalName (or_string baseName name) in
  if negb useAI then postProcessSection name "Other" undefined
  else
    let normalizedForAI := normalizeForAICategorization ingredientName in
    match answer with
    | Categories categories =>
        let aiSection :=
          sectionOrOther categories (Str.toLowerCase normalizedForAI) in
        postProcessSection name aiSection (or_nullable canonicalName baseName)
    | ClassifierFailed => postProcessSection name "Other" undefined
    end.

(** [ingredients?.find(ing => ing.name === name)]; a missing [ingredients]
    is the empty list. *)
Definition findIngredient (ingredients : list IngredientRef) (name : string)
  : option IngredientRef :=
  find (fun ing => String.eqb (ir_name ing) name) ingredients.

Definition canonicalOf (ingredient : option IngredientRef) : nullable string :=
  match ingredient with
  | Some ing => or_nullable (ir_canonicalName ing) (ir_baseName ing)
  | None => undefined
  end.

Definition setAll (section : IngredientCategory) (names : list string)
  : list (string * IngredientCategory) :=
  fold_left (fun result name => mapSet name section result) names [].

Definition categorizeIngredients (names : list string) (useAI : bool)
  (ingredients : list IngredientRef) (answer : ClassifierResponse)
  : list (string * IngredientCategory) :=
  if negb useAI || Nat.eqb (List.length names) 0 then setAll "Other" names
  else
    match answer with
    | Categories categories =>
        fold_left
          (fun result name =>
             let ingredient := findIngredient ingredients name in
             let baseName := or_string (canonicalOf ingredient) name in
             let normalized :=
               let n := normalizeForAICategorization baseName in
               if Str.truthy n then n else name in
             let aiSection :=
               sectionOrOther categories (Str.toLowerCase normalized) in
             let canonicalName := canonicalOf ingredient in
             let finalSection :=
               postProcessSection name aiSection canonicalName in
             mapSet name finalSection result)
          names []
    | ClassifierFailed => setAll "Other" names
    end.

(* ------------------------------------------------------------------ *)
(** ** lib/ingredients/aggregator.ts: formatUnit *)

Definition formatUnit (baseUnit : string) (totalQuantity : nullable number)
  : string :=
  if String.eqb baseUnit "none" || negb (truthy_number totalQuantity) then ""
  else
    let total := toNumber totalQuantity in
    if String.eqb baseUnit "tsp" then "tsp"
    else if String.eqb baseUnit "tbsp" then
      if Num.ge total sixteen
      then cupOrCups (Num.floor (Num.div total sixteen))
      else "tbsp"
    else if String.eqb baseUnit "cup" then cupOrCups total
    else if String.eqb baseUnit "unit" then ""
    else "".

(* ------------------------------------------------------------------ *)
(** ** lib/formatters/notesFormatter.ts *)

Definition garnishSuffix : regex :=
  seq [Plus sp; ch "for"; Plus sp; ch "garnish"; Star sp; Eol].

Definition cleanGroceryDisplayName (name : string) : string :=
  let cleaned := Str.trim name in
  let cleaned := remove optionalPrefix cleaned in
  let cleaned := replaceAll parenthetical "" cleaned in
  let cleaned := cutAtComma cleaned in
  let cleaned := remove garnishSuffix cleaned in
  Str.trim (replaceAll (Plus sp) " " cleaned).

Definition CATEGORY_ORDER : list IngredientCategory :=
  ["Produce"; "Meat/Fish"; "Dairy"; "Dry Goods"; "Pantry"; "Spices"; "Other"].

(** An aggregated ingredient with its property [category], which the
    aggregator leaves out and the route of the grocery list sets. *)
Record CategorizedIngredient : Type := mkCategorized {
  ci_ingredient : AggregatedIngredient;
  ci_category : nullable string
}.

(** [if (!m.has(key)) m.set(key, []); m.get(key).push(x)]. *)
Fixpoint pushTo {A : Type} (key : string) (x : A) (m : list (string * list A))
  : list (string * list A) :=
  match m with
  | [] => [(key, [x])]
  | (k, members) :: rest =>
      if String.eqb k key then (k, members ++ [x]) :: rest
      else (k, members) :: pushTo key x rest
  end.

Definition categoryOf (ingredient : CategorizedIngredient) : IngredientCategory :=
  or_string (ci_category ingredient) "Other".

Definition byCategory (aggregated : list CategorizedIngredient)
  : list (string * list CategorizedIngredient) :=
  fold_left (fun m ingredient => pushTo (categoryOf ingredient) ingredient m)
    aggregated [].

Definition newline : string := String (ascii_of_nat 10) "".

Definition bullet : string := "• ".

(** The unit a line of the list shows. *)
Definition finalUnitOf (baseUnit : string) (displayUnit : nullable string)
  (ingredient : AggregatedIngredient) : nullable string :=
  match ag_lines ingredient with
  | firstLine :: _ =>
      if String.eqb baseUnit "unit" then
        if truthy_string (pi_unit firstLine) then pi_unit firstLine
        else if negb (truthy_string displayUnit)
        then val (or_string (ag_unit ingredient) "")
        else displayUnit
      else displayUnit
  | [] =>
      if String.eqb baseUnit "unit" && truthy_string (ag_unit ingredient)
      then ag_unit ingredient
      else displayUnit
  end.

Section NotesFormatter.

(** The text a template literal gives a number. *)
Variable numberToString : number -> string.

Definition quantityText (displayQuantity : nullable number) : string :=
  match displayQuantity with
  | val n => numberToString n
  | null => "null"
  | undefined => "undefined"
  end.

Definition groceryLine (ingredient : AggregatedIngredient) : string :=
  let cleanName := cleanGroceryDisplayName (ag_name ingredient) in
  let baseUnit :=
    if Str.truthy (ag_baseUnit ingredient) then ag_baseUnit ingredient
    else "none" in
  let '(displayQuantity, displayUnit) :=
    formatQuantity (ag_totalQuantity ingredient) baseUnit cleanName in
  let finalUnit := finalUnitOf baseUnit displayUnit ingredient in
  if negb (is_undefined displayQuantity) && truthy_string finalUnit then
    bullet ++ quantityText displayQuantity ++ " " ++ or_string finalUnit ""
      ++ " " ++ cleanName
  else if negb (is_undefined displayQuantity) && negb (truthy_string finalUnit)
  then bullet ++ quantityText displayQuantity ++ " " ++ cleanName
  else if negb (is_undefined displayQuantity)
  then bullet ++ quantityText displayQuantity ++ " " ++ cleanName
  else if Str.includes (Str.toLowerCase cleanName) "salt"
          && Str.includes (Str.toLowerCase cleanName) "pepper"
  then bullet ++ cleanName ++ " (to taste)"
  else bullet ++ cleanName.

Definition labelLines (weekLabel : nullable string) : list string :=
  match weekLabel with
  | val label => if Str.truthy label then [Str.toUpperCase label; ""] else []
  | _ => []
  end.

(** What the loop over [CATEGORY_ORDER] pushes for one category. *)
Definition categoryLines (groups : list (string * list CategorizedIngredient))
  (category : IngredientCategory) : list string :=
  match lookup category groups with
  | None => []
  | Some ingredients =>
      if Nat.eqb (List.length ingredients) 0 then []
      else
        category
          :: List.map (fun i => groceryLine (ci_ingredient i)) ingredients
          ++ [""]
  end.

Definition groceryLines (aggregated : list CategorizedIngredient)
  (weekLabel : nullable string) : list string :=
  labelLines weekLabel
    ++ flat_map (categoryLines (byCategory aggregated)) CATEGORY_ORDER.

Definition formatGroceryListForNotes (aggregated : list CategorizedIngredient)
  (weekLabel : nullable string) : string :=
  Str.trim (Str.join newline (groceryLines aggregated weekLabel)).

End NotesFormatter.

(* ------------------------------------------------------------------ *)
(** ** Notions used by the statements *)

(** Two numbers of the model denote the same number. *)
Definition same (a b : number) : Prop :=
  match a, b with
  | Fin x, Fin y => (x == y)%Q
  | NaN, NaN | PosInf, PosInf | NegInf, NegInf => True
  | _, _ => False
  end.

(** The conversion factor of a unit into its base unit, as the specification
    words it: 16 for cups into tablespoons, 1 for every other unit. *)
Definition spec_factor (unitInfo : UnitInfo) : number :=
  match u_baseUnit unitInfo with
  | BCup => sixteen
  | _ => one
  end.

(** A unit token that is not empty and consists of white space. *)
Definition blankUnit (unit : nullable string) : bool :=
  match unit with
  | val u => Str.truthy u && Str.is_empty (Str.trim u)
  | _ => false
  end.

Definition isNumber (v : nullable number) : Prop := exists n, v = val n.

(** The records the parser hands out. *)
Definition Produced (p : ParsedIngredient) : Prop :=
  (exists line useAI answer, parseIngredient line useAI answer = Some p)
  \/ (exists lines useAI answer out,
        parseIngredients lines useAI answer = Some out /\ In p out).

(** The records resolved without the external interpreter. *)
Definition ResolvedLocally (p : ParsedIngredient) : Prop :=
  (exists line, parseIngredientRegex line = Resolved p)
  \/ (exists line, enrichParsedIngredient (fallbackRecord line) = Some p).

(** The unit fields of a record are those [normalizeUnit] computes from its
    unit token and quantity. *)
Definition UnitsNormalized (p : ParsedIngredient) : Prop :=
  pi_baseUnit p = fst (normalizeUnit (pi_unit p) (pi_quantity p))
  /\ pi_quantityInBaseUnits p
     = snd (normalizeUnit (pi_unit p) (pi_quantity p)).

(** The words a pattern accepts, anchors and groups left aside. *)
Inductive matches : regex -> string -> Prop :=
| MEps : matches Eps ""
| MChr c x : chr_eq c x = true -> matches (Chr c) (String x "")
| MCls k x : in_cls k x = true -> matches (Cls k) (String x "")
| MSeq r1 r2 w1 w2 :
    matches r1 w1 -> matches r2 w2 -> matches (Seq r1 r2) (w1 ++ w2)%string
| MAltL r1 r2 w : matches r1 w -> matches (Alt r1 r2) w
| MAltR r1 r2 w : matches r2 w -> matches (Alt r1 r2) w
| MStarNil r : matches (Star r) ""
| MStarApp r w1 w2 :
    matches r w1 -> matches (Star r) w2 -> matches (Star r) (w1 ++ w2)%string
| MGroup n r w : matches r w -> matches (Group n r) w
| MBol : matches Bol ""
| MEol : matches Eol ""
| MWb : matches Wb "".

(** Every group of the pattern only captures words that satisfy [P]. *)
Fixpoint groups_ok (P : nat -> string -> Prop) (r : regex) : Prop :=
  match r with
  | Seq r1 r2 | Alt r1 r2 => groups_ok P r1 /\ groups_ok P r2
  | Star r' => groups_ok P r'
  | Group n r' => (forall w, matches r' w -> P n w) /\ groups_ok P r'
  | _ => True
  end.

Definition caps_ok (P : nat -> string -> Prop) (cs : caps) : Prop :=
  forall n w, group n cs = val w -> P n w.

(** A word that starts with a character other than white space. *)
Definition solid (w : string) : Prop :=
  exists c w', w = String c w' /\ Str.is_space c = false.

(** A sufficient test for: every word of the pattern is [solid]. *)
Fixpoint starts_solid (r : regex) : bool :=
  match r with
  | Void => true
  | Chr c => negb (Str.is_space (Str.lower c))
  | Cls Digit | Cls Letter => true
  | Seq r1 _ => starts_solid r1
  | Alt r1 r2 => starts_solid r1 && starts_solid r2
  | Group _ r' => starts_solid r'
  | _ => false
  end.

(** The quantity of a record is converted by the factor of its unit. *)
Definition converted (p : ParsedIngredient) : Prop :=
  forall u q e,
    pi_unit p = val u ->
    pi_quantity p = val q ->
    lookup (Str.trim (Str.toLowerCase u)) UNIT_MAP = Some e ->
    exists r, pi_quantityInBaseUnits p = val r
              /\ same r (Num.mul q (spec_factor e)).

(** The invariant of the data model on the unit fields. *)
Definition unit_invariant (p : ParsedIngredient) : Prop :=
  (pi_baseUnit p = val BNone -> pi_quantityInBaseUnits p = undefined)
  /\ (forall q,
        pi_quantity p = val q ->
        truthy_string (pi_unit p) = false ->
        pi_baseUnit p = val BUnit /\ pi_quantityInBaseUnits p = val q).

(** The quantity in base units is a number exactly when there is a base
    unit. *)
Definition quantity_iff_unit (p : ParsedIngredient) : Prop :=
  isNumber (pi_quantityInBaseUnits p) <-> pi_baseUnit p <> val BNone.

(** Only group 2 is constrained: it captures a [solid] word. *)
Definition unit_is_solid (n : nat) (w : string) : Prop := n = 2 -> solid w.

(** The three lines of the salt and pepper scenario. *)
Definition saltLines : list string :=
  ["Salt and pepper to taste"; "salt to taste"; "pepper to taste"].

(** The lines no pattern applies to, in their order. *)
Definition noPattern (line : string) : bool :=
  match parseIngredientRegex line with
  | NoPattern => true
  | _ => false
  end.

Definition complexOf (lines : list string) : list string :=
  filter noPattern lines.

(** The record the batch owes to a line, as the specification words it: the
    record of the pattern that resolves the line; otherwise the record the
    interpreter returned for it, the answer at rank [k] going to the
    unresolved line at rank [k]; otherwise the minimal fallback record. *)
Definition owed (enrichedAiResults : list ParsedIngredient) (rank : nat)
  (line : string) : option ParsedIngredient :=
  match parseIngredientRegex line with
  | Resolved p => Some p
  | Raised => None
  | NoPattern =>
      match nth_error enrichedAiResults rank with
      | Some r => Some r
      | None => enrichParsedIngredient (fallbackRecord line)
      end
  end.

(** The usable records of an answer; none when the batch call fails. *)
Definition usable (complexLines : list string) (answer : AiResponse)
  : list ParsedIngredient :=
  match batchAnswer complexLines answer with
  | Some enrichedAiResults => enrichedAiResults
  | None => []
  end.

(** No pattern tier raises on a line of the list. *)
Definition neverRaised (lines : list string) : Prop :=
  Forall (fun line => parseIngredientRegex line <> Raised) lines.

(** The batch returns one record per line. *)
Definition no_line_dropped (lines : list string) (useAI : bool)
  (answer : AiResponse) : Prop :=
  exists out,
    parseIngredients lines useAI answer = Some out
    /\ List.length out = List.length lines.

(** The grouping key of an entry is the key of its lines. *)
Definition entryKey (e : AggregatedIngredient) : string :=
  match ag_lines e with
  | p :: _ => groupKey p
  | [] => ""
  end.

Definition hasKey (k : string) (p : ParsedIngredient) : bool :=
  String.eqb (groupKey p) k.


(** The lines a pattern resolves, and their records, in their order. *)
Definition simpleLinesOf (lines : list string) : list string :=
  filter (fun line => negb (noPattern line)) lines.

Fixpoint simpleOf (lines : list string) : list ParsedIngredient :=
  match lines with
  | [] => []
  | line :: rest =>
      match parseIngredientRegex line with
      | Resolved p => p :: simpleOf rest
      | _ => simpleOf rest
      end
  end.

(** The records owed to the lines, rank by rank; none when a line raises. *)
Fixpoint expected (en : list ParsedIngredient) (rank : nat)
  (lines : list string) : option (list ParsedIngredient) :=
  match lines with
  | [] => Some []
  | line :: rest =>
      match owed en rank line,
            expected en (if noPattern line then S rank else rank) rest with
      | Some r, Some rs => Some (r :: rs)
      | _, _ => None
      end
  end.

(** A group exists when it has a member. *)
Definition nonempty (ms : list ParsedIngredient)
  : option (list ParsedIngredient) :=
  match ms with
  | [] => None
  | _ => Some ms
  end.

(** The section and the base unit [aggregateGroup] gives an entry. *)
Definition sectionOf (canonicalName : string) : string :=
  if String.eqb canonicalName "salt and pepper" then "Spices" else "Other".

Definition baseUnitOf (canonicalName baseUnit : string) (withQ withoutQ : nat)
  : string :=
  if String.eqb canonicalName "salt and pepper" then "none"
  else if Nat.ltb 0 withQ && Nat.eqb withoutQ 0 then baseUnit
  else if Nat.eqb withQ 0 && Nat.ltb 0 withoutQ then "none"
  else baseUnit.

(** A matching step is sound: when it succeeds, it has consumed a word of the
    pattern, kept the groups within [P], and the continuation succeeds. *)
Definition sound_step (P : nat -> string -> Prop) (R : Type) (r : regex)
  (step : nat -> string -> caps -> cont R -> option R) : Prop :=
  forall pos s cs (k : cont R) x,
    caps_ok P cs ->
    step pos s cs k = Some x ->
    exists w s' cs',
      s = (w ++ s')%string /\ matches r w /\ caps_ok P cs'
      /\ k (pos + String.length w) s' cs' = Some x.

(** ** Notions used by the further properties *)

(** The two parts of a grouping key. *)
Definition keyName (ing : ParsedIngredient) : string :=
  if truthy_name (pi_canonicalName ing) then textOf (pi_canonicalName ing)
  else lowerTrim (if Str.truthy (pi_baseName ing)
                  then pi_baseName ing else pi_name ing).

Definition keyUnit (ing : ParsedIngredient) : string :=
  match pi_baseUnit ing with
  | val b => baseUnit_string b
  | _ => "none"
  end.

(** The section the batch gives a name when the classifier answers. *)
Definition sectionOnAnswer (categories : list (string * IngredientCategory))
  (ingredients : list IngredientRef) (name : string) : IngredientCategory :=
  let ingredient := findIngredient ingredients name in
  let normalized :=
    let n := normalizeForAICategorization
               (or_string (canonicalOf ingredient) name) in
    if Str.truthy n then n else name in
  postProcessSection name
    (sectionOrOther categories (Str.toLowerCase normalized))
    (canonicalOf ingredient).

(** The steps of [normalizeCanonicalName], one by one: the plural rule, and
    the two special cases of salt and pepper. *)
Definition singularOrSynonym (normalized : string) : CanonicalName :=
  if Str.endsWith normalized "s"
     && negb (Str.endsWith normalized "ss")
     && negb (Str.endsWith normalized "us")
  then
    match property (Str.dropLast normalized) NAME_NORMALIZATION_MAP with
    | Own v => Text v
    | Inherited key => Member key
    | Absent => synonym normalized
    end
  else Text normalized.

Definition saltSpecialCases (normalized : CanonicalName) : CanonicalName :=
  let normalized :=
    if test saltAndPepper (textOf normalized)
       || test saltToTaste (textOf normalized)
    then Text "salt and pepper" else normalized in
  if test pepperToTaste (textOf normalized)
  then Text "salt and pepper" else normalized.

(** An element of the answer the enrichment accepts: an object whose name
    is a string. *)
Definition wellFormed (element : AiElement) : bool :=
  match element with
  | Object item => match ai_name item with val _ => true | _ => false end
  | NotAnObject => false
  end.

(** A number that is not negative: zero, a positive rational or
    +Infinity. *)
Definition nonNegative (n : number) : Prop :=
  match n with
  | Fin x => (0 <= x)%Q
  | PosInf => True
  | _ => False
  end.

(** Every character of a string passes a test. *)
Fixpoint every (P : ascii -> bool) (s : string) : bool :=
  match s with
  | EmptyString => true
  | String c s' => P c && every P s'
  end.

Definition notComma (c : ascii) : bool := negb (Ascii.eqb c ","%char).

(** A character of the ASCII range, on which [toUpperCase] and
    [toLowerCase] change the 26 letters only and keep the length. *)
Definition isAscii (c : ascii) : bool := Nat.ltb (Str.code c) 128.

(** The ingredients of a category, and the lines the list shows for them:
    the heading, one line per ingredient, an empty line. *)
Definition inCategory (category : IngredientCategory)
  (ingredient : CategorizedIngredient) : bool :=
  String.eqb (categoryOf ingredient) category.

Definition categoryBlock (numberToString : number -> string)
  (category : IngredientCategory) (members : list CategorizedIngredient)
  : list string :=
  match members with
  | [] => []
  | _ =>
      category
        :: List.map (fun i => groceryLine numberToString (ci_ingredient i))
             members
        ++ [""]
  end.

(** An ingredient whose category is one the list prints. *)
Definition listed (ingredient : CategorizedIngredient) : bool :=
  existsb (String.eqb (categoryOf ingredient)) CATEGORY_ORDER.

(** The total of an entry is missing or not negative. *)
Definition totalNotNegative (e : AggregatedIngredient) : Prop :=
  match ag_totalQuantity e with
  | val t => nonNegative t
  | undefined => True
  | null => False
  end.

(* ------------------------------------------------------------------ *)
(** * Proofs *)

Arguments lookup {A} k m : simpl never.
Arguments property {A} key table : simpl never.
Arguments Re.exec r s : simpl never.
Arguments Re.test r s : simpl never.
Arguments Re.remove r s : simpl never.
Arguments Str.trim s : simpl never.
Arguments Str.toLowerCase s : simpl never.
Arguments extractBaseNameAndPrep name : simpl never.
Arguments normalizeCanonicalName baseName : simpl never.
Arguments normalizeForAICategorization raw : simpl never.
Arguments postProcessSection name aiSection canonicalName : simpl never.
Arguments Str.includes s p : simpl never.
Arguments aggregateGroup key ingredients : simpl never.
Arguments groupKey ing : simpl never.

(** ** Strings *)

Lemma is_space_lower (c : ascii) : Str.is_space (Str.lower c) = Str.is_space c.
Proof.
  destruct c as [[] [] [] [] [] [] [] []]; reflexivity.
Qed.

Lemma trimStart_lower (s : string) :
  Str.trimStart (Str.toLowerCase s) = Str.toLowerCase (Str.trimStart s).
Proof.
  unfold Str.toLowerCase.
  induction s as [|c s IH]; simpl; [reflexivity|].
  rewrite is_space_lower. destruct (Str.is_space c); [exact IH|reflexivity].
Qed.

Lemma is_empty_lower (s : string) :
  Str.is_empty (Str.toLowerCase s) = Str.is_empty s.
Proof. destruct s; reflexivity. Qed.

Lemma trimEnd_lower (s : string) :
  Str.trimEnd (Str.toLowerCase s) = Str.toLowerCase (Str.trimEnd s).
Proof.
  unfold Str.toLowerCase.
  induction s as [|c s IH]; simpl; [reflexivity|].
  rewrite IH, is_space_lower. fold (Str.toLowerCase (Str.trimEnd s)).
  rewrite is_empty_lower.
  destruct (Str.is_space c && Str.is_empty (Str.trimEnd s)); reflexivity.
Qed.

Lemma trim_lower (s : string) :
  Str.trim (Str.toLowerCase s) = Str.toLowerCase (Str.trim s).
Proof.
  unfold Str.trim. now rewrite trimStart_lower, trimEnd_lower.
Qed.

Lemma is_empty_true (s : string) : Str.is_empty s = true -> s = "".
Proof. destruct s; [reflexivity|discriminate]. Qed.

(** ** The tables *)

Lemma lookup_cons {A : Type} (k k' : string) (v' : A) (m : list (string * A)) :
  lookup k ((k', v') :: m) = if String.eqb k' k then Some v' else lookup k m.
Proof. reflexivity. Qed.

Lemma lookup_In {A : Type} (k : string) (m : list (string * A)) (v : A) :
  lookup k m = Some v -> In (k, v) m.
Proof.
  induction m as [|[k' v'] m IH]; [discriminate|].
  rewrite lookup_cons. simpl In.
  destruct (String.eqb k' k) eqn:E.
  - apply String.eqb_eq in E. intros [= ->]. left. now subst.
  - intros H. right. now apply IH.
Qed.

Lemma property_Own {A : Type} (k : string) (m : list (string * A)) (v : A) :
  lookup k m = Some v <-> property k m = Own v.
Proof.
  unfold property. destruct (lookup k m) as [x|].
  - split; intros [= ->]; reflexivity.
  - destruct (existsb (String.eqb k) prototypeKeys);
      split; intros [=].
Qed.

Lemma property_Inherited {A : Type} (k key : string)
  (m : list (string * A)) :
  property k m = Inherited key -> key = k /\ In k prototypeKeys.
Proof.
  unfold property. destruct (lookup k m); [discriminate|].
  destruct (existsb (String.eqb k) prototypeKeys) eqn:E; [|discriminate].
  intros [= <-]. split; [reflexivity|].
  apply existsb_exists in E as (x & Hx & E).
  apply String.eqb_eq in E. now subst.
Qed.

Ltac by_name_table L :=
  apply lookup_In in L; simpl in L;
  repeat (destruct L as [L|L];
          [injection L as Hk Hv; subst|]);
  [..|contradiction].

Lemma unit_none_key (k : string) (e : UnitInfo) :
  lookup k UNIT_MAP = Some e -> u_baseUnit e = BNone -> k = "".
Proof.
  intros H Hb. apply lookup_In in H. simpl in H.
  repeat (destruct H as [H|H];
          [injection H as <- <-; first [reflexivity | discriminate Hb]|]).
  contradiction.
Qed.

(** ** normalizeUnit *)

Lemma same_mul_one (q : number) :
  Num.truthy q = true -> same q (Num.mul q one).
Proof.
  destruct q as [| | |x]; try easy.
  intros _. cbv [same Num.mul one Num.of_Z].
  rewrite Qred_correct. symmetry. apply Qmult_1_r.
Qed.

Lemma normalizeUnit_recognized (u : string) (q : number) (e : UnitInfo) :
  Num.truthy q = true ->
  lookup (Str.trim (Str.toLowerCase u)) UNIT_MAP = Some e ->
  exists r, snd (normalizeUnit (val u) (val q)) = val r
            /\ same r (Num.mul q (spec_factor e)).
Proof.
  intros Hq He. unfold normalizeUnit. simpl truthy_string.
  destruct (Str.truthy u) eqn:Hu; simpl.
  - rewrite Hq. apply property_Own in He. rewrite He. simpl.
    unfold spec_factor.
    destruct (u_baseUnit e); simpl; eexists; split; try reflexivity;
      try (now apply same_mul_one).
    destruct (Num.mul q sixteen); simpl; easy.
  - destruct u; [|discriminate]. simpl in He. injection He as <-.
    exists q. split; [reflexivity|]. now apply same_mul_one.
Qed.

Lemma normalizeUnit_none (unit : nullable string) (quantity : nullable number) :
  fst (normalizeUnit unit quantity) = val BNone ->
  blankUnit unit = false ->
  snd (normalizeUnit unit quantity) = undefined.
Proof.
  unfold normalizeUnit.
  destruct (negb (truthy_string unit) && negb (is_undefined quantity));
    [discriminate|].
  destruct unit as [| |u]; try reflexivity.
  destruct quantity as [| |q]; try reflexivity.
  destruct (negb (Str.truthy u) || negb (Num.truthy q)) eqn:E; [reflexivity|].
  apply orb_false_elim in E as [Hu _]. apply negb_false_iff in Hu.
  destruct (property _ UNIT_MAP) as [e| |] eqn:He; try discriminate.
  destruct (u_baseUnit e) eqn:Hb; try discriminate.
  intros _ Hblank. exfalso.
  apply property_Own, unit_none_key in He; [|exact Hb].
  rewrite trim_lower in He. simpl in Hblank. rewrite Hu in Hblank.
  destruct (Str.trim u); [discriminate Hblank|discriminate He].
Qed.

Lemma normalizeUnit_count (unit : nullable string) (q : number) :
  truthy_string unit = false ->
  normalizeUnit unit (val q) = (val BUnit, val q).
Proof. intros H. unfold normalizeUnit. now rewrite H. Qed.

Lemma normalizeUnit_iff (unit : nullable string) (quantity : nullable number) :
  quantity <> null ->
  blankUnit unit = false ->
  isNumber (snd (normalizeUnit unit quantity))
  <-> fst (normalizeUnit unit quantity) <> val BNone.
Proof.
  intros Hq Hblank. unfold normalizeUnit, isNumber.
  destruct (truthy_string unit) eqn:Ht; simpl.
  - destruct unit as [| |u]; try discriminate.
    destruct quantity as [| |q]; simpl;
      try (split; [intros [n [=]]|intros H; now contradiction H]).
    simpl in Ht. rewrite Ht. simpl.
    destruct (Num.truthy q); simpl;
      [|split; [intros [n [=]]|intros H; now contradiction H]].
    destruct (property _ UNIT_MAP) as [e| |] eqn:He;
      try (split; [discriminate|now eexists]).
    destruct (u_baseUnit e) eqn:Hb; simpl;
      try (split; [discriminate|now eexists]).
    exfalso. apply property_Own, unit_none_key in He; [|exact Hb].
    rewrite trim_lower in He. simpl in Hblank. rewrite Ht in Hblank.
    destruct (Str.trim u); [discriminate Hblank|discriminate He].
  - destruct quantity as [| |q]; simpl.
    + destruct unit; simpl;
        (split; [intros [n [=]]|intros H; now contradiction H]).
    + now contradiction Hq.
    + split; [discriminate|now eexists].
Qed.

(** ** Every record the parser hands out went through the enrichment *)

Lemma enrich_fields (p r : ParsedIngredient) :
  enrichParsedIngredient p = Some r ->
  pi_unit r = pi_unit p
  /\ pi_quantity r = pi_quantity p
  /\ pi_baseUnit r = fst (normalizeUnit (pi_unit p) (pi_quantity p))
  /\ pi_quantityInBaseUnits r
     = snd (normalizeUnit (pi_unit p) (pi_quantity p)).
Proof.
  unfold enrichParsedIngredient.
  destruct (extractBaseNameAndPrep (pi_name p)).
  destruct (normalizeCanonicalName _); [|discriminate].
  destruct (normalizeUnit (pi_unit p) (pi_quantity p)).
  intros [= <-]. now repeat split.
Qed.

Lemma enrich_normalized (p r : ParsedIngredient) :
  enrichParsedIngredient p = Some r -> UnitsNormalized r.
Proof.
  intros H. destruct (enrich_fields _ H) as (Hu & Hq & Hb & Hr).
  unfold UnitsNormalized. now rewrite Hu, Hq, Hb, Hr.
Qed.

Lemma returned_Resolved (enriched : option ParsedIngredient)
  (p : ParsedIngredient) :
  returned enriched = Resolved p <-> enriched = Some p.
Proof.
  destruct enriched; simpl; split; intros [= ->]; reflexivity.
Qed.

Lemma returned_NoPattern (enriched : option ParsedIngredient) :
  returned enriched <> NoPattern.
Proof. now destruct enriched. Qed.

Lemma returned_Raised (enriched : option ParsedIngredient) :
  returned enriched = Raised <-> enriched = None.
Proof. destruct enriched; simpl; split; easy. Qed.

(** A record of a pattern tier is the enrichment of a draft. *)
Lemma regex_enriched (line : string) (p : ParsedIngredient) :
  parseIngredientRegex line = Resolved p ->
  exists name quantity unit text,
    enrichParsedIngredient (draft name quantity unit text) = Some p.
Proof.
  unfold parseIngredientRegex.
  destruct (test noQuantityPhrase _);
    [intros H; apply returned_Resolved in H; eauto|].
  destruct (exec simplePattern _);
    [intros H; apply returned_Resolved in H; eauto|].
  destruct (exec noUnitPattern _); [|discriminate].
  intros H; apply returned_Resolved in H; eauto.
Qed.

Lemma regex_normalized (line : string) (p : ParsedIngredient) :
  parseIngredientRegex line = Resolved p -> UnitsNormalized p.
Proof.
  intros H. apply regex_enriched in H as (n & q & u & t & H).
  now apply enrich_normalized in H.
Qed.

Lemma enrichAiItem_normalized (i : AiItem) (p : ParsedIngredient) :
  enrichAiItem i = Some p -> UnitsNormalized p.
Proof.
  unfold enrichAiItem. destruct (ai_name i); try discriminate.
  apply enrich_normalized.
Qed.

Lemma parseIngredient_normalized line useAI answer p :
  parseIngredient line useAI answer = Some p -> UnitsNormalized p.
Proof.
  unfold parseIngredient.
  destruct (parseIngredientRegex line) eqn:E;
    [|intros [= <-]; now apply regex_normalized with line|discriminate].
  destruct useAI; [|apply enrich_normalized].
  destruct answer as [|[l|[|i]]]; try apply enrich_normalized.
  destruct (enrichAiItem _) eqn:Ei; [|apply enrich_normalized].
  intros [= <-]. now apply enrichAiItem_normalized in Ei.
Qed.

Lemma enrichAiResults_normalized complexLines index aiResults out :
  enrichAiResults complexLines index aiResults = Some out ->
  Forall UnitsNormalized out.
Proof.
  revert index out.
  induction aiResults as [|[|i] rest IH]; intros index out; simpl.
  - intros [= <-]. constructor.
  - discriminate.
  - destruct (enrichAiItem _) eqn:Ei; [|discriminate].
    destruct (enrichAiResults _ _ rest) eqn:Er; [|discriminate].
    intros [= <-]. constructor.
    + now apply enrichAiItem_normalized in Ei.
    + now apply IH with (S index).
Qed.

Lemma partition_normalized (lines sl cl : list string)
  (sr : list ParsedIngredient) :
  partitionLines lines = Some (sl, cl, sr) -> Forall UnitsNormalized sr.
Proof.
  revert sl cl sr.
  induction lines as [|line rest IH]; intros sl cl sr; simpl.
  - intros [= <- <- <-]. constructor.
  - destruct (parseIngredientRegex line) eqn:E; [| |discriminate];
      destruct (partitionLines rest) as [[[sl' cl'] sr']|]; try discriminate;
      simpl; intros [= <- <- <-].
    + now apply IH with sl' cl'.
    + constructor; [now apply regex_normalized with line|].
      now apply IH with sl' cl'.
Qed.

Lemma at_index_In {A : Type} (l : list A) (i : nat) (x : A) :
  at_index l i = val x -> In x l.
Proof.
  unfold at_index. destruct (nth_error l i) eqn:E; [|discriminate].
  intros [= <-]. now apply nth_error_In with i.
Qed.

Lemma combineWithAnswer_normalized sl sr en si ci lines out :
  Forall UnitsNormalized sr -> Forall UnitsNormalized en ->
  combineWithAnswer sl sr en si ci lines = Some out ->
  Forall UnitsNormalized out.
Proof.
  intros Hsr Hen. revert si ci out.
  induction lines as [|line rest IH]; intros si ci out; simpl.
  - intros [= <-]. constructor.
  - destruct (includesLine sl line).
    + destruct (at_index sr si) as [| |r] eqn:E; try discriminate.
      destruct (combineWithAnswer sl sr en (S si) ci rest) eqn:Ec;
        [|discriminate].
      intros [= <-]. constructor; [|now apply IH with (S si) ci].
      apply at_index_In in E. rewrite Forall_forall in Hsr. now apply Hsr.
    + destruct (match at_index en ci with
                | val r => Some r
                | _ => enrichParsedIngredient (fallbackRecord line)
                end) as [r|] eqn:Er; [|discriminate].
      destruct (combineWithAnswer sl sr en si (S ci) rest) eqn:Ec;
        [|discriminate].
      intros [= <-]. constructor; [|now apply IH with si (S ci)].
      destruct (at_index en ci) as [| |r'] eqn:E;
        try (now apply enrich_normalized in Er).
      injection Er as <-.
      apply at_index_In in E. rewrite Forall_forall in Hen. now apply Hen.
Qed.

Lemma combineWithFallback_normalized sl sr fb si ci lines out :
  Forall UnitsNormalized sr ->
  combineWithFallback sl sr fb si ci lines = Some out ->
  Forall UnitsNormalized out.
Proof.
  intros Hsr. revert si ci out.
  induction lines as [|line rest IH]; intros si ci out; simpl.
  - intros [= <-]. constructor.
  - destruct (includesLine sl line).
    + destruct (at_index sr si) as [| |r] eqn:E; try discriminate.
      destruct (combineWithFallback sl sr fb (S si) ci rest) eqn:Ec;
        [|discriminate].
      intros [= <-]. constructor; [|now apply IH with (S si) ci].
      apply at_index_In in E. rewrite Forall_forall in Hsr. now apply Hsr.
    + destruct (at_index fb ci) as [| |r] eqn:E; try discriminate.
      destruct (enrichParsedIngredient (ensureBaseName r)) as [r'|] eqn:Er;
        [|discriminate].
      destruct (combineWithFallback sl sr fb si (S ci) rest) eqn:Ec;
        [|discriminate].
      intros [= <-]. constructor; [|now apply IH with si (S ci)].
      now apply enrich_normalized in Er.
Qed.

Lemma parseIngredients_normalized lines useAI answer out :
  parseIngredients lines useAI answer = Some out ->
  Forall UnitsNormalized out.
Proof.
  unfold parseIngredients.
  destruct (partitionLines lines) as [[[sl cl] sr]|] eqn:Ep; [|discriminate].
  apply partition_normalized in Ep.
  destruct (Nat.ltb 0 (List.length cl) && useAI).
  - destruct (tryBatch lines sl cl sr answer) as [all|] eqn:Et.
    + intros [= <-]. unfold tryBatch in Et.
      destruct (batchAnswer cl answer) as [en|] eqn:Eb; [|discriminate].
      revert Et. apply combineWithAnswer_normalized; [exact Ep|].
      unfold batchAnswer in Eb. destruct answer; [discriminate|].
      now apply enrichAiResults_normalized in Eb.
    + unfold catchBatch. destruct (promiseAll _); [|discriminate].
      now apply combineWithFallback_normalized.
  - now intros [= <-].
Qed.

Lemma produced_normalized (p : ParsedIngredient) :
  Produced p -> UnitsNormalized p.
Proof.
  intros [(line & useAI & answer & H)|(lines & useAI & answer & out & H & Hin)].
  - now apply parseIngredient_normalized in H.
  - apply parseIngredients_normalized in H.
    rewrite Forall_forall in H. now apply H.
Qed.

(** ** Soundness of the matcher *)

Lemma take_app (w s : string) (pos : nat) :
  Str.take (pos + String.length w - pos) (w ++ s)%string = w.
Proof.
  replace (pos + String.length w - pos) with (String.length w) by lia.
  induction w as [|c w IH]; simpl; [now destruct s|]. now rewrite IH.
Qed.

Lemma append_assoc (a b c : string) :
  ((a ++ b) ++ c = a ++ (b ++ c))%string.
Proof. induction a as [|x a IH]; simpl; [reflexivity|now rewrite IH]. Qed.

Lemma length_append (a b : string) :
  String.length (a ++ b) = String.length a + String.length b.
Proof. induction a as [|x a IH]; simpl; [reflexivity|now rewrite IH]. Qed.

Section Soundness.

Variable P : nat -> string -> Prop.
Variable R : Type.
Variable whole : string.

Lemma iterate_sound (r : regex)
  (step : nat -> string -> caps -> cont R -> option R) :
  sound_step P r step ->
  forall fuel,
    sound_step P (Star r)
      (fun pos s cs (k : cont R) => iterate step k fuel pos s cs).
Proof.
  intros Hstep fuel.
  induction fuel as [|fuel IH]; intros pos s cs k x Hcs; simpl.
  - intros Hk. exists "", s, cs. rewrite Nat.add_0_r.
    repeat split; [constructor|assumption|assumption].
  - unfold orElse.
    destruct (step pos s cs _) as [y|] eqn:E.
    + intros [= ->].
      apply Hstep in E as (w1 & s1 & cs1 & -> & Hw1 & Hcs1 & Hk1);
        [|assumption].
      destruct (Nat.ltb pos (pos + String.length w1)); [|discriminate].
      apply IH in Hk1 as (w2 & s2 & cs2 & -> & Hw2 & Hcs2 & Hk2);
        [|assumption].
      exists (w1 ++ w2)%string, s2, cs2. rewrite append_assoc, length_append.
      rewrite Nat.add_assoc.
      repeat split; [now constructor|assumption|assumption].
    + intros Hk. exists "", s, cs. rewrite Nat.add_0_r.
      repeat split; [constructor|assumption|assumption].
Qed.

Lemma run_sound (r : regex) :
  groups_ok P r -> sound_step P r (run (R:=R) whole r).
Proof.
  induction r as [| |c|c|r1 IH1 r2 IH2|r1 IH1 r2 IH2|r IH|n r IH| | |];
    intros Hok pos s cs k x Hcs; simpl.
  - discriminate.
  - intros Hk. exists "", s, cs. rewrite Nat.add_0_r.
    repeat split; [constructor|assumption|assumption].
  - destruct s as [|a s]; [discriminate|].
    destruct (chr_eq c a) eqn:E; [|discriminate].
    intros Hk. exists (String a ""), s, cs. simpl.
    replace (pos + 1) with (S pos) by lia.
    repeat split; [now constructor|assumption|assumption].
  - destruct s as [|a s]; [discriminate|].
    destruct (in_cls c a) eqn:E; [|discriminate].
    intros Hk. exists (String a ""), s, cs. simpl.
    replace (pos + 1) with (S pos) by lia.
    repeat split; [now constructor|assumption|assumption].
  - destruct Hok as [Hok1 Hok2]. intros H.
    apply (IH1 Hok1) in H as (w1 & s1 & cs1 & -> & Hw1 & Hcs1 & H);
      [|assumption].
    apply (IH2 Hok2) in H as (w2 & s2 & cs2 & -> & Hw2 & Hcs2 & H);
      [|assumption].
    exists (w1 ++ w2)%string, s2, cs2. rewrite append_assoc, length_append.
    rewrite Nat.add_assoc.
    repeat split; [now constructor|assumption|assumption].
  - destruct Hok as [Hok1 Hok2]. unfold orElse.
    destruct (run whole r1 pos s cs k) as [y|] eqn:E.
    + intros [= ->].
      apply (IH1 Hok1) in E as (w & s' & cs' & -> & Hw & Hcs' & H);
        [|assumption].
      exists w, s', cs'. repeat split; [now apply MAltL|assumption|assumption].
    + intros H.
      apply (IH2 Hok2) in H as (w & s' & cs' & -> & Hw & Hcs' & H);
        [|assumption].
      exists w, s', cs'. repeat split; [now apply MAltR|assumption|assumption].
  - intros H. simpl in Hok.
    now apply (iterate_sound (IH Hok) (S (String.length s))) in H.
  - destruct Hok as [Hn Hok]. intros H.
    apply (IH Hok) in H as (w & s' & cs' & -> & Hw & Hcs' & H); [|assumption].
    rewrite take_app in H.
    exists w, s', ((n, w) :: cs'). repeat split; [now constructor| |assumption].
    intros m v. simpl. destruct (Nat.eqb n m) eqn:E.
    + apply Nat.eqb_eq in E. subst m. intros [= <-]. now apply Hn.
    + apply Hcs'.
  - destruct (Nat.eqb pos 0); [|discriminate].
    intros Hk. exists "", s, cs. rewrite Nat.add_0_r.
    repeat split; [constructor|assumption|assumption].
  - destruct (Str.is_empty s); [|discriminate].
    intros Hk. exists "", s, cs. rewrite Nat.add_0_r.
    repeat split; [constructor|assumption|assumption].
  - destruct (Bool.eqb _ _); [discriminate|].
    intros Hk. exists "", s, cs. rewrite Nat.add_0_r.
    repeat split; [constructor|assumption|assumption].
Qed.

End Soundness.

Lemma search_caps (P : nat -> string -> Prop) (r : regex) (whole : string) :
  groups_ok P r ->
  forall s pos m, search r whole pos s = Some m -> caps_ok P (m_caps m).
Proof.
  intros Hok. induction s as [|c s IH]; intros pos m; simpl.
  - destruct (run _ _ _ _ _ _) as [y|] eqn:E; [|discriminate].
    intros [= ->].
    apply (run_sound (P:=P)) in E as (w & s' & cs' & _ & _ & Hcs & [= <-]);
      [assumption|assumption|]. now intros n v.
  - destruct (run _ _ _ _ _ _) as [y|] eqn:E.
    + intros [= ->].
      apply (run_sound (P:=P)) in E as (w & s' & cs' & _ & _ & Hcs & [= <-]);
        [assumption|assumption|]. now intros n v.
    + apply IH.
Qed.

Lemma not_space_of_digit (c : ascii) :
  Str.is_digit c = true -> Str.is_space c = false.
Proof. destruct c as [[] [] [] [] [] [] [] []]; simpl; easy. Qed.

Lemma not_space_of_letter (c : ascii) :
  Str.is_lower (Str.lower c) = true -> Str.is_space c = false.
Proof. destruct c as [[] [] [] [] [] [] [] []]; simpl; easy. Qed.

Lemma starts_solid_sound (r : regex) (w : string) :
  matches r w -> starts_solid r = true -> solid w.
Proof.
  induction 1 as [|c x E|k x E|r1 r2 w1 w2 _ IH1 _ _| | | | | | | |];
    simpl; intros Hs; try discriminate.
  - exists x, "". split; [reflexivity|].
    unfold chr_eq in E. apply Ascii.eqb_eq in E.
    rewrite <- is_space_lower, <- E. now apply negb_true_iff.
  - exists x, "". split; [reflexivity|].
    destruct k; try discriminate; simpl in E.
    + now apply not_space_of_digit.
    + now apply not_space_of_letter.
  - destruct (IH1 Hs) as (c & w' & -> & Hc). now exists c, (w' ++ w2)%string.
  - apply andb_prop in Hs as [Hs _]. auto.
  - apply andb_prop in Hs as [_ Hs]. auto.
  - auto.
Qed.

(** ** The unit token of a pattern tier is never blank *)

Lemma simplePattern_groups : groups_ok unit_is_solid simplePattern.
Proof.
  unfold simplePattern, unit_is_solid. simpl seq. simpl groups_ok.
  repeat match goal with |- _ /\ _ => split end;
    try exact I; try (intros w _ Hn; discriminate Hn).
  intros w Hw _. now apply starts_solid_sound with unitToken.
Qed.

Lemma trim_solid (w : string) : solid w -> Str.is_empty (Str.trim w) = false.
Proof.
  intros (c & w' & -> & Hc). unfold Str.trim. simpl. rewrite Hc. simpl.
  now rewrite Hc.
Qed.

Lemma solid_not_blank (w : string) :
  solid w -> blankUnit (val (Str.toLowerCase w)) = false.
Proof.
  intros H. simpl. rewrite trim_lower, is_empty_lower, (trim_solid H).
  apply andb_false_r.
Qed.

Lemma definedUnlessNaN_not_null (n : number) : definedUnlessNaN n <> null.
Proof. unfold definedUnlessNaN. now destruct (Num.isNaN n). Qed.

Lemma regex_plain (line : string) (p : ParsedIngredient) :
  parseIngredientRegex line = Resolved p ->
  blankUnit (pi_unit p) = false /\ pi_quantity p <> null.
Proof.
  unfold parseIngredientRegex.
  destruct (test noQuantityPhrase _).
  { intros H. apply returned_Resolved in H.
    apply enrich_fields in H as (-> & -> & _). now split. }
  destruct (exec simplePattern _) as [m|] eqn:E.
  { intros H. apply returned_Resolved in H.
    apply enrich_fields in H as (-> & -> & _).
    simpl pi_unit. simpl pi_quantity.
    split; [|apply definedUnlessNaN_not_null].
    apply (search_caps unit_is_solid) in E; [|apply simplePattern_groups].
    unfold captured. destruct (group 2 (m_caps m)) as [| |g] eqn:G;
      try reflexivity.
    apply solid_not_blank. now apply (E 2 g). }
  destruct (exec noUnitPattern _); [|discriminate].
  intros H. apply returned_Resolved in H.
  apply enrich_fields in H as (-> & -> & _).
  simpl. split; [reflexivity|apply definedUnlessNaN_not_null].
Qed.

Lemma resolved_locally_plain (p : ParsedIngredient) :
  ResolvedLocally p ->
  blankUnit (pi_unit p) = false /\ pi_quantity p <> null.
Proof.
  intros [[line H]|[line H]]; [now apply regex_plain with line|].
  apply enrich_fields in H as (-> & -> & _).
  now split.
Qed.

(** ** formatQuantity *)

Lemma floor_div_sixteen (n : Z) :
  Num.floor (Num.div (Num.of_Z n) sixteen) = Num.of_Z (n / 16).
Proof.
  unfold Num.floor, Num.div, sixteen, Num.of_Z.
  change (Num.sign (inject_Z 16)) with Gt. cbv iota.
  f_equal. f_equal.
  rewrite (Qfloor_comp _ _ (Qred_correct _)).
  unfold Qdiv, Qmult, Qinv, inject_Z, Qfloor. simpl.
  now rewrite Z.mul_1_r.
Qed.

(** ** The categorizer *)

Lemma lookup_mapSet {A : Type} (k k' : string) (v : A) (m : list (string * A)) :
  lookup k (mapSet k' v m)
  = if String.eqb k' k then Some v else lookup k m.
Proof.
  induction m as [|[k0 v0] m IH]; simpl.
  - rewrite lookup_cons. now destruct (String.eqb k' k).
  - destruct (String.eqb k0 k') eqn:E0; rewrite !lookup_cons.
    + apply String.eqb_eq in E0. subst k0.
      now destruct (String.eqb k' k).
    + rewrite IH. destruct (String.eqb k0 k) eqn:E1; [|reflexivity].
      apply String.eqb_eq in E1. subst k0.
      now rewrite String.eqb_sym, E0.
Qed.

Lemma lookup_fold_mapSet {A : Type} (f : string -> A) (names : list string)
  (name : string) :
  forall init,
    lookup name (fold_left (fun result n => mapSet n (f n) result) names init)
    = if existsb (String.eqb name) names then Some (f name)
      else lookup name init.
Proof.
  induction names as [|n names IH]; intros init; simpl; [reflexivity|].
  rewrite IH, lookup_mapSet, (String.eqb_sym name n).
  destruct (String.eqb n name) eqn:E; simpl.
  - apply String.eqb_eq in E. subst n.
    now destruct (existsb (String.eqb name) names).
  - reflexivity.
Qed.

Lemma existsb_eqb_In (name : string) (names : list string) :
  In name names -> existsb (String.eqb name) names = true.
Proof.
  intros H. apply existsb_exists. exists name. split; [assumption|].
  apply String.eqb_refl.
Qed.

Lemma bell_pepper_first (name : string) (aiSection : IngredientCategory)
  (canonicalName : nullable string) :
  Str.includes (Str.toLowerCase name) "bell pepper" = true
  \/ (exists c, canonicalName = val c
                /\ Str.includes (Str.toLowerCase c) "bell pepper" = true) ->
  postProcessSection name aiSection canonicalName = "Produce".
Proof.
  intros [H|(c & -> & H)]; unfold postProcessSection; cbv zeta beta;
    rewrite H; [reflexivity|].
  now rewrite orb_true_r.
Qed.

(** On an answer of the classifier, whatever it holds, the override for
    "bell pepper" decides the section. *)
Lemma bell_pepper_wins_on_answer names ingredients categories name :
  In name names ->
  Str.includes (Str.toLowerCase name) "bell pepper" = true
  \/ (exists c, canonicalOf (findIngredient ingredients name) = val c
                /\ Str.includes (Str.toLowerCase c) "bell pepper" = true) ->
  lookup name
    (categorizeIngredients names true ingredients (Categories categories))
  = Some "Produce".
Proof.
  intros Hin H. unfold categorizeIngredients.
  replace (negb true || Nat.eqb (List.length names) 0) with false
    by (now destruct names).
  rewrite (lookup_fold_mapSet
    (fun name =>
       postProcessSection name
         (sectionOrOther categories
            (Str.toLowerCase
               (if Str.truthy
                     (normalizeForAICategorization
                        (or_string (canonicalOf (findIngredient ingredients name))
                           name))
                then normalizeForAICategorization
                       (or_string (canonicalOf (findIngredient ingredients name))
                          name)
                else name)))
         (canonicalOf (findIngredient ingredients name)))).
  rewrite (existsb_eqb_In _ _ Hin). f_equal. now apply bell_pepper_first.
Qed.

(** ** The name normalizer *)

Lemma trimEnd_idempotent (s : string) :
  Str.trimEnd (Str.trimEnd s) = Str.trimEnd s.
Proof.
  induction s as [|c s IH]; simpl; [reflexivity|].
  destruct (Str.is_space c && Str.is_empty (Str.trimEnd s)) eqn:E;
    [reflexivity|].
  simpl. now rewrite IH, E.
Qed.

Lemma trimStart_head (s : string) :
  Str.trimStart s = ""
  \/ exists c t, Str.trimStart s = String c t /\ Str.is_space c = false.
Proof.
  induction s as [|c s IH]; simpl; [now left|].
  destruct (Str.is_space c) eqn:E; [exact IH|]. right. now exists c, s.
Qed.

Lemma trim_idempotent (s : string) : Str.trim (Str.trim s) = Str.trim s.
Proof.
  unfold Str.trim.
  destruct (trimStart_head s) as [->|(c & t & -> & Hc)]; [reflexivity|].
  simpl. rewrite Hc. simpl. rewrite Hc. simpl. rewrite Hc. simpl.
  now rewrite trimEnd_idempotent.
Qed.

Lemma endsWith_s (n : string) :
  Str.endsWith n "s" = true -> n = (Str.dropLast n ++ "s")%string.
Proof.
  induction n as [|c n IH]; [discriminate|].
  destruct n as [|d n].
  - simpl. rewrite orb_false_r. intros H.
    destruct (Ascii.eqb c "s") eqn:E; [|discriminate].
    apply Ascii.eqb_eq in E. now subst c.
  - intros H. change (Str.dropLast (String c (String d n)))
      with (String c (Str.dropLast (String d n))).
    simpl append. f_equal. apply IH.
    simpl in H. destruct (Ascii.eqb c "s"); exact H.
Qed.

(** The tail of [normalizeCanonicalName] on a name the synonym steps leave
    alone. *)
Lemma special_cases (n : string) :
  test saltAndPepper n || test saltToTaste n || test pepperToTaste n = true ->
  saltSpecialCases (Text n) = Text "salt and pepper".
Proof.
  intros H. unfold saltSpecialCases. cbv zeta. cbn [textOf].
  destruct (test saltAndPepper n || test saltToTaste n); [reflexivity|].
  simpl in H. cbn [textOf]. now rewrite H.
Qed.

Lemma normalizeCanonicalName_steps (baseName : string) :
  normalizeCanonicalName baseName
  = match singularOrSynonym (Str.trim (Str.toLowerCase baseName)) with
    | Member _ => None
    | Text normalized =>
        Some (saltSpecialCases (synonym (Str.trim normalized)))
    end.
Proof.
  unfold normalizeCanonicalName, saltSpecialCases, singularOrSynonym.
  cbv beta zeta. reflexivity.
Qed.

(** No key of [Object.prototype] is a salt and pepper name, nor the singular
    of one. *)
Lemma salt_name_not_inherited (n : string) :
  test saltAndPepper n || test saltToTaste n || test pepperToTaste n = true ->
  ~ In n prototypeKeys
  /\ (Str.endsWith n "s" = true -> ~ In (Str.dropLast n) prototypeKeys).
Proof.
  intros H. split.
  - intros Hin. simpl in Hin.
    repeat (destruct Hin as [<-|Hin]; [vm_compute in H; discriminate H|]).
    exact Hin.
  - intros Es Hin. apply endsWith_s in Es. simpl in Hin.
    repeat (destruct Hin as [Hin|Hin];
            [rewrite <- Hin in Es; subst n; vm_compute in H;
             discriminate H|]).
    exact Hin.
Qed.

(** ** Grouping *)

Lemma fold_uniform (k : string) (rest : list ParsedIngredient) :
  Forall (fun p => groupKey p = k) rest ->
  forall members,
    fold_left (fun groups ingredient =>
                 addToGroup (groupKey ingredient) ingredient groups)
              rest [(k, members)]
    = [(k, members ++ rest)].
Proof.
  induction 1 as [|y rest Hy _ IH]; intros members; simpl.
  - now rewrite app_nil_r.
  - rewrite Hy, String.eqb_refl, IH, <- app_assoc. reflexivity.
Qed.

Lemma group_uniform (k : string) (first : ParsedIngredient)
  (rest : list ParsedIngredient) :
  Forall (fun p => groupKey p = k) (first :: rest) ->
  groupIngredients (first :: rest) = [(k, first :: rest)].
Proof.
  intros H. apply Forall_cons_iff in H as [Hf Hr].
  unfold groupIngredients. simpl. rewrite Hf. now rewrite fold_uniform.
Qed.

Lemma partition_simple (Q : ParsedIngredient -> Prop) (lines : list string) :
  Forall (fun line => exists p, parseIngredientRegex line = Resolved p /\ Q p)
         lines ->
  exists simpleResults,
    partitionLines lines = Some (lines, [], simpleResults)
    /\ List.length simpleResults = List.length lines
    /\ Forall Q simpleResults.
Proof.
  induction 1 as [|line rest (p & Hp & HQ) _ (sr & IH & Hlen & HF)].
  - exists []. now repeat split.
  - exists (p :: sr). simpl. rewrite IH, Hp. simpl. rewrite Hlen.
    repeat split. now constructor.
Qed.

Lemma salt_line_parsed (line : string) :
  In line saltLines ->
  exists p, parseIngredientRegex line = Resolved p
            /\ groupKey p = "salt and pepper::none".
Proof.
  intros [<-|[<-|[<-|[]]]]; eexists; (split; [vm_compute; reflexivity|]);
    vm_compute; reflexivity.
Qed.

Lemma aggregateGroup_salt (first : ParsedIngredient)
  (rest : list ParsedIngredient) :
  aggregateGroup "salt and pepper::none" (first :: rest)
  = Some {| ag_name := "Salt and black pepper";
            ag_canonicalName := "salt and pepper";
            ag_baseName := pi_baseName first;
            ag_totalQuantity := undefined;
            ag_unit := undefined;
            ag_baseUnit := "none";
            ag_lines := first :: rest;
            ag_section := "Spices" |}.
Proof.
  unfold aggregateGroup.
  change (Str.split "::" "salt and pepper::none")
    with ["salt and pepper"; "none"].
  cbv zeta. cbn [nth].
  change (String.eqb "salt and pepper" "salt and pepper") with true.
  cbv iota. unfold formatDisplayName.
  change (String.eqb "salt and pepper" "salt and pepper") with true.
  reflexivity.
Qed.

(** ** Recombination of a batch *)

Lemma raised_or_not (lines : list string) :
  neverRaised lines
  \/ Exists (fun line => parseIngredientRegex line = Raised) lines.
Proof.
  induction lines as [|line rest [IH|IH]].
  - left. constructor.
  - destruct (parseIngredientRegex line) eqn:E.
    + left. constructor; [now rewrite E|exact IH].
    + left. constructor; [now rewrite E|exact IH].
    + right. now left.
  - right. now right.
Qed.

Lemma partition_spec (lines : list string) :
  neverRaised lines ->
  partitionLines lines
  = Some (simpleLinesOf lines, complexOf lines, simpleOf lines).
Proof.
  induction 1 as [|line rest Hl _ IH]; simpl; [reflexivity|].
  rewrite IH. unfold simpleLinesOf, complexOf, noPattern. simpl.
  now destruct (parseIngredientRegex line).
Qed.

Lemma partition_raised (lines : list string) :
  Exists (fun line => parseIngredientRegex line = Raised) lines ->
  partitionLines lines = None.
Proof.
  induction 1 as [line rest H|line rest _ IH]; simpl.
  - now rewrite H.
  - rewrite IH. now destruct (parseIngredientRegex line).
Qed.

Lemma simpleOf_app (a b : list string) :
  simpleOf (a ++ b) = simpleOf a ++ simpleOf b.
Proof.
  induction a as [|x a IH]; simpl; [reflexivity|].
  destruct (parseIngredientRegex x); simpl; now rewrite IH.
Qed.

Lemma complexOf_app (a b : list string) :
  complexOf (a ++ b) = complexOf a ++ complexOf b.
Proof. apply filter_app. Qed.

Lemma simpleOf_snoc (pre : list string) (line : string) :
  List.length (simpleOf (pre ++ [line]))
  = match parseIngredientRegex line with
    | Resolved _ => S (List.length (simpleOf pre))
    | _ => List.length (simpleOf pre)
    end.
Proof.
  rewrite simpleOf_app, length_app. simpl.
  destruct (parseIngredientRegex line); simpl; lia.
Qed.

Lemma complexOf_snoc (pre : list string) (line : string) :
  List.length (complexOf (pre ++ [line]))
  = if noPattern line then S (List.length (complexOf pre))
    else List.length (complexOf pre).
Proof.
  rewrite complexOf_app, length_app. unfold complexOf at 2. simpl.
  destruct (noPattern line); simpl; lia.
Qed.

Lemma complexOf_middle (pre rest : list string) (line : string) :
  parseIngredientRegex line = NoPattern ->
  complexOf (pre ++ line :: rest) = complexOf pre ++ line :: complexOf rest.
Proof.
  intros E. rewrite complexOf_app. f_equal. unfold complexOf, noPattern.
  simpl. now rewrite E.
Qed.

Lemma simpleOf_middle (pre rest : list string) (line : string) p :
  parseIngredientRegex line = Resolved p ->
  simpleOf (pre ++ line :: rest) = simpleOf pre ++ p :: simpleOf rest.
Proof. intros E. rewrite simpleOf_app. simpl. now rewrite E. Qed.

Lemma includes_simple (lines : list string) (line : string) :
  In line lines ->
  includesLine (simpleLinesOf lines) line = negb (noPattern line).
Proof.
  intros Hin. unfold includesLine.
  destruct (noPattern line) eqn:E; simpl.
  - destruct (existsb _ _) eqn:Ex; [|reflexivity].
    apply existsb_exists in Ex as (x & Hx & Heq).
    apply String.eqb_eq in Heq. subst x.
    apply filter_In in Hx as [_ Hx]. now rewrite E in Hx.
  - apply existsb_exists. exists line. split; [|apply String.eqb_refl].
    apply filter_In. split; [assumption|]. now rewrite E.
Qed.

Lemma at_index_app {A : Type} (a b : list A) (x : A) :
  at_index (a ++ x :: b) (List.length a) = val x.
Proof.
  unfold at_index. rewrite nth_error_app2 by lia.
  now rewrite Nat.sub_diag.
Qed.

Lemma at_index_nth {A : Type} (l : list A) (i : nat) (d : option A) :
  match at_index l i with val r => Some r | _ => d end
  = match nth_error l i with Some r => Some r | None => d end.
Proof. unfold at_index. now destruct (nth_error l i). Qed.

Lemma combineWithAnswer_spec (lines : list string)
  (en : list ParsedIngredient) :
  neverRaised lines ->
  forall suf pre,
    lines = pre ++ suf ->
    combineWithAnswer (simpleLinesOf lines) (simpleOf lines) en
      (List.length (simpleOf pre)) (List.length (complexOf pre)) suf
    = expected en (List.length (complexOf pre)) suf.
Proof.
  intros Hn.
  induction suf as [|line rest IH]; intros pre Hl; [reflexivity|].
  assert (Hl' : lines = (pre ++ [line]) ++ rest)
    by now rewrite <- app_assoc.
  specialize (IH _ Hl'). rewrite simpleOf_snoc, complexOf_snoc in IH.
  assert (Hin : In line lines) by (rewrite Hl; apply in_elt).
  cbn [combineWithAnswer expected].
  rewrite (includes_simple _ _ Hin).
  unfold neverRaised in Hn. rewrite Forall_forall in Hn.
  specialize (Hn _ Hin).
  unfold owed, noPattern in *.
  destruct (parseIngredientRegex line) as [|p|] eqn:E; [| |easy];
    cbn [negb]; cbv iota.
  - rewrite IH, at_index_nth.
    destruct (nth_error en (List.length (complexOf pre)));
      [|destruct (enrichParsedIngredient (fallbackRecord line))];
      try reflexivity;
      now destruct (expected en (S (List.length (complexOf pre))) rest).
  - rewrite IH, Hl, (simpleOf_middle _ _ _ E), at_index_app.
    now destruct (expected en (List.length (complexOf pre)) rest).
Qed.

Lemma or_string_again (a : nullable string) (b : nullable string) :
  let x := or_string a (or_string b "") in
  or_string a (or_string (val x) "") = x.
Proof.
  assert (K : forall y, or_string (val y) "" = y) by now intros [|c y].
  cbv zeta. set (y := or_string b "").
  destruct a as [| |s]; cbn [or_string]; try exact (K y).
  destruct (Str.truthy s); [reflexivity|exact (K y)].
Qed.

Lemma enrich_again (p r : ParsedIngredient) :
  enrichParsedIngredient p = Some r ->
  enrichParsedIngredient (ensureBaseName r) = Some r.
Proof.
  intros Hr.
  assert (H : forall e,
             pi_name e = pi_name p -> pi_unit e = pi_unit p ->
             pi_quantity e = pi_quantity p -> pi_notes e = pi_notes p ->
             pi_originalText e = pi_originalText p ->
             pi_raw e
             = val (or_string (pi_originalText p) (or_string (pi_raw p) "")) ->
             enrichParsedIngredient e = enrichParsedIngredient p).
  { intros e Hn Hu Hq Hno Ho Hw. unfold enrichParsedIngredient.
    rewrite Hn, Hu, Hq, Hno, Ho, Hw.
    destruct (extractBaseNameAndPrep (pi_name p)).
    destruct (normalizeCanonicalName _); [|reflexivity].
    destruct (normalizeUnit (pi_unit p) (pi_quantity p)).
    now rewrite or_string_again. }
  assert (F : pi_name r = pi_name p /\ pi_unit r = pi_unit p
              /\ pi_quantity r = pi_quantity p /\ pi_notes r = pi_notes p
              /\ pi_originalText r = pi_originalText p
              /\ pi_raw r
                 = val (or_string (pi_originalText p)
                          (or_string (pi_raw p) ""))).
  { revert Hr. unfold enrichParsedIngredient.
    destruct (extractBaseNameAndPrep (pi_name p)).
    destruct (normalizeCanonicalName _); [|discriminate].
    destruct (normalizeUnit (pi_unit p) (pi_quantity p)).
    intros [= <-]. now repeat split. }
  destruct F as (Fn & Fu & Fq & Fno & Fo & Fr).
  rewrite <- Hr. unfold ensureBaseName.
  destruct (Str.truthy (pi_baseName r)); apply H; assumption.
Qed.

Lemma parse_unresolved (line : string) :
  parseIngredientRegex line = NoPattern ->
  parseIngredient line false CallFailed
  = enrichParsedIngredient (fallbackRecord line).
Proof. intros E. unfold parseIngredient. now rewrite E. Qed.

Lemma promiseAll_app {A : Type} (a b : list (option A)) :
  promiseAll (a ++ b)
  = match promiseAll a, promiseAll b with
    | Some x, Some y => Some (x ++ y)
    | _, _ => None
    end.
Proof.
  induction a as [|[x|] a IH]; simpl.
  - now destruct (promiseAll b).
  - rewrite IH. destruct (promiseAll a); [|reflexivity].
    now destruct (promiseAll b).
  - reflexivity.
Qed.

Lemma promiseAll_length {A : Type} (l : list (option A)) :
  forall out, promiseAll l = Some out -> List.length out = List.length l.
Proof.
  induction l as [|[x|] l IH]; intros out; simpl.
  - now intros [= <-].
  - destruct (promiseAll l) as [o|]; [|discriminate].
    intros [= <-]. simpl. now rewrite (IH o eq_refl).
  - discriminate.
Qed.

Lemma promiseAll_middle {A B : Type} (f : A -> option B) (a b : list A)
  (x : A) (out : list B) :
  promiseAll (List.map f (a ++ x :: b)) = Some out ->
  exists r, f x = Some r /\ at_index out (List.length a) = val r.
Proof.
  rewrite map_app, promiseAll_app. cbn [List.map promiseAll].
  destruct (promiseAll (List.map f a)) as [oa|] eqn:Ea; [|discriminate].
  destruct (f x) as [r|]; [|discriminate].
  destruct (promiseAll (List.map f b)) as [ob|]; [|discriminate].
  intros [= <-]. exists r. split; [reflexivity|].
  apply promiseAll_length in Ea. rewrite length_map in Ea.
  rewrite <- Ea. apply at_index_app.
Qed.

Lemma promiseAll_filter {A B : Type} (f : A -> option B) (g : A -> bool)
  (l : list A) :
  promiseAll (List.map f (filter g l)) = None ->
  promiseAll (List.map f l) = None.
Proof.
  induction l as [|x l IH]; simpl; [discriminate|].
  destruct (g x); simpl.
  - destruct (f x); [|reflexivity].
    destruct (promiseAll (List.map f (filter g l))); [discriminate|].
    intros _. now rewrite IH.
  - intros H. rewrite (IH H). now destruct (f x).
Qed.

(** Without an answer, the records owed are those of the lines parsed one
    by one without the interpreter. *)
Lemma expected_on_failure (lines : list string) :
  forall rank,
    expected [] rank lines
    = promiseAll
        (List.map (fun line => parseIngredient line false CallFailed) lines).
Proof.
  induction lines as [|line rest IH]; intros rank; [reflexivity|].
  cbn [expected List.map promiseAll]. rewrite IH.
  unfold owed, parseIngredient.
  destruct (parseIngredientRegex line).
  - replace (nth_error [] rank) with (@None ParsedIngredient)
      by now destruct rank.
    destruct (enrichParsedIngredient (fallbackRecord line)); [|reflexivity].
    now destruct (promiseAll _).
  - now destruct (promiseAll _).
  - reflexivity.
Qed.

Lemma combineWithFallback_spec (lines : list string)
  (fallbackResults : list ParsedIngredient) :
  neverRaised lines ->
  promiseAll
    (List.map (fun line => parseIngredient line false CallFailed)
       (complexOf lines)) = Some fallbackResults ->
  forall suf pre,
    lines = pre ++ suf ->
    combineWithFallback (simpleLinesOf lines) (simpleOf lines)
      fallbackResults
      (List.length (simpleOf pre)) (List.length (complexOf pre)) suf
    = expected [] (List.length (complexOf pre)) suf.
Proof.
  intros Hn Hf.
  induction suf as [|line rest IH]; intros pre Hl; [reflexivity|].
  assert (Hl' : lines = (pre ++ [line]) ++ rest)
    by now rewrite <- app_assoc.
  specialize (IH _ Hl'). rewrite simpleOf_snoc, complexOf_snoc in IH.
  assert (Hin : In line lines) by (rewrite Hl; apply in_elt).
  cbn [combineWithFallback expected].
  rewrite (includes_simple _ _ Hin).
  unfold neverRaised in Hn. rewrite Forall_forall in Hn.
  specialize (Hn _ Hin).
  unfold owed, noPattern in *.
  destruct (parseIngredientRegex line) as [|p|] eqn:E; [| |easy];
    cbn [negb]; cbv iota.
  - rewrite Hl, (complexOf_middle _ _ _ E) in Hf.
    apply promiseAll_middle in Hf as (r & Hr & ->).
    rewrite (parse_unresolved _ E) in Hr.
    rewrite (enrich_again _ Hr), IH, Hr.
    replace (nth_error [] (List.length (complexOf pre)))
      with (@None ParsedIngredient)
      by now destruct (List.length (complexOf pre)).
    now destruct (expected [] (S (List.length (complexOf pre))) rest).
  - rewrite IH, Hl, (simpleOf_middle _ _ _ E), at_index_app.
    now destruct (expected [] (List.length (complexOf pre)) rest).
Qed.

Lemma catchBatch_spec (lines : list string) :
  neverRaised lines ->
  catchBatch lines (simpleLinesOf lines) (complexOf lines) (simpleOf lines)
  = expected [] 0 lines.
Proof.
  intros Hn. unfold catchBatch.
  destruct (promiseAll _) as [fb|] eqn:Ef.
  - exact (combineWithFallback_spec Hn Ef lines [] eq_refl).
  - apply promiseAll_filter in Ef. now rewrite expected_on_failure.
Qed.

Lemma expected_raised en lines :
  Exists (fun line => parseIngredientRegex line = Raised) lines ->
  forall rank, expected en rank lines = None.
Proof.
  induction 1 as [line rest H|line rest _ IH]; intros rank;
    cbn [expected]; unfold owed.
  - now rewrite H.
  - rewrite IH. now destruct (match parseIngredientRegex line with
                              | NoPattern => _ | Resolved p => _
                              | Raised => _ end).
Qed.

(** The records of an answer stand in for fallback records only. *)
Lemma expected_without_answer en lines :
  forall rank,
    expected en rank lines = None -> expected [] rank lines = None.
Proof.
  induction lines as [|line rest IH]; intros rank; [discriminate|].
  cbn [expected]. unfold owed.
  destruct (parseIngredientRegex line); try reflexivity.
  - replace (nth_error [] rank) with (@None ParsedIngredient)
      by now destruct rank.
    destruct (enrichParsedIngredient (fallbackRecord line));
      [|reflexivity].
    destruct (expected en _ rest) eqn:Ee;
      [now destruct (nth_error en rank)|].
    now rewrite (IH _ Ee).
  - destruct (expected en _ rest) eqn:Ee; [discriminate|].
    now rewrite (IH _ Ee).
Qed.

Lemma expected_length en lines :
  forall rank out,
    expected en rank lines = Some out ->
    List.length out = List.length lines.
Proof.
  induction lines as [|l rest IH]; intros rank out; cbn [expected].
  - now intros [= <-].
  - destruct (owed en rank l); [|discriminate].
    destruct (expected en _ rest) as [rs|] eqn:E; [|discriminate].
    intros [= <-]. simpl. now rewrite (IH _ _ E).
Qed.

Lemma expected_nth en lines :
  forall rank out i line,
    expected en rank lines = Some out ->
    nth_error lines i = Some line ->
    nth_error out i
    = owed en (rank + List.length (complexOf (firstn i lines))) line.
Proof.
  induction lines as [|l rest IH]; intros rank out i line;
    [now destruct i|].
  cbn [expected].
  destruct (owed en rank l) as [r|] eqn:Eo; [|discriminate].
  destruct (expected en _ rest) as [rs|] eqn:E; [|discriminate].
  intros [= <-]. destruct i as [|i]; simpl.
  - intros [= <-]. now rewrite Nat.add_0_r.
  - intros H. rewrite (IH _ _ _ _ E H). unfold complexOf. simpl.
    destruct (noPattern l); simpl; [|reflexivity].
    now rewrite Nat.add_succ_r.
Qed.

Lemma expected_all_simple en rank lines :
  neverRaised lines ->
  complexOf lines = [] -> expected en rank lines = Some (simpleOf lines).
Proof.
  induction 1 as [|l rest Hl _ IH]; [reflexivity|].
  unfold complexOf. cbn [filter expected simpleOf]. unfold owed, noPattern.
  destruct (parseIngredientRegex l); [discriminate| |easy].
  intros H. now rewrite (IH H).
Qed.

Lemma enrichAiResults_nth complexLines :
  forall aiResults index en k r,
    enrichAiResults complexLines index aiResults = Some en ->
    nth_error en k = Some r ->
    exists result,
      nth_error aiResults k = Some (Object result)
      /\ enrichAiItem (fillTexts (at_index complexLines (index + k)) result)
         = Some r.
Proof.
  induction aiResults as [|[|result] rest IH]; intros index en k r; simpl.
  - intros [= <-]. now destruct k.
  - discriminate.
  - destruct (enrichAiItem _) as [r0|] eqn:E0; [|discriminate].
    destruct (enrichAiResults _ _ rest) as [rs|] eqn:Er; [|discriminate].
    intros [= <-]. destruct k as [|k]; simpl.
    + intros [= <-]. exists result. rewrite Nat.add_0_r. now split.
    + intros H. destruct (IH _ _ _ _ Er H) as (x & Hx & Hr).
      exists x. split; [assumption|]. now rewrite Nat.add_succ_r.
Qed.

(** The batch with the interpreter, as a function of the lines and of the
    usable records of the answer. *)
Lemma parseIngredients_expected (lines : list string) (answer : AiResponse) :
  parseIngredients lines true answer
  = expected (usable (complexOf lines) answer) 0 lines.
Proof.
  destruct (raised_or_not lines) as [Hn|Hr].
  2:{ unfold parseIngredients.
      now rewrite (partition_raised Hr), (expected_raised _ Hr). }
  unfold parseIngredients, usable. rewrite (partition_spec Hn).
  destruct (complexOf lines) as [|c cl] eqn:Ec.
  - simpl. now rewrite expected_all_simple.
  - rewrite <- Ec. replace (Nat.ltb 0 (List.length (complexOf lines)) && true)
      with true by now rewrite Ec.
    unfold tryBatch. rewrite (catchBatch_spec Hn).
    destruct (batchAnswer (complexOf lines) answer) as [en|];
      [|reflexivity].
    pose proof (@combineWithAnswer_spec lines en Hn lines [] eq_refl) as Hc.
    cbn [simpleOf complexOf filter List.length] in Hc. rewrite Hc.
    destruct (expected en 0 lines) eqn:E; [reflexivity|].
    now apply expected_without_answer in E.
Qed.

(** ** Groups as a function of the input *)

Lemma lookup_addToGroup (k k' : string) (x : ParsedIngredient) (g : Groups) :
  lookup k' (addToGroup k x g)
  = if String.eqb k k'
    then Some (match lookup k g with
               | Some members => members ++ [x]
               | None => [x]
               end)
    else lookup k' g.
Proof.
  induction g as [|[k0 ms] g IH]; simpl.
  - rewrite lookup_cons. now destruct (String.eqb k k').
  - rewrite (lookup_cons k). destruct (String.eqb k0 k) eqn:E0.
    + apply String.eqb_eq in E0. subst k0. rewrite !lookup_cons.
      now destruct (String.eqb k k').
    + rewrite !lookup_cons, IH.
      destruct (String.eqb k0 k') eqn:E1; [|reflexivity].
      apply String.eqb_eq in E1. subst k0. now rewrite String.eqb_sym, E0.
Qed.

Lemma keys_addToGroup (k : string) (x : ParsedIngredient) (g : Groups) :
  List.map fst (addToGroup k x g)
  = match lookup k g with
    | Some _ => List.map fst g
    | None => List.map fst g ++ [k]
    end.
Proof.
  induction g as [|[k0 ms] g IH]; simpl; [reflexivity|].
  rewrite lookup_cons. destruct (String.eqb k0 k); [reflexivity|].
  simpl. rewrite IH. now destruct (lookup k g).
Qed.

Lemma lookup_None_keys {A : Type} (k : string) (m : list (string * A)) :
  lookup k m = None <-> ~ In k (List.map fst m).
Proof.
  induction m as [|[k0 v] m IH]; simpl; [now split|].
  rewrite lookup_cons. destruct (String.eqb k0 k) eqn:E.
  - apply String.eqb_eq in E. split; [discriminate|]. intros H.
    contradiction H. now left.
  - apply String.eqb_neq in E. rewrite IH. tauto.
Qed.

Lemma lookup_NoDup {A : Type} (k : string) (v : A) (m : list (string * A)) :
  NoDup (List.map fst m) -> In (k, v) m -> lookup k m = Some v.
Proof.
  induction m as [|[k0 v0] m IH]; simpl; [contradiction|].
  intros Hnd. apply NoDup_cons_iff in Hnd as [Hnot Hnd].
  rewrite lookup_cons. intros [[= -> ->]|Hin].
  - now rewrite String.eqb_refl.
  - destruct (String.eqb k0 k) eqn:E; [|now apply IH].
    apply String.eqb_eq in E. subst k0. contradiction Hnot.
    apply in_map_iff. now exists (k, v).
Qed.

Lemma group_snoc (l : list ParsedIngredient) (x : ParsedIngredient) :
  groupIngredients (l ++ [x])
  = addToGroup (groupKey x) x (groupIngredients l).
Proof. unfold groupIngredients. now rewrite fold_left_app. Qed.

Lemma filter_snoc (k : string) (l : list ParsedIngredient)
  (x : ParsedIngredient) :
  filter (hasKey k) (l ++ [x])
  = filter (hasKey k) l ++ (if hasKey k x then [x] else []).
Proof. rewrite filter_app. reflexivity. Qed.

Lemma groups_lookup (l : list ParsedIngredient) (k : string) :
  lookup k (groupIngredients l) = nonempty (filter (hasKey k) l).
Proof.
  revert k. induction l as [|x l IH] using rev_ind; intros k; [reflexivity|].
  rewrite group_snoc, lookup_addToGroup, filter_snoc. unfold hasKey at 2.
  destruct (String.eqb (groupKey x) k) eqn:E.
  - apply String.eqb_eq in E. subst k. rewrite IH.
    now destruct (filter (hasKey (groupKey x)) l).
  - rewrite IH, app_nil_r. reflexivity.
Qed.

Lemma groups_NoDup (l : list ParsedIngredient) :
  NoDup (List.map fst (groupIngredients l)).
Proof.
  induction l as [|x l IH] using rev_ind; [constructor|].
  rewrite group_snoc, keys_addToGroup.
  destruct (lookup (groupKey x) (groupIngredients l)) eqn:E; [exact IH|].
  apply lookup_None_keys in E.
  apply NoDup_rev in IH. rewrite <- (rev_involutive (_ ++ _)).
  apply NoDup_rev. rewrite rev_app_distr. simpl.
  constructor; [now rewrite <- in_rev|exact IH].
Qed.

Lemma nonempty_Some (ms ms' : list ParsedIngredient) :
  nonempty ms = Some ms' -> ms' = ms /\ ms <> [].
Proof. destruct ms; [discriminate|]. intros [= <-]. now split. Qed.

Lemma groups_In (l : list ParsedIngredient) (k : string)
  (ms : list ParsedIngredient) :
  In (k, ms) (groupIngredients l) ->
  ms = filter (hasKey k) l /\ ms <> [].
Proof.
  intros H. apply lookup_NoDup in H; [|apply groups_NoDup].
  rewrite groups_lookup in H. apply nonempty_Some in H as [-> H].
  now split.
Qed.

Lemma groups_keys (l : list ParsedIngredient) (k : string) :
  In k (List.map fst (groupIngredients l))
  <-> exists p, In p l /\ groupKey p = k.
Proof.
  split.
  - intros H. apply in_map_iff in H as ([k' ms] & <- & Hin).
    apply groups_In in Hin as [-> Hne]. simpl.
    destruct (filter (hasKey k') l) as [|p ms] eqn:E; [contradiction|].
    assert (Hp : In p (filter (hasKey k') l)) by (rewrite E; now left).
    apply filter_In in Hp as [Hp Hk]. exists p. split; [assumption|].
    now apply String.eqb_eq.
  - intros (p & Hp & <-).
    destruct (lookup (groupKey p) (groupIngredients l)) eqn:E.
    + apply lookup_In in E. apply in_map_iff. now exists (groupKey p, l0).
    + rewrite groups_lookup in E.
      assert (Hin : In p (filter (hasKey (groupKey p)) l)).
      { apply filter_In. split; [assumption|]. apply String.eqb_refl. }
      destruct (filter (hasKey (groupKey p)) l); [contradiction|discriminate].
Qed.


(** ** Entries as a function of their group *)

Lemma aggregateGroup_fields (k : string) (ms : list ParsedIngredient)
  (e : AggregatedIngredient) :
  aggregateGroup k ms = Some e ->
  ms <> []
  /\ ag_lines e = ms
  /\ ag_canonicalName e = nth 0 (Str.split "::" k) ""
  /\ ag_section e = sectionOf (nth 0 (Str.split "::" k) "")
  /\ ag_baseUnit e
     = baseUnitOf (nth 0 (Str.split "::" k) "") (nth 1 (Str.split "::" k) "")
         (List.length (filter hasQuantity ms))
         (List.length (filter (fun ing => negb (hasQuantity ing)) ms)).
Proof.
  unfold aggregateGroup, sectionOf, baseUnitOf. cbv zeta.
  destruct ms as [|first rest]; [discriminate|].
  intros [= <-]. split; [discriminate|].
  destruct (String.eqb (nth 0 (Str.split "::" k) "") "salt and pepper");
    [now repeat split|].
  destruct (Nat.ltb 0 _ && Nat.eqb _ 0); [now repeat split|].
  destruct (Nat.eqb _ 0 && Nat.ltb 0 _); now repeat split.
Qed.

Lemma aggregateGroup_total (k : string) (ms : list ParsedIngredient) :
  ms <> [] -> exists e, aggregateGroup k ms = Some e.
Proof.
  destruct ms as [|first rest]; [contradiction|]. intros _.
  unfold aggregateGroup. cbv zeta. now eexists.
Qed.

Lemma aggregateGroups_all (g : Groups) :
  (forall k ms, In (k, ms) g -> ms <> []) ->
  exists out,
    aggregateGroups g = Some out
    /\ Forall2 (fun km e => aggregateGroup (fst km) (snd km) = Some e) g out.
Proof.
  induction g as [|[k ms] g IH]; intros H.
  - exists []. split; [reflexivity|constructor].
  - destruct (aggregateGroup_total k (H k ms (or_introl eq_refl))) as [e He].
    destruct IH as (out & Hout & F).
    { intros k' ms' Hin. apply (H k' ms'). now right. }
    exists (e :: out). cbn [aggregateGroups]. rewrite He, Hout.
    split; [reflexivity|]. now constructor.
Qed.

Lemma entry_origin (g : Groups) (out : list AggregatedIngredient)
  (e : AggregatedIngredient) :
  Forall2 (fun km e => aggregateGroup (fst km) (snd km) = Some e) g out ->
  In e out ->
  exists k ms, In (k, ms) g /\ aggregateGroup k ms = Some e.
Proof.
  induction 1 as [|[k ms] e0 g out H0 _ IH]; [contradiction|].
  intros [<-|Hin].
  - exists k, ms. split; [now left|exact H0].
  - destruct (IH Hin) as (k' & ms' & Hg & He).
    exists k', ms'. split; [now right|exact He].
Qed.

Lemma entry_key (l : list ParsedIngredient) (k : string)
  (e : AggregatedIngredient) :
  aggregateGroup k (filter (hasKey k) l) = Some e -> entryKey e = k.
Proof.
  intros H. apply aggregateGroup_fields in H as (Hne & Hl & _).
  unfold entryKey. rewrite Hl.
  destruct (filter (hasKey k) l) as [|p ms] eqn:E; [contradiction|].
  assert (Hp : In p (filter (hasKey k) l)) by (rewrite E; now left).
  apply filter_In in Hp as [_ Hp]. now apply String.eqb_eq.
Qed.

Lemma entry_keys (l : list ParsedIngredient)
  (out : list AggregatedIngredient) :
  Forall2 (fun km e => aggregateGroup (fst km) (snd km) = Some e)
          (groupIngredients l) out ->
  List.map entryKey out = List.map fst (groupIngredients l).
Proof.
  intros F.
  assert (H : forall k ms,
             In (k, ms) (groupIngredients l) -> ms = filter (hasKey k) l).
  { intros k ms Hin. now apply groups_In in Hin. }
  induction F as [|[k ms] e g out He _ IH]; [reflexivity|].
  simpl. f_equal.
  - simpl in He. rewrite (H k ms (or_introl eq_refl)) in He.
    now apply entry_key with l.
  - apply IH. intros k' ms' Hin. apply H. now right.
Qed.

Lemma aggregate_spec (l : list ParsedIngredient) :
  exists out,
    aggregateIngredients l = Some out
    /\ List.map entryKey out = List.map fst (groupIngredients l)
    /\ forall e,
        In e out ->
        aggregateGroup (entryKey e) (filter (hasKey (entryKey e)) l) = Some e.
Proof.
  destruct (aggregateGroups_all (groupIngredients l)) as (out & Hout & F).
  { intros k ms Hin. now apply groups_In in Hin. }
  exists out. split; [exact Hout|]. split; [now apply entry_keys|].
  intros e Hin. destruct (@entry_origin _ _ e F Hin) as (k & ms & Hg & He).
  apply groups_In in Hg as [-> _].
  now rewrite (@entry_key l k e He).
Qed.

(** Without the interpretation, the batch returns the records of the lines
    a pattern resolves, and nothing for the other lines. *)
Lemma patterns_only_without_interpreter (lines : list string)
  (answer : AiResponse) :
  neverRaised lines ->
  parseIngredients lines false answer = Some (simpleOf lines).
Proof.
  intros Hn. unfold parseIngredients. rewrite (partition_spec Hn).
  now rewrite andb_false_r.
Qed.

(** ** The grouping key and its two parts *)

Lemma string_of_list_app (a b : list ascii) :
  string_of_list_ascii (a ++ b)
  = (string_of_list_ascii a ++ string_of_list_ascii b)%string.
Proof. induction a as [|x a IH]; simpl; [reflexivity|now rewrite IH]. Qed.

Lemma rev_String (x : ascii) (acc : string) :
  Str.rev (String x acc) = (Str.rev acc ++ String x "")%string.
Proof. unfold Str.rev. simpl. now rewrite string_of_list_app. Qed.

Lemma append_nil_r (a : string) : (a ++ "")%string = a.
Proof. induction a as [|x a IH]; simpl; [reflexivity|now rewrite IH]. Qed.

Lemma no_colon_cons (x : ascii) (b : string) :
  Str.includes (String x b) ":" = false ->
  Ascii.eqb ":" x = false /\ Str.includes b ":" = false.
Proof.
  change (Str.includes (String x b) ":")
    with ((Ascii.eqb ":" x && true) || Str.includes b ":").
  destruct (Ascii.eqb ":" x); simpl; [discriminate|]. now split.
Qed.

Lemma split_go_plain (b : string) :
  forall acc,
    Str.includes b ":" = false ->
    Str.split_go "::" 0 acc b = [(Str.rev acc ++ b)%string].
Proof.
  induction b as [|x b IH]; intros acc H.
  - simpl. now rewrite append_nil_r.
  - apply no_colon_cons in H as [Hx Hb].
    change (Str.split_go "::" 0 acc (String x b))
      with (if Ascii.eqb ":" x && Str.startsWith ":" b
            then Str.rev acc :: Str.split_go "::" 1 "" b
            else Str.split_go "::" 0 (String x acc) b).
    rewrite Hx. cbn [andb].
    rewrite (IH _ Hb), rev_String, append_assoc. reflexivity.
Qed.

Lemma split_go_key (c b : string) :
  forall acc,
    Str.includes c ":" = false ->
    Str.includes b ":" = false ->
    Str.split_go "::" 0 acc (c ++ "::" ++ b)
    = [(Str.rev acc ++ c)%string; b].
Proof.
  induction c as [|x c IH]; intros acc Hc Hb.
  - change (Str.split_go "::" 0 acc ("" ++ "::" ++ b))
      with (Str.rev acc :: Str.split_go "::" 0 "" b).
    rewrite append_nil_r. f_equal. now rewrite split_go_plain.
  - apply no_colon_cons in Hc as [Hx Hc].
    change (Str.split_go "::" 0 acc (String x c ++ "::" ++ b))
      with (if Ascii.eqb ":" x && Str.startsWith ":" (c ++ "::" ++ b)
            then Str.rev acc :: Str.split_go "::" 1 "" (c ++ "::" ++ b)
            else Str.split_go "::" 0 (String x acc) (c ++ "::" ++ b)).
    rewrite Hx. cbn [andb].
    rewrite (IH _ Hc Hb), rev_String, append_assoc. reflexivity.
Qed.

Lemma split_key (c b : string) :
  Str.includes c ":" = false ->
  Str.includes b ":" = false ->
  Str.split "::" (c ++ "::" ++ b) = [c; b].
Proof. intros Hc Hb. unfold Str.split. now rewrite split_go_key. Qed.

(** Two records of one ingredient, 32 and 16 tablespoons, make one entry of
    48 tablespoons. *)
Lemma two_cups_and_one_cup (a b : ParsedIngredient) (c : string) :
  pi_canonicalName a = Text c -> pi_canonicalName b = Text c ->
  Str.truthy c = true -> Str.includes c ":" = false ->
  c <> "salt and pepper" ->
  pi_baseUnit a = val BTbsp -> pi_baseUnit b = val BTbsp ->
  pi_quantityInBaseUnits a = val (Num.of_Z 32) ->
  pi_quantityInBaseUnits b = val (Num.of_Z 16) ->
  exists entry,
    aggregateIngredients [a; b] = Some [entry]
    /\ ag_totalQuantity entry = val (Num.of_Z 48)
    /\ ag_baseUnit entry = "tbsp"
    /\ ag_lines entry = [a; b].
Proof.
  intros Ha Hb Ht Hc Hs Hua Hub Hqa Hqb.
  assert (Ka : groupKey a = (c ++ "::" ++ "tbsp")%string).
  { unfold groupKey. rewrite Ha, Hua. cbn [truthy_name textOf].
    now rewrite Ht. }
  assert (Kb : groupKey b = (c ++ "::" ++ "tbsp")%string).
  { unfold groupKey. rewrite Hb, Hub. cbn [truthy_name textOf].
    now rewrite Ht. }
  unfold aggregateIngredients.
  rewrite (@group_uniform (c ++ "::" ++ "tbsp")%string a [b])
    by (repeat constructor; assumption).
  cbn [aggregateGroups]. unfold aggregateGroup.
  rewrite split_key by (assumption || reflexivity).
  cbv zeta. cbn [nth].
  apply String.eqb_neq in Hs. rewrite Hs.
  assert (Fa : hasQuantity a = true) by (unfold hasQuantity; now rewrite Hqa).
  assert (Fb : hasQuantity b = true) by (unfold hasQuantity; now rewrite Hqb).
  cbn [filter]. rewrite Fa, Fb. cbn [negb filter List.length Nat.ltb Nat.leb
    Nat.eqb andb fold_left].
  unfold addQuantity. rewrite Hqa, Hqb.
  eexists. split; [reflexivity|]. cbn [ag_totalQuantity ag_baseUnit ag_lines].
  split; [vm_compute; reflexivity|]. now split.
Qed.

(* ------------------------------------------------------------------ *)
(** * The claims *)

(** C1. For every record the parser produces with a unit token of the Unit
    Table and a numeric quantity other than zero and NaN, the quantity in base
    units is the quantity times the factor of the unit (16 for cups, 1
    otherwise); and a line resolved by a pattern yields the same record
    whatever the external interpreter answers. *)
Theorem recognized_unit_conversion :
  (forall p u q e,
      Produced p ->
      pi_unit p = val u ->
      pi_quantity p = val q ->
      Num.truthy q = true ->
      lookup (Str.trim (Str.toLowerCase u)) UNIT_MAP = Some e ->
      exists r, pi_quantityInBaseUnits p = val r
                /\ same r (Num.mul q (spec_factor e)))
  /\ (forall line p useAI answer,
        parseIngredientRegex line = Resolved p ->
        parseIngredient line useAI answer = Some p).
Proof.
  split.
  - intros p u q e Hp Hu Hq Ht He.
    destruct (produced_normalized Hp) as [_ Hr].
    rewrite Hr, Hu, Hq. now apply normalizeUnit_recognized.
  - intros line p useAI answer H. unfold parseIngredient. now rewrite H.
Qed.

Lemma recognized_unit_conversion_witness :
  exists p,
    parseIngredient "2 cups broccoli florets" true CallFailed = Some p
    /\ (exists r,
          pi_quantityInBaseUnits p = val r
          /\ same r (Num.mul (Num.of_Z 2) (spec_factor (mkUnit BCup one))))
    /\ parseIngredient "2 cups broccoli florets" false (Reply (JsonArray []))
       = Some p.
Proof.
  eexists. split; [vm_compute; reflexivity|]. split.
  - apply (proj1 recognized_unit_conversion _
             "cups" (Num.of_Z 2) (mkUnit BCup one)).
    + left. exists "2 cups broccoli florets", true, CallFailed.
      vm_compute. reflexivity.
    + vm_compute. reflexivity.
    + vm_compute. reflexivity.
    + vm_compute. reflexivity.
    + vm_compute. reflexivity.
  - apply (proj2 recognized_unit_conversion). vm_compute. reflexivity.
Defined.

(** C1, as stated, fails on a quantity of zero: "0 cups milk" has the unit
    token "cups" and the quantity 0, and no quantity in base units. *)
Lemma zero_quantity_not_converted :
  exists p,
    parseIngredient "0 cups milk" true CallFailed = Some p
    /\ ~ converted p.
Proof.
  eexists. split; [vm_compute; reflexivity|].
  intros H.
  destruct (H "cups" (Num.of_Z 0) (mkUnit BCup one)) as (r & Hr & _);
    try (vm_compute; reflexivity).
  vm_compute in Hr. discriminate Hr.
Qed.

(** C2. Parsing and then aggregating any list, not empty, of the lines
    "Salt and pepper to taste", "salt to taste" and "pepper to taste" yields
    exactly one entry; it is named "Salt and black pepper", has no total
    quantity, is filed under "Spices", and holds every line. *)
Theorem salt_and_pepper_single_entry (lines : list string) (useAI : bool)
  (answer : AiResponse) :
  lines <> [] ->
  Forall (fun line => In line saltLines) lines ->
  exists parsed entry,
    parseIngredients lines useAI answer = Some parsed
    /\ aggregateIngredients parsed = Some [entry]
    /\ ag_name entry = "Salt and black pepper"
    /\ ag_totalQuantity entry = undefined
    /\ ag_section entry = "Spices"
    /\ List.length (ag_lines entry) = List.length lines.
Proof.
  intros Hne Hall.
  destruct (@partition_simple
              (fun p => groupKey p = "salt and pepper::none") lines)
    as (sr & Hpart & Hlen & Hkeys).
  { rewrite Forall_forall in *. intros line Hin.
    now apply salt_line_parsed, Hall. }
  exists sr.
  destruct sr as [|first rest]; [destruct lines; [easy|discriminate]|].
  eexists. split.
  { unfold parseIngredients. now rewrite Hpart. }
  unfold aggregateIngredients. rewrite (group_uniform Hkeys).
  cbn [aggregateGroups]. rewrite aggregateGroup_salt.
  split; [reflexivity|]. cbn [ag_name ag_totalQuantity ag_section ag_lines].
  now repeat split.
Qed.

Lemma salt_and_pepper_single_entry_witness :
  exists parsed entry,
    parseIngredients ["salt to taste"; "Salt and pepper to taste"] true
      CallFailed = Some parsed
    /\ aggregateIngredients parsed = Some [entry]
    /\ ag_name entry = "Salt and black pepper"
    /\ ag_totalQuantity entry = undefined
    /\ ag_section entry = "Spices"
    /\ List.length (ag_lines entry) = 2.
Proof.
  apply (@salt_and_pepper_single_entry
           ["salt to taste"; "Salt and pepper to taste"] true CallFailed).
  - discriminate.
  - apply Forall_cons; [right; left; reflexivity|].
    apply Forall_cons; [left; reflexivity|]. apply Forall_nil.
Defined.

(** C3. The code on a list that holds a line whose name is the plural of a
    key of [Object.prototype]: the pattern tier raises a TypeError, outside
    every [try], and the batch returns no record at all, for the lines
    "2 eggs" and "2 constructors" as for every such list, whatever the
    interpreter answers; with the ordinary plural "2 doctors" in its place
    the same call returns the two records.  And with the interpretation
    switched off the batch drops the line "olive oil", for which the
    single-line path builds the fallback record. *)
Theorem batch_rejected_on_inherited_key :
  (forall lines line useAI answer,
      In line lines ->
      parseIngredientRegex line = Raised ->
      parseIngredients lines useAI answer = None)
  /\ normalizeCanonicalName "constructors" = None
  /\ parseIngredientRegex "2 constructors" = Raised
  /\ (forall useAI answer,
        parseIngredients ["2 eggs"; "2 constructors"] useAI answer = None)
  /\ (forall useAI answer,
        exists a b,
          parseIngredients ["2 eggs"; "2 doctors"] useAI answer = Some [a; b])
  /\ ~ no_line_dropped ["2 eggs"; "olive oil"] false CallFailed
  /\ (exists p, parseIngredient "olive oil" false CallFailed = Some p).
Proof.
  split; [|split; [|split; [|split; [|split; [|split]]]]].
  - intros lines line useAI answer Hin Hr. unfold parseIngredients.
    rewrite partition_raised; [reflexivity|].
    apply Exists_exists. now exists line.
  - vm_compute. reflexivity.
  - vm_compute. reflexivity.
  - intros useAI answer. reflexivity.
  - intros useAI answer. eexists. eexists. vm_compute. reflexivity.
  - intros (out & H & Hlen). vm_compute in H. injection H as <-.
    discriminate Hlen.
  - eexists. vm_compute. reflexivity.
Qed.

(** C4. The code at a failing call: every name is filed under "Other" and no
    override is consulted, although the override table files "Bell pepper"
    under "Produce", as the single-ingredient path does on the same failure. *)
Theorem classifier_failure_skips_overrides :
  (forall names useAI ingredients,
      categorizeIngredients names useAI ingredients ClassifierFailed
      = setAll "Other" names)
  /\ categorizeIngredients ["Bell pepper"; "Garlic"; "Flour"] true []
       ClassifierFailed
     = [("Bell pepper", "Other"); ("Garlic", "Other"); ("Flour", "Other")]
  /\ postProcessSection "Bell pepper" "Other" undefined = "Produce"
  /\ postProcessSection "Garlic" "Other" undefined = "Produce"
  /\ categorizeIngredient "Bell pepper" true undefined undefined
       ClassifierFailed = "Produce".
Proof.
  split; [|repeat split; vm_compute; reflexivity].
  intros names useAI ingredients. unfold categorizeIngredients.
  now destruct (negb useAI || Nat.eqb (List.length names) 0).
Qed.

(** C5. The code at a failing call on an ingredient whose display name and
    canonical name both contain "bell pepper": the section is "Other"; on an
    answer of the classifier, even one that says "Spices", it is "Produce". *)
Theorem bell_pepper_lost_on_failure :
  categorizeIngredients ["Red Bell Pepper"] true
    [mkRef "Red Bell Pepper" (val "bell pepper") (val "red bell pepper")]
    ClassifierFailed
  = [("Red Bell Pepper", "Other")]
  /\ categorizeIngredients ["Red Bell Pepper"] true
       [mkRef "Red Bell Pepper" (val "bell pepper") (val "red bell pepper")]
       (Categories [("bell pepper", "Spices")])
     = [("Red Bell Pepper", "Produce")]
  /\ categorizeIngredients ["Red Bell Pepper"] false
       [mkRef "Red Bell Pepper" (val "bell pepper") (val "red bell pepper")]
       (Categories [("bell pepper", "Spices")])
     = [("Red Bell Pepper", "Other")].
Proof.
  repeat split; vm_compute; reflexivity.
Qed.

(** C6. For every record the parser produces: if the base unit is none then
    the quantity in base units is undefined, unless the unit token is a blank
    string (not empty, all white space), which no pattern tier and no fallback
    produces; and if a numeric quantity is present but no unit token is, the
    base unit is unit and the quantity in base units is the quantity. *)
Theorem unit_fields_invariant (p : ParsedIngredient) :
  Produced p ->
  (pi_baseUnit p = val BNone ->
   blankUnit (pi_unit p) = false ->
   pi_quantityInBaseUnits p = undefined)
  /\ (forall q,
        pi_quantity p = val q ->
        truthy_string (pi_unit p) = false ->
        pi_baseUnit p = val BUnit /\ pi_quantityInBaseUnits p = val q)
  /\ (ResolvedLocally p -> unit_invariant p).
Proof.
  intros Hp. destruct (produced_normalized Hp) as [Hb Hr].
  assert (H1 : pi_baseUnit p = val BNone ->
               blankUnit (pi_unit p) = false ->
               pi_quantityInBaseUnits p = undefined).
  { intros Hn Hblank. rewrite Hb in Hn.
    rewrite Hr. now apply normalizeUnit_none. }
  assert (H2 : forall q,
             pi_quantity p = val q ->
             truthy_string (pi_unit p) = false ->
             pi_baseUnit p = val BUnit /\ pi_quantityInBaseUnits p = val q).
  { intros q Hq Hu. rewrite Hb, Hr, Hq, (normalizeUnit_count _ q Hu).
    now split. }
  split; [exact H1|]. split; [exact H2|].
  intros Hl. split; [|exact H2].
  intros Hn. apply H1; [assumption|]. now apply resolved_locally_plain.
Qed.

Lemma unit_fields_invariant_witness :
  exists salt eggs,
    parseIngredient "salt to taste" true CallFailed = Some salt
    /\ parseIngredient "3 eggs" true CallFailed = Some eggs
    /\ pi_quantityInBaseUnits salt = undefined
    /\ (pi_baseUnit eggs = val BUnit
        /\ pi_quantityInBaseUnits eggs = val (Num.of_Z 3))
    /\ unit_invariant eggs.
Proof.
  destruct (parseIngredient "salt to taste" true CallFailed) as [salt|] eqn:E1;
    [|vm_compute in E1; discriminate E1].
  destruct (parseIngredient "3 eggs" true CallFailed) as [eggs|] eqn:E2;
    [|vm_compute in E2; discriminate E2].
  exists salt, eggs. split; [reflexivity|]. split; [reflexivity|].
  assert (P1 : Produced salt)
    by (left; exists "salt to taste", true, CallFailed; exact E1).
  assert (P2 : Produced eggs)
    by (left; exists "3 eggs", true, CallFailed; exact E2).
  vm_compute in E1. injection E1 as E1.
  vm_compute in E2. injection E2 as E2.
  split; [|split].
  - apply (proj1 (unit_fields_invariant P1));
      rewrite <- E1; vm_compute; reflexivity.
  - apply (proj1 (proj2 (unit_fields_invariant P2)) (Num.of_Z 3));
      rewrite <- E2; vm_compute; reflexivity.
  - apply (proj2 (proj2 (unit_fields_invariant P2))).
    left. exists "3 eggs". rewrite <- E2. vm_compute. reflexivity.
Defined.

(** C6, as stated, fails on a record of the external interpreter whose unit
    is a blank string: the base unit is none and the quantity in base units is
    the quantity. *)
Lemma blank_unit_keeps_quantity :
  exists p,
    parseIngredient "a splash of milk" true
      (Reply (JsonValue (Object
         (mkItem (val "milk") (val (Num.of_Z 2)) (val " ")
                 undefined undefined undefined)))) = Some p
    /\ ~ unit_invariant p.
Proof.
  eexists. split; [vm_compute; reflexivity|].
  intros [H _]. vm_compute in H. discriminate H. reflexivity.
Qed.

(** C7. For every total of at least 16 tablespoons, [formatQuantity] shows
    the whole cups, floor(total / 16), under "cup" or "cups", and drops the
    remaining tablespoons (17 tablespoons are 1 cup); "2 cups" and "1 cup" of
    one ingredient, that is two records of 32 and 16 tablespoons under one
    canonical name that is not empty, holds no colon and is not
    "salt and pepper", aggregate to a total of 48 tablespoons, which
    [formatQuantity] renders as 3 cups. *)
Theorem tablespoons_shown_as_whole_cups :
  (forall total name,
      Num.ge total sixteen = true ->
      formatQuantity (val total) "tbsp" name
      = (val (Num.floor (Num.div total sixteen)),
         val (cupOrCups (Num.floor (Num.div total sixteen)))))
  /\ (forall n : Z,
        Num.floor (Num.div (Num.of_Z n) sixteen) = Num.of_Z (n / 16))
  /\ (forall name,
        formatQuantity (val (Num.of_Z 17)) "tbsp" name
        = (val (Num.of_Z 1), val "cup"))
  /\ (forall useAI answer,
        exists parsed entry,
          parseIngredients
            ["2 cups broccoli florets"; "1 cup broccoli florets"] useAI answer
          = Some parsed
          /\ aggregateIngredients parsed = Some [entry]
          /\ ag_totalQuantity entry = val (Num.of_Z 48)
          /\ ag_baseUnit entry = "tbsp"
          /\ List.length (ag_lines entry) = 2)
  /\ (forall a b c,
        pi_canonicalName a = Text c -> pi_canonicalName b = Text c ->
        Str.truthy c = true -> Str.includes c ":" = false ->
        c <> "salt and pepper" ->
        pi_baseUnit a = val BTbsp -> pi_baseUnit b = val BTbsp ->
        pi_quantityInBaseUnits a = val (Num.of_Z 32) ->
        pi_quantityInBaseUnits b = val (Num.of_Z 16) ->
        exists entry,
          aggregateIngredients [a; b] = Some [entry]
          /\ ag_totalQuantity entry = val (Num.of_Z 48)
          /\ ag_baseUnit entry = "tbsp"
          /\ ag_lines entry = [a; b])
  /\ (forall name,
        formatQuantity (val (Num.of_Z 48)) "tbsp" name
        = (val (Num.of_Z 3), val "cups")).
Proof.
  split; [|split; [|split; [|split; [|split]]]].
  - intros total name H. unfold formatQuantity.
    change (String.eqb "tbsp" "none") with false.
    change (String.eqb "tbsp" "tbsp") with true.
    simpl is_undefined. simpl toNumber. cbv beta iota zeta.
    rewrite H. simpl.
    now destruct (Num.eqb (Num.rem total sixteen) Num.zero).
  - exact floor_div_sixteen.
  - intros name. vm_compute. reflexivity.
  - intros useAI answer. eexists. eexists.
    split; [vm_compute; reflexivity|].
    split; [vm_compute; reflexivity|]. now repeat split.
  - exact two_cups_and_one_cup.
  - intros name. vm_compute. reflexivity.
Qed.

Lemma tablespoons_shown_as_whole_cups_witness :
  formatQuantity (val (Num.of_Z 33)) "tbsp" "Broccoli Florets"
  = (val (Num.floor (Num.div (Num.of_Z 33) sixteen)),
     val (cupOrCups (Num.floor (Num.div (Num.of_Z 33) sixteen))))
  /\ exists a b entry,
      parseIngredient "2 cups broccoli florets" true CallFailed = Some a
      /\ parseIngredient "1 cup broccoli florets" true CallFailed = Some b
      /\ aggregateIngredients [a; b] = Some [entry]
      /\ ag_totalQuantity entry = val (Num.of_Z 48)
      /\ ag_baseUnit entry = "tbsp"
      /\ ag_lines entry = [a; b].
Proof.
  split.
  - apply (proj1 tablespoons_shown_as_whole_cups). vm_compute. reflexivity.
  - destruct (parseIngredient "2 cups broccoli florets" true CallFailed)
      as [a|] eqn:Ea; [|vm_compute in Ea; discriminate Ea].
    destruct (parseIngredient "1 cup broccoli florets" true CallFailed)
      as [b|] eqn:Eb; [|vm_compute in Eb; discriminate Eb].
    vm_compute in Ea. injection Ea as Ea.
    vm_compute in Eb. injection Eb as Eb.
    destruct (proj1 (proj2 (proj2 (proj2 (proj2
                tablespoons_shown_as_whole_cups))))
                a b "broccoli florets") as (entry & H);
      try (rewrite <- ?Ea, <- ?Eb; vm_compute; reflexivity).
    + vm_compute. discriminate.
    + exists a, b, entry. split; [reflexivity|]. split; [reflexivity|exact H].
Defined.

(** C7, as stated, fails under the canonical name "salt and pepper": the
    records of "2 cups salt and pepper" and "1 cup salt and pepper", 32 and
    16 tablespoons under that one name, aggregate to an entry that has no
    total and no base unit. *)
Lemma salt_and_pepper_cups_not_totalled :
  exists a b entry,
    parseIngredient "2 cups salt and pepper" true CallFailed = Some a
    /\ parseIngredient "1 cup salt and pepper" true CallFailed = Some b
    /\ pi_canonicalName a = Text "salt and pepper"
    /\ pi_canonicalName b = Text "salt and pepper"
    /\ pi_baseUnit a = val BTbsp
    /\ pi_baseUnit b = val BTbsp
    /\ pi_quantityInBaseUnits a = val (Num.of_Z 32)
    /\ pi_quantityInBaseUnits b = val (Num.of_Z 16)
    /\ aggregateIngredients [a; b] = Some [entry]
    /\ ag_totalQuantity entry = undefined
    /\ ag_baseUnit entry = "none".
Proof.
  do 3 eexists.
  split; [vm_compute; reflexivity|]. split; [vm_compute; reflexivity|].
  repeat (split; [vm_compute; reflexivity|]). reflexivity.
Qed.

(** C8. Every name whose lower-cased, trimmed form starts with
    salt (and|&) pepper, starts with "salt to taste", or is "pepper to taste",
    is mapped to the key "salt and pepper"; so are "salt and pepper",
    "salt & pepper", "salt to taste" and "pepper to taste". *)
Theorem salt_and_pepper_collapse :
  (forall baseName,
      let n := Str.trim (Str.toLowerCase baseName) in
      test saltAndPepper n || test saltToTaste n || test pepperToTaste n = true ->
      normalizeCanonicalName baseName = Some (Text "salt and pepper"))
  /\ Forall (fun v => normalizeCanonicalName v = Some (Text "salt and pepper"))
       [ "salt and pepper"; "salt & pepper"; "Salt and pepper to taste";
         "salt to taste"; "pepper to taste" ].
Proof.
  split; [|repeat constructor; vm_compute; reflexivity].
  intros baseName n H. rewrite normalizeCanonicalName_steps. fold n.
  assert (Htrim : Str.trim n = n) by apply trim_idempotent.
  clearbody n.
  destruct (salt_name_not_inherited _ H) as [Hkey Hsingular].
  assert (Hsyn : match synonym n with
                 | Member _ => None
                 | Text normalized =>
                     Some (saltSpecialCases (synonym (Str.trim normalized)))
                 end = Some (Text "salt and pepper")).
  { unfold synonym at 1.
    destruct (property n NAME_NORMALIZATION_MAP) as [v|key|] eqn:L.
    - apply property_Own in L. clear Htrim Hkey Hsingular.
      by_name_table L;
        vm_compute in H; try discriminate H; vm_compute; reflexivity.
    - apply property_Inherited in L as [_ L]. contradiction.
    - rewrite Htrim. unfold synonym. rewrite L. f_equal.
      now apply special_cases. }
  unfold singularOrSynonym.
  destruct (Str.endsWith n "s" && negb (Str.endsWith n "ss")
            && negb (Str.endsWith n "us")) eqn:Ep.
  - apply andb_prop in Ep as [Ep _]. apply andb_prop in Ep as [Ep _].
    specialize (Hsingular Ep). apply endsWith_s in Ep.
    destruct (property (Str.dropLast n) NAME_NORMALIZATION_MAP)
      as [v|key|] eqn:L1; [| |exact Hsyn].
    + apply property_Own in L1. clear Hsyn Htrim Hkey Hsingular.
      by_name_table L1; rewrite <- Hk in Ep; subst n;
        vm_compute in H; try discriminate H; vm_compute; reflexivity.
    + apply property_Inherited in L1 as [_ L1]. contradiction.
  - rewrite Htrim.
    destruct (property n NAME_NORMALIZATION_MAP) as [v|key|] eqn:L;
      unfold synonym in Hsyn |- *; rewrite L in Hsyn |- *.
    + apply property_Own in L. clear Hsyn Htrim Hkey Hsingular Ep.
      by_name_table L;
        vm_compute in H; try discriminate H; vm_compute; reflexivity.
    + apply property_Inherited in L as [_ L]. contradiction.
    + f_equal. now apply special_cases.
Qed.

Lemma salt_and_pepper_collapse_witness :
  normalizeCanonicalName "  Salt &  Pepper, freshly ground"
  = Some (Text "salt and pepper").
Proof.
  apply (proj1 salt_and_pepper_collapse). vm_compute. reflexivity.
Defined.

(** C8, as stated, fails on the reversed word order: "pepper and salt" is
    left as it is. *)
Lemma pepper_and_salt_not_collapsed :
  normalizeCanonicalName "pepper and salt" = Some (Text "pepper and salt")
  /\ normalizeCanonicalName "pepper and salt"
     <> Some (Text "salt and pepper").
Proof.
  split; vm_compute; [reflexivity|discriminate].
Qed.




(** C10. For every record the parser produces whose quantity is not null and
    whose unit token is not blank, the quantity in base units is a number if
    and only if the base unit is not none; the records resolved by a pattern
    tier or by the fallback all satisfy the two provisos. *)
Theorem quantity_defined_iff_unit (p : ParsedIngredient) :
  Produced p ->
  (pi_quantity p <> null ->
   blankUnit (pi_unit p) = false ->
   quantity_iff_unit p)
  /\ (ResolvedLocally p -> quantity_iff_unit p).
Proof.
  intros Hp. destruct (produced_normalized Hp) as [Hb Hr].
  assert (H : pi_quantity p <> null ->
              blankUnit (pi_unit p) = false -> quantity_iff_unit p).
  { intros Hq Hblank. unfold quantity_iff_unit. rewrite Hb, Hr.
    now apply normalizeUnit_iff. }
  split; [exact H|].
  intros Hl. destruct (resolved_locally_plain Hl). now apply H.
Qed.

Lemma quantity_defined_iff_unit_witness :
  exists salt oil,
    parseIngredient "1 tsp salt" true CallFailed = Some salt
    /\ parseIngredient "olive oil" true CallFailed = Some oil
    /\ quantity_iff_unit salt
    /\ quantity_iff_unit oil.
Proof.
  destruct (parseIngredient "1 tsp salt" true CallFailed) as [salt|] eqn:E1;
    [|vm_compute in E1; discriminate E1].
  destruct (parseIngredient "olive oil" true CallFailed) as [oil|] eqn:E2;
    [|vm_compute in E2; discriminate E2].
  exists salt, oil. split; [reflexivity|]. split; [reflexivity|].
  assert (P1 : Produced salt)
    by (left; exists "1 tsp salt", true, CallFailed; exact E1).
  assert (P2 : Produced oil)
    by (left; exists "olive oil", true, CallFailed; exact E2).
  vm_compute in E1. injection E1 as E1.
  vm_compute in E2. injection E2 as E2.
  split.
  - apply (proj1 (quantity_defined_iff_unit P1)); rewrite <- E1.
    + vm_compute. discriminate.
    + vm_compute. reflexivity.
  - apply (proj2 (quantity_defined_iff_unit P2)).
    right. exists "olive oil". rewrite <- E2. vm_compute. reflexivity.
Defined.

(** C10, as stated, fails on a record of the external interpreter whose
    quantity is null and whose unit is missing: the base unit is unit and the
    quantity in base units is null. *)
Lemma null_quantity_counts_as_unit :
  exists p,
    parseIngredient "a pinch of salt" true
      (Reply (JsonValue (Object
         (mkItem (val "salt") null null undefined undefined undefined))))
    = Some p
    /\ ~ quantity_iff_unit p.
Proof.
  eexists. split; [vm_compute; reflexivity|].
  intros [_ H]. destruct H as [n Hn]; [|vm_compute in Hn; discriminate Hn].
  vm_compute. discriminate.
Qed.

(* ------------------------------------------------------------------ *)
(** * Further properties of the code

    The lemmas of this part take all their arguments explicitly. *)

Unset Implicit Arguments.

(** ** Strings *)

Lemma lower_idempotent (s : string) :
  Str.toLowerCase (Str.toLowerCase s) = Str.toLowerCase s.
Proof.
  unfold Str.toLowerCase. induction s as [|c s IH]; simpl; [reflexivity|].
  f_equal; [|exact IH]. destruct c as [[] [] [] [] [] [] [] []]; reflexivity.
Qed.

Lemma trim_lower_again (s : string) :
  Str.trim (Str.toLowerCase (Str.trim (Str.toLowerCase s)))
  = Str.trim (Str.toLowerCase s).
Proof.
  rewrite (trim_lower s), lower_idempotent, <- trim_lower.
  apply trim_idempotent.
Qed.

Lemma map_append (f : ascii -> ascii) (a b : string) :
  Str.map f (a ++ b) = (Str.map f a ++ Str.map f b)%string.
Proof. induction a as [|c a IH]; simpl; [reflexivity|now rewrite IH]. Qed.

Lemma lower_upper (c : ascii) : Str.lower (Str.upper c) = Str.lower c.
Proof. destruct c as [[] [] [] [] [] [] [] []]; reflexivity. Qed.

Lemma every_append (P : ascii -> bool) (a b : string) :
  every P (a ++ b) = every P a && every P b.
Proof.
  induction a as [|c a IH]; simpl; [reflexivity|].
  now rewrite IH, andb_assoc.
Qed.

Lemma every_take (P : ascii -> bool) (s : string) :
  every P s = true -> forall n, every P (Str.take n s) = true.
Proof.
  induction s as [|c s IH]; intros H [|n]; try reflexivity.
  simpl in *. apply andb_true_iff in H as [-> H]. now apply IH.
Qed.

Lemma every_drop (P : ascii -> bool) (s : string) :
  every P s = true -> forall n, every P (Str.drop n s) = true.
Proof.
  induction s as [|c s IH]; intros H [|n]; try reflexivity; [exact H|].
  simpl in *. apply andb_true_iff in H as [_ H]. now apply IH.
Qed.

Lemma every_trimStart (P : ascii -> bool) (s : string) :
  every P s = true -> every P (Str.trimStart s) = true.
Proof.
  induction s as [|c s IH]; intros H; [reflexivity|].
  simpl. destruct (Str.is_space c); [|exact H].
  simpl in H. apply andb_true_iff in H as [_ H]. now apply IH.
Qed.

Lemma every_trimEnd (P : ascii -> bool) (s : string) :
  every P s = true -> every P (Str.trimEnd s) = true.
Proof.
  induction s as [|c s IH]; intros H; [reflexivity|].
  simpl in *. apply andb_true_iff in H as [Hc H].
  destruct (Str.is_space c && Str.is_empty (Str.trimEnd s)); [reflexivity|].
  simpl. now rewrite Hc, IH.
Qed.

Lemma every_trim (P : ascii -> bool) (s : string) :
  every P s = true -> every P (Str.trim s) = true.
Proof. intros H. now apply every_trimEnd, every_trimStart. Qed.

Lemma every_remove (P : ascii -> bool) (r : regex) (s : string) :
  every P s = true -> every P (remove r s) = true.
Proof.
  intros H. unfold remove. destruct (exec r s); [|exact H].
  now rewrite every_append, every_take, every_drop.
Qed.

Lemma every_replaceFrom (P : ascii -> bool) (r : regex) (by_ whole : string) :
  every P by_ = true ->
  forall fuel pos s,
    every P s = true -> every P (replaceFrom fuel r by_ whole pos s) = true.
Proof.
  intros Hb. induction fuel as [|fuel IH]; intros pos s H; [exact H|].
  cbn [replaceFrom]. destruct (search r whole pos s) as [m|]; [|exact H].
  cbv zeta.
  pose proof (every_take P s H (m_start m - pos)) as Hk.
  pose proof (every_drop P s H (m_end m - pos)) as Hr.
  destruct (Nat.eqb (m_end m) (m_start m)).
  - destruct (Str.drop (m_end m - pos) s) as [|c rest'].
    + now rewrite every_append, Hk, Hb.
    + simpl in Hr. apply andb_true_iff in Hr as [Hc Hr].
      rewrite !every_append, Hk, Hb. simpl. rewrite Hc. now apply IH.
  - rewrite !every_append, Hk, Hb. now apply IH.
Qed.

Lemma every_replaceAll (P : ascii -> bool) (r : regex) (by_ s : string) :
  every P by_ = true -> every P s = true ->
  every P (replaceAll r by_ s) = true.
Proof. intros Hb H. unfold replaceAll. now apply every_replaceFrom. Qed.

Lemma every_cutAtComma (s : string) : every notComma (cutAtComma s) = true.
Proof.
  induction s as [|c s IH]; [reflexivity|].
  cbn [cutAtComma].
  destruct (Ascii.eqb c ",") eqn:E; [reflexivity|].
  cbn [every]. unfold notComma at 1. now rewrite E, IH.
Qed.

Lemma notComma_lower (c : ascii) : notComma (Str.lower c) = notComma c.
Proof. destruct c as [[] [] [] [] [] [] [] []]; reflexivity. Qed.

Lemma every_lower (s : string) :
  every notComma (Str.toLowerCase s) = every notComma s.
Proof.
  unfold Str.toLowerCase. induction s as [|c s IH]; simpl; [reflexivity|].
  now rewrite notComma_lower, IH.
Qed.

Lemma no_comma (s : string) :
  every notComma s = true -> Str.includes s "," = false.
Proof.
  induction s as [|c s IH]; intros H; [reflexivity|].
  simpl in H. apply andb_true_iff in H as [Hc H].
  change (Str.includes (String c s) ",")
    with (Ascii.eqb "," c && true || Str.includes s ",").
  rewrite (IH H), andb_true_r, orb_false_r.
  unfold notComma in Hc. rewrite Ascii.eqb_sym.
  now destruct (Ascii.eqb c ",").
Qed.

Lemma every_of_no_comma (s : string) :
  Str.includes s "," = false -> every notComma s = true.
Proof.
  induction s as [|c s IH]; [reflexivity|].
  change (Str.includes (String c s) ",")
    with (Ascii.eqb "," c && true || Str.includes s ",").
  rewrite andb_true_r. intros H. apply orb_false_iff in H as [Hc H].
  cbn [every]. rewrite (IH H), andb_true_r.
  unfold notComma. rewrite Ascii.eqb_sym. now rewrite Hc.
Qed.

Lemma append_same_length (a b u v : string) :
  String.length u = String.length v ->
  (a ++ u)%string = (b ++ v)%string -> a = b /\ u = v.
Proof.
  intros Hl H.
  assert (Hab : String.length a = String.length b).
  { apply (f_equal String.length) in H. rewrite !length_append in H. lia. }
  clear Hl. revert b H Hab.
  induction a as [|x a IH]; intros [|y b] H Hab; try discriminate.
  - now split.
  - simpl in H. injection H as -> H. injection Hab as Hab.
    destruct (IH b H Hab) as [-> ->]. now split.
Qed.

Lemma split_go_nonempty (sep : string) (s : string) :
  forall skip acc, Str.split_go sep skip acc s <> [].
Proof.
  induction s as [|c s IH]; intros skip acc; simpl; [discriminate|].
  destruct skip; [|apply IH].
  destruct (Str.startsWith sep (String c s)); [discriminate|apply IH].
Qed.

Lemma join_cons (sep p : string) (rest : list string) :
  rest <> [] -> Str.join sep (p :: rest) = (p ++ sep ++ Str.join sep rest)%string.
Proof. destruct rest; [contradiction|reflexivity]. Qed.

Lemma join_split_space (s : string) :
  forall acc,
    Str.join " " (Str.split_go " " 0 acc s) = (Str.rev acc ++ s)%string.
Proof.
  induction s as [|c s IH]; intros acc.
  - simpl. now rewrite append_nil_r.
  - cbn [Str.split_go Str.startsWith String.length Nat.sub].
    destruct (Ascii.eqb " " c) eqn:E; cbn [andb].
    + apply Ascii.eqb_eq in E. subst c.
      rewrite join_cons by apply split_go_nonempty.
      now rewrite IH.
    + rewrite IH, rev_String, append_assoc. reflexivity.
Qed.

(** ** parser.ts: normalizeCanonicalName *)

Arguments singularOrSynonym normalized : simpl never.
Arguments saltSpecialCases normalized : simpl never.
Arguments synonym normalized : simpl never.

Ltac among_values :=
  vm_compute; repeat (first [left; reflexivity | right]).

Lemma inherited_key_not_plural (key : string) :
  In key prototypeKeys -> Str.endsWith key "s" = false.
Proof.
  intros H. simpl in H.
  repeat (destruct H as [<-|H]; [reflexivity|]). contradiction.
Qed.

Lemma synonym_cases (n : string) :
  (synonym n = Text n /\ property n NAME_NORMALIZATION_MAP = Absent)
  \/ (exists k v, lookup k NAME_NORMALIZATION_MAP = Some v
                  /\ synonym n = Text v)
  \/ (synonym n = Member n /\ In n prototypeKeys).
Proof.
  unfold synonym.
  destruct (property n NAME_NORMALIZATION_MAP) as [v|key|] eqn:L.
  - right. left. exists n, v. split; [now apply property_Own|reflexivity].
  - right. right. apply property_Inherited in L as [-> L]. now split.
  - left. now split.
Qed.

Lemma singular_cases (n : string) :
  singularOrSynonym n = Text n
  \/ (exists k v, lookup k NAME_NORMALIZATION_MAP = Some v
                  /\ singularOrSynonym n = Text v)
  \/ (exists key, singularOrSynonym n = Member key
                  /\ In (Str.dropLast n) prototypeKeys).
Proof.
  unfold singularOrSynonym.
  destruct (Str.endsWith n "s" && negb (Str.endsWith n "ss")
            && negb (Str.endsWith n "us")) eqn:Ep; [|now left].
  apply andb_prop in Ep as [Ep _]. apply andb_prop in Ep as [Ep _].
  destruct (property (Str.dropLast n) NAME_NORMALIZATION_MAP)
    as [v|key|] eqn:L1.
  - right. left. exists (Str.dropLast n), v.
    split; [now apply property_Own|reflexivity].
  - right. right. exists key. split; [reflexivity|].
    now apply property_Inherited in L1.
  - destruct (synonym_cases n) as [[-> _]|[(k & v & Hk & ->)|[_ Hin]]].
    + now left.
    + right. left. now exists k, v.
    + apply inherited_key_not_plural in Hin. rewrite Hin in Ep.
      discriminate Ep.
Qed.

Lemma salt_cases (normalized : CanonicalName) :
  saltSpecialCases normalized = Text "salt and pepper"
  \/ saltSpecialCases normalized = normalized.
Proof.
  unfold saltSpecialCases. cbv zeta.
  destruct (test saltAndPepper (textOf normalized)
            || test saltToTaste (textOf normalized)); [now left|].
  destruct (test pepperToTaste (textOf normalized)); [now left|now right].
Qed.

Lemma salt_cases_inherited (key : string) :
  In key prototypeKeys -> saltSpecialCases (Member key) = Member key.
Proof.
  intros H. simpl in H.
  repeat (destruct H as [<-|H]; [vm_compute; reflexivity|]). contradiction.
Qed.

Lemma value_closed (k v : string) :
  lookup k NAME_NORMALIZATION_MAP = Some v ->
  (exists w, saltSpecialCases (synonym (Str.trim v)) = Text w
             /\ In w (List.map snd NAME_NORMALIZATION_MAP))
  /\ (exists w, saltSpecialCases (Text v) = Text w
                /\ In w (List.map snd NAME_NORMALIZATION_MAP)).
Proof.
  intros L. by_name_table L; split; eexists;
    (split; [vm_compute; reflexivity|among_values]).
Qed.

Lemma plain_fixed (n : string) :
  Str.trim (Str.toLowerCase n) = n ->
  singularOrSynonym n = Text n ->
  synonym n = Text n ->
  saltSpecialCases (Text n) = Text n ->
  normalizeCanonicalName n = Some (Text n).
Proof.
  intros H1 H2 H3 H4.
  assert (T : Str.trim n = n).
  { rewrite <- H1 at 1. rewrite trim_idempotent. exact H1. }
  rewrite normalizeCanonicalName_steps, H1, H2, T, H3, H4. reflexivity.
Qed.

(** What [normalizeCanonicalName] makes of a base name, [n] being the base
    name in lower case and trimmed: a TypeError, the member of
    [Object.prototype] under [n], a value of the table, or [n] itself, which
    it then leaves as it is. *)
Lemma canonical_cases (baseName : string) :
  let n := Str.trim (Str.toLowerCase baseName) in
  (normalizeCanonicalName baseName = None
   /\ Str.endsWith n "s" = true /\ In (Str.dropLast n) prototypeKeys)
  \/ (normalizeCanonicalName baseName = Some (Member n)
      /\ In n prototypeKeys)
  \/ (exists v, normalizeCanonicalName baseName = Some (Text v)
                /\ In v (List.map snd NAME_NORMALIZATION_MAP))
  \/ (normalizeCanonicalName baseName = Some (Text n)
      /\ normalizeCanonicalName n = Some (Text n)).
Proof.
  intros n. rewrite (normalizeCanonicalName_steps baseName). fold n.
  assert (T0 : Str.trim n = n) by apply trim_idempotent.
  assert (T1 : Str.trim (Str.toLowerCase n) = n) by apply trim_lower_again.
  destruct (singular_cases n) as [Hs|[(k & v & Hk & Hs)|(key & Hs & Hin)]];
    rewrite Hs.
  - rewrite T0.
    destruct (synonym_cases n) as [[Hy _]|[(k & v & Hk & Hy)|[Hy Hin]]];
      rewrite Hy.
    + destruct (salt_cases (Text n)) as [Hp|Hp]; rewrite Hp.
      * right. right. left. exists "salt and pepper".
        split; [reflexivity|among_values].
      * right. right. right. split; [reflexivity|]. now apply plain_fixed.
    + right. right. left.
      destruct (proj2 (value_closed k v Hk)) as (w & -> & Hw). now exists w.
    + right. left. rewrite (salt_cases_inherited n Hin). now split.
  - right. right. left.
    destruct (proj1 (value_closed k v Hk)) as (w & -> & Hw). now exists w.
  - left. split; [reflexivity|]. split; [|exact Hin].
    destruct (Str.endsWith n "s") eqn:E; [reflexivity|].
    unfold singularOrSynonym in Hs. rewrite E in Hs. discriminate Hs.
Qed.

Lemma values_canonical :
  Forall (fun v => normalizeCanonicalName v = Some (Text v)
                   /\ Str.toLowerCase v = v /\ Str.trim v = v)
         (List.map snd NAME_NORMALIZATION_MAP).
Proof. repeat constructor. Qed.

(** X1. [normalizeCanonicalName] is idempotent on its string results: a
    canonical name that is a string is its own canonical name. *)
Theorem canonical_name_idempotent (baseName canonicalName : string) :
  normalizeCanonicalName baseName = Some (Text canonicalName) ->
  normalizeCanonicalName canonicalName = Some (Text canonicalName).
Proof.
  intros H.
  destruct (canonical_cases baseName)
    as [[E _]|[[E _]|[(v & E & Hv)|[E F]]]]; rewrite E in H;
    try discriminate H; injection H as <-.
  - pose proof values_canonical as V. rewrite Forall_forall in V.
    now apply V.
  - exact F.
Qed.

Lemma canonical_name_idempotent_witness :
  normalizeCanonicalName "garlic" = Some (Text "garlic").
Proof.
  apply (canonical_name_idempotent "Garlic Cloves" "garlic").
  vm_compute. reflexivity.
Defined.

(** X2. Whatever the base name, [normalizeCanonicalName] either returns a
    string in lower case that carries no white space at either end; or
    returns the member of [Object.prototype] whose key is the base name in
    lower case, trimmed; or raises a TypeError, which it does on the plural
    in "s" of a key of [Object.prototype] only. *)
Theorem canonical_name_normal_form (baseName : string) :
  match normalizeCanonicalName baseName with
  | Some (Text canonicalName) =>
      Str.toLowerCase canonicalName = canonicalName
      /\ Str.trim canonicalName = canonicalName
  | Some (Member key) =>
      key = Str.trim (Str.toLowerCase baseName) /\ In key prototypeKeys
  | None =>
      Str.endsWith (Str.trim (Str.toLowerCase baseName)) "s" = true
      /\ In (Str.dropLast (Str.trim (Str.toLowerCase baseName)))
           prototypeKeys
  end.
Proof.
  destruct (canonical_cases baseName)
    as [(E & H)|[[E H]|[(v & E & Hv)|[E _]]]]; rewrite E.
  - exact H.
  - now split.
  - pose proof values_canonical as V. rewrite Forall_forall in V.
    now apply V.
  - split; [|apply trim_idempotent].
    now rewrite <- (trim_lower (Str.toLowerCase baseName)), lower_idempotent.
Qed.

(** ** parser.ts: extractBaseNameAndPrep *)

Lemma groups_ok_trivial (r : regex) : groups_ok (fun _ _ => True) r.
Proof.
  induction r; simpl; auto.
Qed.

Lemma search_word (r : regex) (whole : string) :
  forall s pos m,
    search r whole pos s = Some m ->
    exists pre w post, s = (pre ++ w ++ post)%string /\ matches r w.
Proof.
  induction s as [|c s IH]; intros pos m; simpl.
  - destruct (run _ _ _ _ _ _) as [y|] eqn:E; [|discriminate].
    intros _.
    apply (run_sound (P:=fun _ _ => True)) in E
      as (w & s' & cs' & Hs & Hw & _);
      [|apply groups_ok_trivial|now intros n v].
    now exists "", w, s'.
  - destruct (run _ _ _ _ _ _) as [y|] eqn:E.
    + intros _.
      apply (run_sound (P:=fun _ _ => True)) in E
        as (w & s' & cs' & Hs & Hw & _);
        [|apply groups_ok_trivial|now intros n v].
      now exists "", w, s'.
    + intros H. apply IH in H as (pre & w & post & -> & Hw).
      now exists (String c pre), w, post.
Qed.

Lemma comma_only (x : ascii) : chr_eq "," x = true -> x = ","%char.
Proof.
  destruct x as [[] [] [] [] [] [] [] []]; intros H;
    first [reflexivity | discriminate H].
Qed.

Lemma prepPattern_comma (w : string) :
  matches prepPattern w -> exists w', w = String "," w'.
Proof.
  unfold prepPattern. cbn [seq ch lit]. intros H.
  inversion H as [| | |r1 r2 w1 w2 H1 H2| | | | | | | |]; subst.
  inversion H1 as [| | |r1 r2 w3 w4 H3 H4| | | | | | | |]; subst.
  inversion H3 as [|c x E| | | | | | | | | |]; subst.
  apply comma_only in E. subst x. simpl. now eexists.
Qed.

Lemma no_prep_without_comma (s : string) :
  every notComma s = true -> exec prepPattern s = None.
Proof.
  intros H. unfold exec.
  destruct (search prepPattern s 0 s) as [m|] eqn:E; [|reflexivity].
  apply search_word in E as (pre & w & post & Hs & Hw).
  apply prepPattern_comma in Hw as [w' ->].
  rewrite Hs, !every_append in H. cbn [every] in H.
  change (notComma ",") with false in H.
  rewrite andb_false_l, andb_false_r in H. discriminate H.
Qed.

(** X3. A name without a comma has no preparation note: the note is only
    read after a comma. *)
Theorem prep_note_needs_a_comma (name : string) :
  Str.includes name "," = false ->
  snd (extractBaseNameAndPrep name) = undefined.
Proof.
  intros H. apply every_of_no_comma in H.
  unfold extractBaseNameAndPrep. cbv zeta.
  rewrite no_prep_without_comma; [reflexivity|].
  now apply every_remove, every_trim.
Qed.

Lemma prep_note_needs_a_comma_witness :
  snd (extractBaseNameAndPrep "garlic minced") = undefined.
Proof.
  apply (prep_note_needs_a_comma "garlic minced"). reflexivity.
Defined.

(** ** parser.ts: the pattern tiers *)

(** X4. The pattern tiers see a line through [trim]: white space around a
    line changes neither whether a pattern resolves it nor the record. *)
Theorem patterns_ignore_surrounding_space (line : string) :
  parseIngredientRegex (Str.trim line) = parseIngredientRegex line.
Proof.
  unfold parseIngredientRegex. cbv zeta. now rewrite trim_idempotent.
Qed.

Lemma or_string_twice (t : string) :
  or_string (val t) (or_string (val t) "") = t.
Proof. now destruct t. Qed.

Lemma enrich_names (p r : ParsedIngredient) :
  enrichParsedIngredient p = Some r ->
  pi_name r = pi_name p
  /\ pi_baseName r = fst (extractBaseNameAndPrep (pi_name p))
  /\ normalizeCanonicalName (fst (extractBaseNameAndPrep (pi_name p)))
     = Some (pi_canonicalName r)
  /\ pi_raw r
     = val (or_string (pi_originalText p) (or_string (pi_raw p) "")).
Proof.
  unfold enrichParsedIngredient.
  destruct (extractBaseNameAndPrep (pi_name p)). cbn [fst].
  destruct (normalizeCanonicalName _); [|discriminate].
  destruct (normalizeUnit (pi_unit p) (pi_quantity p)).
  intros [= <-]. now repeat split.
Qed.

Lemma enrich_raises (p : ParsedIngredient) :
  enrichParsedIngredient p = None ->
  normalizeCanonicalName (fst (extractBaseNameAndPrep (pi_name p))) = None.
Proof.
  unfold enrichParsedIngredient.
  destruct (extractBaseNameAndPrep (pi_name p)). cbn [fst].
  destruct (normalizeCanonicalName _); [|reflexivity].
  now destruct (normalizeUnit (pi_unit p) (pi_quantity p)).
Qed.

(** The matcher finds a literal, an alternative and a later start. *)
Lemma run_lit (R : Type) (whole p : string) :
  Str.toLowerCase p = p ->
  forall s pos cs (k : cont R),
    Str.startsWith p (Str.toLowerCase s) = true ->
    run whole (lit p) pos s cs k
    = k (pos + String.length p) (Str.drop (String.length p) s) cs.
Proof.
  induction p as [|c p IH]; intros Hp s pos cs k H.
  - cbn [lit run String.length Str.drop]. now rewrite Nat.add_0_r.
  - injection Hp as Hc Hp'.
    destruct s as [|x s]; [discriminate H|].
    cbn [Str.toLowerCase Str.map Str.startsWith] in H.
    apply andb_prop in H as [Hx Hs].
    cbn [lit run]. unfold chr_eq. rewrite Hc, Hx.
    rewrite (IH Hp' s (S pos) cs k Hs).
    cbn [String.length Str.drop]. now rewrite Nat.add_succ_r.
Qed.

Lemma run_words (R : Type) (whole : string) (ws : list string) (p : string) :
  In p ws ->
  (forall w, In w ws -> Str.toLowerCase w = w) ->
  forall s pos cs (k : cont R),
    Str.startsWith p (Str.toLowerCase s) = true ->
    (forall pos' s' cs', k pos' s' cs' <> None) ->
    run whole (words ws) pos s cs k <> None.
Proof.
  induction ws as [|w ws IH]; intros Hin Hl s pos cs k Hs Hk;
    [contradiction|].
  destruct ws as [|w' ws].
  - destruct Hin as [->|[]]. unfold words. cbn [List.map oneOf].
    rewrite (run_lit R whole p (Hl p (or_introl eq_refl)) s pos cs k Hs).
    apply Hk.
  - change (words (w :: w' :: ws)) with (Alt (lit w) (words (w' :: ws))).
    cbn [run]. unfold orElse.
    destruct (run whole (lit w) pos s cs k) eqn:E; [discriminate|].
    destruct Hin as [->|Hin].
    + rewrite (run_lit R whole p (Hl p (or_introl eq_refl)) s pos cs k Hs)
        in E.
      now apply Hk in E.
    + apply IH; try assumption. intros x Hx. apply Hl. now right.
Qed.

Lemma search_finds (r : regex) (whole : string) :
  forall pre pos suf,
    (forall k : cont found,
        (forall pos' s' cs', k pos' s' cs' <> None) ->
        run whole r (pos + String.length pre) suf [] k <> None) ->
    search r whole pos (pre ++ suf) <> None.
Proof.
  induction pre as [|c pre IH]; intros pos suf H.
  - cbn [String.length append] in *. rewrite Nat.add_0_r in H.
    specialize (H (fun pos' _ cs => Some (Found pos pos' cs))).
    destruct suf as [|x suf]; cbn [search];
      destruct (run whole r pos _ [] _); try discriminate;
      now contradiction H.
  - cbn [append search].
    destruct (run whole r pos _ [] _); [discriminate|].
    apply IH. intros k Hk. cbn [String.length] in H.
    rewrite Nat.add_succ_r in H. now apply H.
Qed.

Lemma includes_lower_split (p : string) :
  forall s,
    Str.includes (Str.toLowerCase s) p = true ->
    exists pre suf,
      s = (pre ++ suf)%string
      /\ Str.startsWith p (Str.toLowerCase suf) = true.
Proof.
  induction s as [|c s IH]; intros H.
  - exists "", "". split; [reflexivity|].
    change (Str.includes (Str.toLowerCase "") p)
      with (Str.startsWith p "" || false) in H.
    rewrite orb_false_r in H. exact H.
  - change (Str.includes (Str.toLowerCase (String c s)) p)
      with (Str.startsWith p (Str.toLowerCase (String c s))
            || Str.includes (Str.toLowerCase s) p) in H.
    apply orb_prop in H as [H|H].
    + exists "", (String c s). now split.
    + destruct (IH H) as (pre & suf & -> & Hs).
      exists (String c pre), suf. now split.
Qed.

(** The first tier takes every line that holds one of its four phrases,
    in whatever case. *)
Lemma test_phrase (trimmed phrase : string) :
  In phrase ["to taste"; "as needed"; "optional"; "for garnish"] ->
  Str.includes (Str.toLowerCase trimmed) phrase = true ->
  test noQuantityPhrase trimmed = true.
Proof.
  intros Hin H.
  destruct (includes_lower_split phrase trimmed H) as (pre & suf & -> & Hs).
  unfold test, exec.
  destruct (search noQuantityPhrase (pre ++ suf) 0 (pre ++ suf)) eqn:E;
    [reflexivity|].
  exfalso. revert E. apply search_finds. intros k Hk.
  apply (run_words found (pre ++ suf)
           ["to taste"; "as needed"; "optional"; "for garnish"] phrase Hin);
    try assumption.
  intros w Hw. simpl in Hw.
  repeat (destruct Hw as [<-|Hw]; [reflexivity|]). contradiction.
Qed.

(** X5. A line that holds "to taste", "as needed", "optional" or
    "for garnish", in whatever case, goes to the first tier even when it
    starts with a number.  The tier returns a record that has the whole
    line, in lower case, as its name, no quantity, no unit token and the
    base unit none; or it raises, when [normalizeCanonicalName] raises on
    the base name of the line. *)
Theorem phrase_line_has_no_quantity (line phrase : string) :
  In phrase ["to taste"; "as needed"; "optional"; "for garnish"] ->
  Str.includes (Str.toLowerCase (Str.trim line)) phrase = true ->
  match parseIngredientRegex line with
  | Resolved p =>
      pi_name p = Str.toLowerCase (Str.trim line)
      /\ pi_raw p = val (Str.trim line)
      /\ pi_quantity p = undefined
      /\ pi_unit p = undefined
      /\ pi_baseUnit p = val BNone
      /\ pi_quantityInBaseUnits p = undefined
  | Raised =>
      normalizeCanonicalName
        (fst (extractBaseNameAndPrep (Str.toLowerCase (Str.trim line))))
      = None
  | NoPattern => False
  end.
Proof.
  intros Hin H. unfold parseIngredientRegex. cbv zeta.
  rewrite (test_phrase (Str.trim line) phrase Hin H).
  set (d := draft _ _ _ _).
  destruct (enrichParsedIngredient d) as [p|] eqn:E; cbn [returned].
  - destruct (enrich_fields d E) as (-> & -> & -> & ->).
    destruct (enrich_names d p E) as (-> & _ & _ & ->).
    unfold d. cbn [draft pi_name pi_raw pi_originalText pi_unit pi_quantity].
    rewrite or_string_twice. now repeat split.
  - apply enrich_raises in E. exact E.
Qed.

Lemma phrase_line_has_no_quantity_witness :
  match parseIngredientRegex "2 tbsp parsley For Garnish" with
  | Resolved p =>
      pi_name p = Str.toLowerCase (Str.trim "2 tbsp parsley For Garnish")
      /\ pi_raw p = val (Str.trim "2 tbsp parsley For Garnish")
      /\ pi_quantity p = undefined
      /\ pi_unit p = undefined
      /\ pi_baseUnit p = val BNone
      /\ pi_quantityInBaseUnits p = undefined
  | Raised =>
      normalizeCanonicalName
        (fst (extractBaseNameAndPrep
                (Str.toLowerCase (Str.trim "2 tbsp parsley For Garnish"))))
      = None
  | NoPattern => False
  end.
Proof.
  apply (phrase_line_has_no_quantity "2 tbsp parsley For Garnish"
           "for garnish").
  - right. right. right. left. reflexivity.
  - vm_compute. reflexivity.
Defined.

Lemma read_digits_nonneg (s : string) :
  forall acc n,
    (0 <= acc)%Z -> (0 <= fst (fst (read_digits acc n s)))%Z.
Proof.
  induction s as [|c s IH]; intros acc n H; cbn [read_digits];
    [exact H|].
  destruct (Str.is_digit c); [|exact H].
  apply IH. lia.
Qed.

Lemma inject_nonneg (i : Z) : (0 <= i)%Z -> (0 <= inject_Z i)%Q.
Proof. intros H. unfold Qle. simpl. lia. Qed.

Lemma decimal_range (whole : bool) (s : string) :
  decimal whole s = NaN
  \/ exists x, decimal whole s = Fin x /\ (0 <= x)%Q.
Proof.
  unfold decimal.
  pose proof (read_digits_nonneg s 0%Z 0 (Z.le_refl 0)) as Hi.
  destruct (read_digits 0 0 s) as [[i n] rest]. simpl in Hi.
  destruct (Nat.eqb n 0); [now left|].
  assert (Hz : exists x, Num.of_Z i = Fin x /\ (0 <= x)%Q).
  { eexists. split; [reflexivity|now apply inject_nonneg]. }
  destruct rest as [|c rest']; [now right|].
  destruct (Ascii.eqb c "."); [|destruct whole; [now left|now right]].
  pose proof (read_digits_nonneg rest' 0%Z 0 (Z.le_refl 0)) as Hf.
  destruct (read_digits 0 0 rest') as [[f m] rest'']. simpl in Hf.
  destruct (whole && negb (Str.is_empty rest'')); [now left|].
  destruct (Nat.eqb m 0); [now right|].
  right. eexists. split; [reflexivity|].
  rewrite Qred_correct.
  apply Qle_trans with (inject_Z i + 0)%Q.
  - rewrite Qplus_0_r. now apply inject_nonneg.
  - apply Qplus_le_r. unfold Qle. simpl. lia.
Qed.

Lemma sign_nonneg (x : Q) : (0 <= x)%Q -> Num.sign x <> Lt.
Proof.
  intros H E. unfold Num.sign in E. rewrite Z.compare_lt_iff in E.
  unfold Qle in H. simpl in H. lia.
Qed.

Lemma sign_pos (x : Q) : (0 <= x)%Q -> Num.sign x <> Eq -> (0 < x)%Q.
Proof.
  intros H E. unfold Num.sign in E. unfold Qle in H. unfold Qlt.
  simpl in *. rewrite Z.compare_eq_iff in E. lia.
Qed.

Lemma div_range (a b : number) :
  (a = NaN \/ exists x, a = Fin x /\ (0 <= x)%Q) ->
  (b = NaN \/ exists y, b = Fin y /\ (0 <= y)%Q) ->
  Num.div a b = NaN \/ nonNegative (Num.div a b).
Proof.
  intros [->|(x & -> & Hx)] Hb; [now left|].
  destruct Hb as [->|(y & -> & Hy)]; [now left|].
  unfold Num.div.
  destruct (Num.sign y) eqn:Sy.
  - pose proof (sign_nonneg x Hx) as Sx.
    destruct (Num.sign x); [now left|contradiction|now right].
  - now destruct (sign_nonneg y Hy).
  - right. cbn [nonNegative]. rewrite Qred_correct.
    assert (Py : (0 < y)%Q) by (apply sign_pos; [exact Hy|now rewrite Sy]).
    apply Qle_shift_div_l; [exact Py|]. now rewrite Qmult_0_l.
Qed.

Lemma readQuantity_range (quantityStr : string) :
  readQuantity quantityStr = NaN \/ nonNegative (readQuantity quantityStr).
Proof.
  unfold readQuantity. destruct (Str.includes quantityStr "/").
  - destruct (Str.split "/" quantityStr) as [|num [|den rest]];
      [now left|now left|].
    cbn [List.map]. apply div_range; apply decimal_range.
  - unfold parseFloat.
    destruct (decimal_range false quantityStr) as [->|(x & -> & Hx)];
      [now left|now right].
Qed.

Lemma defined_quantity_range (quantityStr : string) :
  match definedUnlessNaN (readQuantity quantityStr) with
  | val q => nonNegative q
  | undefined => True
  | null => False
  end.
Proof.
  unfold definedUnlessNaN.
  destruct (readQuantity_range quantityStr) as [->|H]; [exact I|].
  destruct (readQuantity quantityStr); simpl; try exact I; try exact H.
Qed.

(** X6. The quantity of a record resolved by a pattern is missing, or a
    number that is not negative (possibly +Infinity, as for "1/0"); it is
    never NaN, never [null] and never negative. *)
Theorem pattern_quantity_not_negative (line : string) (p : ParsedIngredient) :
  parseIngredientRegex line = Resolved p ->
  match pi_quantity p with
  | val q => nonNegative q
  | undefined => True
  | null => False
  end.
Proof.
  unfold parseIngredientRegex. cbv zeta.
  destruct (test noQuantityPhrase _).
  { intros H. apply returned_Resolved in H.
    destruct (enrich_fields _ H) as (_ & -> & _). exact I. }
  destruct (exec simplePattern _) as [m|].
  { intros H. apply returned_Resolved in H.
    destruct (enrich_fields _ H) as (_ & -> & _).
    apply defined_quantity_range. }
  destruct (exec noUnitPattern _) as [m|]; [|discriminate].
  intros H. apply returned_Resolved in H.
  destruct (enrich_fields _ H) as (_ & -> & _).
  apply defined_quantity_range.
Qed.

Lemma pattern_quantity_not_negative_witness :
  exists p,
    parseIngredientRegex "1/2 cup milk" = Resolved p
    /\ match pi_quantity p with
       | val q => nonNegative q
       | undefined => True
       | null => False
       end.
Proof.
  destruct (parseIngredientRegex "1/2 cup milk") as [|p|] eqn:E;
    [vm_compute in E; discriminate E| |vm_compute in E; discriminate E].
  exists p. split; [reflexivity|].
  exact (pattern_quantity_not_negative "1/2 cup milk" p E).
Defined.

(** X7. A line of white space only is resolved by no pattern; without the
    interpreter it gets a fallback record with empty names and no quantity,
    whose grouping key is "::none". *)
Theorem blank_line_falls_back (line : string) (answer : AiResponse) :
  Str.trim line = "" ->
  parseIngredientRegex line = NoPattern
  /\ exists p,
      parseIngredient line false answer = Some p
      /\ pi_name p = ""
      /\ pi_baseName p = ""
      /\ pi_canonicalName p = Text ""
      /\ pi_quantity p = undefined
      /\ groupKey p = "::none".
Proof.
  intros H.
  assert (R : parseIngredientRegex line = NoPattern).
  { unfold parseIngredientRegex. cbv zeta. rewrite H. vm_compute. reflexivity. }
  split; [exact R|].
  unfold parseIngredient. rewrite R.
  destruct (enrichParsedIngredient (fallbackRecord line)) as [p|] eqn:E.
  - exists p. split; [reflexivity|].
    destruct (enrich_fields _ E) as (_ & Hq & Hb & _).
    destruct (enrich_names _ p E) as (Hn & Hbn & Hc & _).
    cbn [fallbackRecord pi_name pi_unit pi_quantity] in Hq, Hb, Hn, Hbn, Hc.
    rewrite H in Hn, Hbn, Hc.
    change (fst (extractBaseNameAndPrep "")) with "" in Hbn, Hc.
    change (normalizeCanonicalName "") with (Some (Text "")) in Hc.
    injection Hc as Hc.
    change (fst (normalizeUnit undefined undefined)) with (@val BaseUnit BNone)
      in Hb.
    repeat split; try assumption; try (now symmetry).
    unfold groupKey. now rewrite <- Hc, Hbn, Hn, Hb.
  - exfalso. apply enrich_raises in E.
    cbn [fallbackRecord pi_name] in E. rewrite H in E.
    change (fst (extractBaseNameAndPrep "")) with "" in E.
    change (normalizeCanonicalName "") with (Some (Text "")) in E.
    discriminate E.
Qed.

Lemma blank_line_falls_back_witness :
  parseIngredientRegex "   " = NoPattern
  /\ exists p,
      parseIngredient "   " false CallFailed = Some p
      /\ pi_name p = ""
      /\ pi_baseName p = ""
      /\ pi_canonicalName p = Text ""
      /\ pi_quantity p = undefined
      /\ groupKey p = "::none".
Proof.
  apply (blank_line_falls_back "   " CallFailed). reflexivity.
Defined.

Lemma normalizeUnit_never_cup (unit : nullable string)
  (quantity : nullable number) :
  fst (normalizeUnit unit quantity) <> val BCup.
Proof.
  unfold normalizeUnit.
  destruct (negb (truthy_string unit) && negb (is_undefined quantity));
    [discriminate|].
  destruct unit as [| |u]; try discriminate.
  destruct quantity as [| |q]; try discriminate.
  destruct (negb (Str.truthy u) || negb (Num.truthy q)); [discriminate|].
  destruct (property _ UNIT_MAP) as [e| |]; try discriminate.
  destruct (u_baseUnit e); discriminate.
Qed.

(** X8. No record the parser produces has the base unit "cup": cups are
    converted into tablespoons. *)
Theorem no_record_in_cups (p : ParsedIngredient) :
  Produced p -> pi_baseUnit p <> val BCup.
Proof.
  intros H. destruct (produced_normalized H) as [Hb _].
  rewrite Hb. apply normalizeUnit_never_cup.
Qed.

Lemma no_record_in_cups_witness :
  exists p,
    parseIngredient "2 cups milk" true CallFailed = Some p
    /\ pi_baseUnit p <> val BCup.
Proof.
  destruct (parseIngredient "2 cups milk" true CallFailed) as [p|] eqn:E;
    [|vm_compute in E; discriminate E].
  exists p. split; [reflexivity|].
  apply (no_record_in_cups p).
  left. now exists "2 cups milk", true, CallFailed.
Defined.

(** ** parser.ts: the batch *)

(** X9. When the batch call fails, [parseIngredients] returns, line by
    line and in the order of the lines, what [parseIngredient] returns
    without the interpreter, and raises when [parseIngredient] raises on one
    of the lines. *)
Theorem failed_batch_is_line_by_line (lines : list string) :
  parseIngredients lines true CallFailed
  = promiseAll
      (List.map (fun line => parseIngredient line false CallFailed) lines).
Proof.
  rewrite parseIngredients_expected.
  change (usable (complexOf lines) CallFailed) with (@nil ParsedIngredient).
  apply expected_on_failure.
Qed.

Lemma enrichAiResults_malformed (complexLines : list string)
  (aiResults : list AiElement) :
  forallb wellFormed aiResults = false ->
  forall index, enrichAiResults complexLines index aiResults = None.
Proof.
  induction aiResults as [|[|item] rest IH]; intros H index;
    [discriminate|reflexivity|].
  cbn [enrichAiResults]. cbn [forallb] in H.
  destruct (wellFormed (Object item)) eqn:W.
  - rewrite (IH H). now destruct (enrichAiItem _).
  - unfold enrichAiItem, fillTexts. cbn [ai_name].
    unfold wellFormed in W. now destruct (ai_name item).
Qed.

(** X10. One element of the answer that is not an object with a string name
    discards the whole answer: the batch returns what it returns when the
    call fails. *)
Theorem malformed_answer_counts_as_failure (lines : list string)
  (json : AiJson) :
  forallb wellFormed (answerElements json) = false ->
  parseIngredients lines true (Reply json)
  = parseIngredients lines true CallFailed.
Proof.
  intros H. unfold parseIngredients.
  destruct (partitionLines lines)
    as [[[simpleLines complexLines] simpleResults]|]; [|reflexivity].
  destruct (Nat.ltb 0 (List.length complexLines) && true); [|reflexivity].
  unfold tryBatch, batchAnswer. now rewrite enrichAiResults_malformed.
Qed.

Lemma malformed_answer_counts_as_failure_witness :
  parseIngredients ["olive oil"; "a little nutmeg"] true
    (Reply (JsonArray
              [ Object (mkItem (val "olive oil") undefined undefined undefined
                          undefined undefined);
                NotAnObject ]))
  = parseIngredients ["olive oil"; "a little nutmeg"] true CallFailed.
Proof.
  apply malformed_answer_counts_as_failure. reflexivity.
Defined.

(** ** aggregator.ts: grouping *)

Lemma groupKey_parts (p : ParsedIngredient) :
  groupKey p = (keyName p ++ "::" ++ keyUnit p)%string.
Proof. reflexivity. Qed.

Lemma keyUnit_cases (p : ParsedIngredient) :
  keyUnit p = "tsp" \/ keyUnit p = "tbsp" \/ keyUnit p = "cup"
  \/ keyUnit p = "unit" \/ keyUnit p = "none".
Proof.
  unfold keyUnit. destruct (pi_baseUnit p) as [| |[]]; simpl; tauto.
Qed.

Lemma key_suffix (a b u v : string) :
  (u = "tsp" \/ u = "tbsp" \/ u = "cup" \/ u = "unit" \/ u = "none") ->
  (v = "tsp" \/ v = "tbsp" \/ v = "cup" \/ v = "unit" \/ v = "none") ->
  (a ++ "::" ++ u)%string = (b ++ "::" ++ v)%string -> a = b /\ u = v.
Proof.
  intros Hu Hv H.
  assert (L : String.length u = String.length v
              \/ (String.length u = 3 /\ String.length v = 4)
              \/ (String.length u = 4 /\ String.length v = 3)).
  { destruct Hu as [->|[->|[->|[->| ->]]]],
             Hv as [->|[->|[->|[->| ->]]]]; simpl; tauto. }
  destruct L as [L|[[L3 L4]|[L4 L3]]].
  - apply append_same_length in H as [-> H]; [|simpl; now rewrite L].
    split; [reflexivity|]. now injection H.
  - exfalso.
    change (a ++ "::" ++ u)%string with (a ++ ":" ++ (":" ++ u))%string in H.
    rewrite <- append_assoc in H. rewrite <- (append_assoc b "::" v) in H.
    apply append_same_length in H as [_ H]; [|simpl; lia].
    destruct Hu as [->|[->|[->|[->| ->]]]],
             Hv as [->|[->|[->|[->| ->]]]]; discriminate.
  - exfalso.
    change (b ++ "::" ++ v)%string with (b ++ ":" ++ (":" ++ v))%string in H.
    rewrite <- (append_assoc b ":") in H. rewrite <- (append_assoc a "::" u) in H.
    apply append_same_length in H as [_ H]; [|simpl; lia].
    destruct Hu as [->|[->|[->|[->| ->]]]],
             Hv as [->|[->|[->|[->| ->]]]]; discriminate.
Qed.

(** X11. Two records have the same grouping key exactly when they have the
    same canonical name and the same base unit: joining the two with "::"
    loses nothing. *)
Theorem group_key_injective (p q : ParsedIngredient) :
  groupKey p = groupKey q <-> keyName p = keyName q /\ keyUnit p = keyUnit q.
Proof.
  rewrite !groupKey_parts. split.
  - apply key_suffix; apply keyUnit_cases.
  - now intros [-> ->].
Qed.

Lemma concat_addToGroup (k : string) (x : ParsedIngredient) (g : Groups) :
  Permutation (List.concat (List.map snd (addToGroup k x g)))
              (x :: List.concat (List.map snd g)).
Proof.
  induction g as [|[k0 ms] g IH]; simpl; [reflexivity|].
  destruct (String.eqb k0 k); simpl.
  - rewrite <- app_assoc. simpl. apply Permutation_sym, Permutation_middle.
  - rewrite IH. apply Permutation_sym, Permutation_middle.
Qed.

Lemma groups_concat (l : list ParsedIngredient) :
  Permutation (List.concat (List.map snd (groupIngredients l))) l.
Proof.
  induction l as [|x l IH] using rev_ind; [reflexivity|].
  rewrite group_snoc, concat_addToGroup, IH. apply Permutation_cons_append.
Qed.

Lemma entries_lines (g : Groups) (out : list AggregatedIngredient) :
  Forall2 (fun km e => aggregateGroup (fst km) (snd km) = Some e) g out ->
  List.map ag_lines out = List.map snd g.
Proof.
  induction 1 as [|[k ms] e g out H _ IH]; [reflexivity|].
  simpl. f_equal; [|exact IH].
  now apply aggregateGroup_fields in H as (_ & H & _).
Qed.

(** X12. The aggregation never fails, and every record of the input is a
    line of exactly one entry: the lines of the entries, taken together, are
    a permutation of the input; no entry is without a line, and there are
    at most as many entries as records. *)
Theorem aggregation_keeps_every_record (parsed : list ParsedIngredient) :
  exists out,
    aggregateIngredients parsed = Some out
    /\ Permutation (List.concat (List.map ag_lines out)) parsed
    /\ Forall (fun e => ag_lines e <> []) out
    /\ List.length out <= List.length parsed.
Proof.
  destruct (aggregateGroups_all (groupIngredients parsed)) as (out & Hout & F).
  { intros k ms Hin. now apply groups_In in Hin. }
  exists out. split; [exact Hout|].
  assert (P : Permutation (List.concat (List.map ag_lines out)) parsed).
  { rewrite (entries_lines _ _ F). apply groups_concat. }
  assert (N : Forall (fun e => ag_lines e <> []) out).
  { apply Forall_forall. intros e He.
    destruct (@entry_origin _ _ e F He) as (k & ms & _ & H).
    apply aggregateGroup_fields in H as (Hne & Hl & _). now rewrite Hl. }
  split; [exact P|]. split; [exact N|].
  rewrite <- (Permutation_length P).
  clear - N. induction N as [|e out He _ IH]; simpl; [lia|].
  rewrite length_app. destruct (ag_lines e); [contradiction|simpl; lia].
Qed.

Lemma keyUnit_no_colon (p : ParsedIngredient) :
  Str.includes (keyUnit p) ":" = false.
Proof.
  destruct (keyUnit_cases p) as [->|[->|[->|[->| ->]]]]; reflexivity.
Qed.

Lemma baseUnitOf_cases (c b : string) (n m : nat) :
  baseUnitOf c b n m = b \/ baseUnitOf c b n m = "none".
Proof.
  unfold baseUnitOf.
  destruct (String.eqb c "salt and pepper"); [now right|].
  destruct (Nat.ltb 0 n && Nat.eqb m 0); [now left|].
  destruct (Nat.eqb n 0 && Nat.ltb 0 m); [now right|now left].
Qed.

(** X13. A record whose canonical name holds no colon is a line of an entry
    that carries this canonical name, and whose base unit is the record's or
    "none": the key is split back into the canonical name and the base unit
    it was made of. *)
Theorem entry_named_after_its_lines (parsed : list ParsedIngredient)
  (p : ParsedIngredient) :
  In p parsed ->
  Str.includes (keyName p) ":" = false ->
  exists out e,
    aggregateIngredients parsed = Some out
    /\ In e out
    /\ In p (ag_lines e)
    /\ ag_canonicalName e = keyName p
    /\ (ag_baseUnit e = keyUnit p \/ ag_baseUnit e = "none").
Proof.
  intros Hp Hc.
  destruct (aggregate_spec parsed) as (out & Hout & Hkeys & Hent).
  assert (Hk : In (groupKey p) (List.map entryKey out)).
  { rewrite Hkeys. apply groups_keys. now exists p. }
  apply in_map_iff in Hk as (e & Hk & He).
  exists out, e. split; [exact Hout|]. split; [exact He|].
  specialize (Hent e He). rewrite Hk in Hent.
  apply aggregateGroup_fields in Hent as (_ & Hl & Hn & _ & Hb).
  rewrite groupKey_parts, split_key in Hn, Hb
    by (exact Hc || apply keyUnit_no_colon).
  cbn [nth] in Hn, Hb.
  split; [|split; [exact Hn|]].
  - rewrite Hl. apply filter_In. split; [exact Hp|]. apply String.eqb_refl.
  - rewrite Hb. apply baseUnitOf_cases.
Qed.

Lemma entry_named_after_its_lines_witness :
  exists p out e,
    parseIngredient "2 cloves garlic" false CallFailed = Some p
    /\ aggregateIngredients [p] = Some out
    /\ In e out
    /\ In p (ag_lines e)
    /\ ag_canonicalName e = keyName p
    /\ (ag_baseUnit e = keyUnit p \/ ag_baseUnit e = "none").
Proof.
  destruct (parseIngredient "2 cloves garlic" false CallFailed) as [p|] eqn:E;
    [|vm_compute in E; discriminate E].
  destruct (entry_named_after_its_lines [p] p) as (out & e & H).
  - now left.
  - vm_compute in E. injection E as <-. reflexivity.
  - exists p, out, e. split; [reflexivity|exact H].
Defined.

(** ** aggregator.ts: quantities, units and names for display *)

Lemma trunc_nonneg (q : Q) : (0 <= q)%Q -> Num.trunc q = Qfloor q.
Proof.
  intros H. unfold Num.trunc, Num.sign.
  destruct (Qnum q ?= 0)%Z eqn:E; try reflexivity.
  destruct q as [a b]. unfold Qle in H. simpl in H, E.
  rewrite Z.compare_lt_iff in E. lia.
Qed.

Lemma exact_thirds (x : Q) :
  Num.ge (Fin x) three = true ->
  Num.eqb (Num.rem (Fin x) three) Num.zero = true ->
  same (Num.mul (Num.floor (Num.div (Fin x) three)) three) (Fin x).
Proof.
  intros Hge Hrem.
  assert (H3 : (3 <= x)%Q).
  { apply Qle_bool_iff. exact Hge. }
  assert (Hpos : (0 <= x / 3)%Q).
  { apply Qle_shift_div_l; [reflexivity|]. 
    apply Qle_trans with 3%Q; [now vm_compute|exact H3]. }
  cbv [Num.rem three Num.of_Z Num.sign inject_Z Qnum Z.compare Num.zero Num.eqb]
    in Hrem.
  change (3 # 1)%Q with 3%Q in Hrem.
  rewrite (trunc_nonneg _ Hpos) in Hrem.
  apply Qeq_bool_iff in Hrem. rewrite Qred_correct in Hrem.
  cbv [Num.div three Num.of_Z Num.sign inject_Z Qnum Z.compare Num.floor Num.mul same].
  change (3 # 1)%Q with 3%Q.
  rewrite Qred_correct.
  rewrite (Qfloor_comp _ _ (Qred_correct (x / 3))).
  change (Qfloor (x / 3) # 1)%Q with (inject_Z (Qfloor (x / 3))) in *.
  rewrite <- (Qplus_0_r (inject_Z (Qfloor (x / 3)) * 3)), <- Hrem. ring.
Qed.

(** X14. For the base unit tsp, [formatQuantity] shows the amount exactly:
    either the total in tsp, or, when the total is at least 3, a number of
    tbsp that is a third of the total. *)
Theorem teaspoons_shown_exactly (n : number) (name : string) :
  (snd (formatQuantity (val n) "tsp" name) = val "tsp"
   /\ fst (formatQuantity (val n) "tsp" name) = val n)
  \/ (snd (formatQuantity (val n) "tsp" name) = val "tbsp"
      /\ Num.ge n three = true
      /\ exists d, fst (formatQuantity (val n) "tsp" name) = val d
                   /\ same (Num.mul d three) n).
Proof.
  unfold formatQuantity.
  cbn [String.eqb Ascii.eqb Bool.eqb orb andb is_undefined toNumber].
  destruct (Num.ge n three) eqn:Hge; [|now left].
  destruct (Num.eqb (Num.rem n three) Num.zero) eqn:Hrem; [|now left].
  right. split; [reflexivity|]. split; [reflexivity|].
  eexists. split; [reflexivity|].
  destruct n as [| | |x]; try discriminate.
  now apply exact_thirds.
Qed.

(** X15. For a total that is a number other than zero and NaN, and a base
    unit other than tsp, [formatUnit] returns the display unit of
    [formatQuantity] (the empty string standing for none). *)
Theorem formatUnit_agrees (baseUnit : string) (n : number) (name : string) :
  Num.truthy n = true ->
  baseUnit <> "tsp" ->
  formatUnit baseUnit (val n)
  = or_string (snd (formatQuantity (val n) baseUnit name)) "".
Proof.
  intros Ht Hb. apply String.eqb_neq in Hb.
  unfold formatUnit, formatQuantity.
  cbn [truthy_number is_undefined toNumber]. rewrite Ht, Hb.
  cbn [negb orb andb]. rewrite orb_false_r.
  destruct (String.eqb baseUnit "none"); [reflexivity|].
  destruct (String.eqb baseUnit "tbsp").
  - cbn [andb]. destruct (Num.ge n sixteen); cbn [andb].
    + destruct (Num.eqb (Num.rem n sixteen) Num.zero); unfold cupOrCups;
        destruct (Num.eqb _ one); reflexivity.
    + reflexivity.
  - cbn [andb]. destruct (String.eqb baseUnit "cup").
    + unfold cupOrCups. destruct (Num.eqb n one); reflexivity.
    + destruct (String.eqb baseUnit "unit"); reflexivity.
Qed.

Lemma formatUnit_agrees_witness :
  formatUnit "tbsp" (val (Num.of_Z 32))
  = or_string (snd (formatQuantity (val (Num.of_Z 32)) "tbsp" "milk")) "".
Proof.
  apply (formatUnit_agrees "tbsp" (Num.of_Z 32) "milk");
    [reflexivity|discriminate].
Defined.

Lemma capitalize_lower (w : string) :
  Str.toLowerCase (capitalize w) = Str.toLowerCase w.
Proof.
  destruct w as [|c w]; [reflexivity|].
  unfold capitalize, Str.toLowerCase, Str.toUpperCase. simpl.
  now rewrite lower_upper.
Qed.

Lemma capitalizeWords_lower (words : list string) :
  forall index,
    Str.toLowerCase (Str.join " " (capitalizeWords index words))
    = Str.toLowerCase (Str.join " " words).
Proof.
  induction words as [|w rest IH]; intros index; [reflexivity|].
  cbn [capitalizeWords].
  set (w' := if Nat.eqb index 0 || Nat.ltb 3 (String.length w)
             then capitalize w else w).
  assert (Hw : Str.toLowerCase w' = Str.toLowerCase w).
  { unfold w'. destruct (_ || _); [apply capitalize_lower|reflexivity]. }
  specialize (IH (S index)).
  destruct rest as [|v rest]; [exact Hw|].
  change (capitalizeWords (S index) (v :: rest))
    with ((if Nat.eqb (S index) 0 || Nat.ltb 3 (String.length v)
           then capitalize v else v) :: capitalizeWords (S (S index)) rest)
    in *.
  cbn [Str.join] in *. unfold Str.toLowerCase in *.
  rewrite !map_append, Hw. cbn [Str.join]. f_equal. f_equal. exact IH.
Qed.

(** X16. Unless the canonical name is "salt and pepper", the display name
    of a base name written in ASCII is the base name up to letter case.
    (Outside ASCII, [toUpperCase] may change more than the case: it turns a
    sharp s into "SS".) *)
Theorem display_name_changes_case_only (canonicalName baseName : string) :
  canonicalName <> "salt and pepper" ->
  every isAscii baseName = true ->
  Str.toLowerCase (formatDisplayName canonicalName baseName)
  = Str.toLowerCase baseName.
Proof.
  intros H _. apply String.eqb_neq in H. unfold formatDisplayName.
  rewrite H, capitalizeWords_lower. unfold Str.split.
  now rewrite join_split_space.
Qed.

Lemma display_name_changes_case_only_witness :
  Str.toLowerCase (formatDisplayName "olive oil" "extra virgin olive oil")
  = Str.toLowerCase "extra virgin olive oil".
Proof.
  apply (display_name_changes_case_only "olive oil" "extra virgin olive oil").
  - discriminate.
  - reflexivity.
Defined.

(** ** parser.ts and aggregator.ts together *)

Lemma resolved_quantity_range (p : ParsedIngredient) :
  ResolvedLocally p ->
  match pi_quantity p with
  | val q => nonNegative q
  | undefined => True
  | null => False
  end.
Proof.
  intros [[line H]|[line H]].
  - revert H. unfold parseIngredientRegex. cbv zeta.
    destruct (test noQuantityPhrase _).
    { intros H. apply returned_Resolved in H.
      destruct (enrich_fields _ H) as (_ & -> & _). exact I. }
    destruct (exec simplePattern _) as [m|].
    { intros H. apply returned_Resolved in H.
      destruct (enrich_fields _ H) as (_ & -> & _).
      apply defined_quantity_range. }
    destruct (exec noUnitPattern _) as [m|]; [|discriminate].
    intros H. apply returned_Resolved in H.
    destruct (enrich_fields _ H) as (_ & -> & _).
    apply defined_quantity_range.
  - destruct (enrich_fields _ H) as (_ & -> & _).
    exact I.
Qed.

Lemma times_sixteen_range (q : number) :
  nonNegative q -> nonNegative (Num.mul q sixteen).
Proof.
  destruct q as [| | |x]; try contradiction; [now vm_compute|].
  intros H. change (0 <= Qred (x * inject_Z 16))%Q.
  rewrite Qred_correct.
  apply Qmult_le_0_compat; [exact H|now vm_compute].
Qed.

Lemma normalizeUnit_range (unit : nullable string) (quantity : nullable number) :
  match quantity with
  | val q => nonNegative q
  | undefined => True
  | null => False
  end ->
  match snd (normalizeUnit unit quantity) with
  | val q => nonNegative q
  | undefined => True
  | null => False
  end.
Proof.
  intros H. unfold normalizeUnit.
  destruct (negb (truthy_string unit) && negb (is_undefined quantity));
    [exact H|].
  destruct unit as [| |u]; try exact I.
  destruct quantity as [| |q]; try exact I.
  destruct (negb (Str.truthy u) || negb (Num.truthy q)); [exact I|].
  destruct (property _ UNIT_MAP) as [e| |]; try exact H.
  destruct (u_baseUnit e); try exact H.
  now apply times_sixteen_range.
Qed.

Lemma resolved_base_quantity_range (p : ParsedIngredient) :
  ResolvedLocally p ->
  match pi_quantityInBaseUnits p with
  | val q => nonNegative q
  | undefined => True
  | null => False
  end.
Proof.
  intros H.
  assert (N : UnitsNormalized p).
  { destruct H as [[line H]|[line H]];
      [now apply regex_normalized with line|now apply enrich_normalized in H]. }
  destruct N as [_ ->]. now apply normalizeUnit_range, resolved_quantity_range.
Qed.

Lemma add_range (a b : number) :
  nonNegative a -> nonNegative b -> nonNegative (Num.add a b).
Proof.
  destruct a as [| | |x], b as [| | |y]; try contradiction;
    try (intros _ _; exact I).
  intros Hx Hy. change (0 <= Qred (x + y))%Q. rewrite Qred_correct.
  apply Qle_trans with (0 + 0)%Q; [now vm_compute|].
  now apply Qplus_le_compat.
Qed.

Lemma sum_range (ms : list ParsedIngredient) :
  Forall ResolvedLocally ms ->
  forall sum, nonNegative sum -> nonNegative (fold_left addQuantity ms sum).
Proof.
  induction 1 as [|p ms Hp _ IH]; intros sum Hs; [exact Hs|].
  cbn [fold_left]. apply IH. unfold addQuantity. apply add_range; [exact Hs|].
  pose proof (resolved_base_quantity_range p Hp) as Hq.
  destruct (pi_quantityInBaseUnits p) as [| |q]; try now vm_compute.
  destruct (Num.truthy q); [exact Hq|now vm_compute].
Qed.

Lemma aggregateGroup_sum (k : string) (ms : list ParsedIngredient)
  (e : AggregatedIngredient) :
  aggregateGroup k ms = Some e ->
  ag_totalQuantity e = undefined
  \/ ag_totalQuantity e
     = val (fold_left addQuantity (filter hasQuantity ms) Num.zero).
Proof.
  unfold aggregateGroup. cbv zeta.
  set (withQuantity := filter hasQuantity ms).
  set (withoutQuantity := filter (fun ing => negb (hasQuantity ing)) ms).
  clearbody withQuantity withoutQuantity.
  destruct ms as [|first rest]; [discriminate|].
  intros [= <-].
  repeat match goal with
  | |- context [if ?b then _ else _] => destruct b
  end; cbn [ag_totalQuantity]; first [now left | now right].
Qed.

(** X17. When every record was resolved without the interpreter (by a
    pattern or by the fallback), the aggregation gives every entry a total
    that is missing or not negative: never NaN, never [null], never below
    zero. *)
Theorem totals_not_negative (parsed : list ParsedIngredient) :
  Forall ResolvedLocally parsed ->
  exists out,
    aggregateIngredients parsed = Some out /\ Forall totalNotNegative out.
Proof.
  intros H.
  destruct (aggregate_spec parsed) as (out & Hout & _ & Hent).
  exists out. split; [exact Hout|].
  apply Forall_forall. intros e He. unfold totalNotNegative.
  destruct (aggregateGroup_sum _ _ _ (Hent e He)) as [->| ->]; [exact I|].
  apply sum_range; [|now vm_compute].
  apply Forall_forall. intros p Hp.
  apply filter_In in Hp as [Hp _]. apply filter_In in Hp as [Hp _].
  rewrite Forall_forall in H. now apply H.
Qed.

Lemma totals_not_negative_witness :
  exists a b out,
    parseIngredientRegex "2 cups milk" = Resolved a
    /\ parseIngredientRegex "1/2 cup milk" = Resolved b
    /\ aggregateIngredients [a; b] = Some out
    /\ Forall totalNotNegative out.
Proof.
  destruct (parseIngredientRegex "2 cups milk") as [|a|] eqn:Ea;
    [vm_compute in Ea; discriminate Ea| |vm_compute in Ea; discriminate Ea].
  destruct (parseIngredientRegex "1/2 cup milk") as [|b|] eqn:Eb;
    [vm_compute in Eb; discriminate Eb| |vm_compute in Eb; discriminate Eb].
  destruct (totals_not_negative [a; b]) as (out & H).
  - apply Forall_cons; [left; now exists "2 cups milk"|].
    apply Forall_cons; [left; now exists "1/2 cup milk"|].
    apply Forall_nil.
  - exists a, b, out. split; [reflexivity|]. split; [reflexivity|exact H].
Defined.

(** ** categorizer.ts *)

(** X18. [postProcessSection] either returns the section it was given,
    whatever that is, or one of Produce, Meat/Fish, Dairy, Pantry and Spices,
    and then the same one whatever section it was given. *)
Theorem overrides_fixed_or_classifier (name : string)
  (aiSection : IngredientCategory) (canonicalName : nullable string) :
  (postProcessSection name aiSection canonicalName = aiSection
   /\ forall other, postProcessSection name other canonicalName = other)
  \/ (In (postProcessSection name aiSection canonicalName)
        ["Produce"; "Meat/Fish"; "Dairy"; "Pantry"; "Spices"]
      /\ forall other,
          postProcessSection name other canonicalName
          = postProcessSection name aiSection canonicalName).
Proof.
  unfold postProcessSection. cbv zeta beta.
  repeat match goal with
  | |- context [if ?b then _ else _] =>
      destruct b; [right; split; [simpl; tauto|reflexivity]|]
  end.
  left. now split.
Qed.

Lemma keys_mapSet {A : Type} (k : string) (v : A) (m : list (string * A)) :
  List.map fst (mapSet k v m)
  = match lookup k m with
    | Some _ => List.map fst m
    | None => List.map fst m ++ [k]
    end.
Proof.
  induction m as [|[k0 v0] m IH]; simpl; [reflexivity|].
  rewrite lookup_cons. destruct (String.eqb k0 k); [reflexivity|].
  simpl. rewrite IH. now destruct (lookup k m).
Qed.

Lemma NoDup_snoc {A : Type} (l : list A) (x : A) :
  NoDup l -> ~ In x l -> NoDup (l ++ [x]).
Proof.
  intros Hl Hx. apply NoDup_rev in Hl. rewrite <- (rev_involutive (_ ++ _)).
  apply NoDup_rev. rewrite rev_app_distr. simpl.
  constructor; [now rewrite <- in_rev|exact Hl].
Qed.

Lemma fold_mapSet_NoDup {A : Type} (f : string -> A) (names : list string) :
  forall init,
    NoDup (List.map fst init) ->
    NoDup (List.map fst
             (fold_left (fun result n => mapSet n (f n) result) names init)).
Proof.
  induction names as [|n names IH]; intros init H; simpl; [exact H|].
  apply IH. rewrite keys_mapSet.
  destruct (lookup n init) eqn:E; [exact H|].
  apply NoDup_snoc; [exact H|]. now apply lookup_None_keys.
Qed.

Lemma existsb_eqb_iff (name : string) (names : list string) :
  existsb (String.eqb name) names = true <-> In name names.
Proof.
  split; [|apply existsb_eqb_In].
  intros H. apply existsb_exists in H as (x & Hx & E).
  apply String.eqb_eq in E. now subst.
Qed.

Lemma fold_mapSet_keys {A : Type} (f : string -> A) (names : list string)
  (name : string) :
  In name names
  <-> exists v,
        lookup name (fold_left (fun result n => mapSet n (f n) result) names [])
        = Some v.
Proof.
  rewrite lookup_fold_mapSet, <- existsb_eqb_iff.
  destruct (existsb (String.eqb name) names).
  - split; [now exists (f name)|reflexivity].
  - split; [discriminate|]. now intros [v H].
Qed.

Lemma categorize_shape (names : list string) (useAI : bool)
  (ingredients : list IngredientRef) (answer : ClassifierResponse) :
  exists f,
    categorizeIngredients names useAI ingredients answer
    = fold_left (fun result n => mapSet n (f n) result) names [].
Proof.
  unfold categorizeIngredients, setAll.
  destruct (negb useAI || Nat.eqb (List.length names) 0).
  - now exists (fun _ => "Other").
  - destruct answer as [|categories].
    + now exists (fun _ => "Other").
    + now exists (sectionOnAnswer categories ingredients).
Qed.

(** X19. The map [categorizeIngredients] returns has a section for every
    name of the input and for no other name, each name once, whether the
    classifier is used, answers or fails. *)
Theorem every_name_gets_a_section (names : list string) (useAI : bool)
  (ingredients : list IngredientRef) (answer : ClassifierResponse) :
  (forall name,
      In name names
      <-> exists section,
            lookup name (categorizeIngredients names useAI ingredients answer)
            = Some section)
  /\ NoDup (List.map fst (categorizeIngredients names useAI ingredients answer)).
Proof.
  destruct (categorize_shape names useAI ingredients answer) as [f ->].
  split; [intros name; apply fold_mapSet_keys|].
  apply fold_mapSet_NoDup. constructor.
Qed.

Lemma or_string_nullable (a b : nullable string) (n : string) :
  or_string (or_nullable a b) n = or_string a (or_string b n).
Proof.
  unfold or_nullable, or_string, truthy_string.
  destruct a as [| |s]; try reflexivity.
  destruct (Str.truthy s) eqn:E; [now rewrite E|reflexivity].
Qed.

Lemma categorize_on_answer names ingredients categories name :
  In name names ->
  lookup name
    (categorizeIngredients names true ingredients (Categories categories))
  = Some (sectionOnAnswer categories ingredients name).
Proof.
  intros Hin. unfold categorizeIngredients.
  replace (negb true || Nat.eqb (List.length names) 0) with false
    by (now destruct names).
  rewrite (lookup_fold_mapSet (sectionOnAnswer categories ingredients)).
  now rewrite (existsb_eqb_In _ _ Hin).
Qed.

Lemma sectionOnAnswer_unfold categories ingredients name :
  sectionOnAnswer categories ingredients name
  = postProcessSection name
      (sectionOrOther categories
         (Str.toLowerCase
            (if Str.truthy
                  (normalizeForAICategorization
                     (or_string (canonicalOf (findIngredient ingredients name))
                        name))
             then normalizeForAICategorization
                    (or_string (canonicalOf (findIngredient ingredients name))
                       name)
             else name)))
      (canonicalOf (findIngredient ingredients name)).
Proof. reflexivity. Qed.

Lemma categorizeIngredient_on_answer name canonicalName baseName categories :
  categorizeIngredient name true canonicalName baseName (Categories categories)
  = postProcessSection name
      (sectionOrOther categories
         (Str.toLowerCase
            (normalizeForAICategorization
               (or_string canonicalName (or_string baseName name)))))
      (or_nullable canonicalName baseName).
Proof. reflexivity. Qed.

Lemma canonicalOf_Some (ingredient : IngredientRef) :
  canonicalOf (Some ingredient)
  = or_nullable (ir_canonicalName ingredient) (ir_baseName ingredient).
Proof. reflexivity. Qed.

Lemma truthy_or_name (n name : string) :
  n <> "" -> (if Str.truthy n then n else name) = n.
Proof. destruct n; [contradiction|reflexivity]. Qed.

(** X20. On an answer of the classifier, the batch gives a name of the
    input, found among the ingredients, the section [categorizeIngredient]
    gives it on the same answer, provided the name sent to the classifier is
    not empty. *)
Theorem batch_agrees_with_single (names : list string)
  (ingredients : list IngredientRef)
  (categories : list (string * IngredientCategory)) (name : string)
  (ingredient : IngredientRef) :
  In name names ->
  findIngredient ingredients name = Some ingredient ->
  normalizeForAICategorization
    (or_string (ir_canonicalName ingredient)
       (or_string (ir_baseName ingredient) name)) <> "" ->
  lookup name
    (categorizeIngredients names true ingredients (Categories categories))
  = Some (categorizeIngredient name true (ir_canonicalName ingredient)
            (ir_baseName ingredient) (Categories categories)).
Proof.
  intros Hin Hf Hn.
  rewrite (@categorize_on_answer names ingredients categories name Hin).
  apply f_equal.
  rewrite sectionOnAnswer_unfold, categorizeIngredient_on_answer, Hf.
  rewrite canonicalOf_Some, or_string_nullable.
  rewrite (truthy_or_name _ name Hn).
  reflexivity.
Qed.

Lemma batch_agrees_with_single_witness :
  lookup "Olive oil"
    (categorizeIngredients ["Olive oil"] true
       [mkRef "Olive oil" (val "olive oil") (val "olive oil")]
       (Categories [("olive oil", "Dry Goods")]))
  = Some (categorizeIngredient "Olive oil" true (val "olive oil")
            (val "olive oil") (Categories [("olive oil", "Dry Goods")])).
Proof.
  apply (batch_agrees_with_single ["Olive oil"]
           [mkRef "Olive oil" (val "olive oil") (val "olive oil")]
           [("olive oil", "Dry Goods")] "Olive oil"
           (mkRef "Olive oil" (val "olive oil") (val "olive oil")));
    [now left|reflexivity|vm_compute; discriminate].
Defined.

Lemma every_prepWords (words : list string) :
  forall s,
    every notComma s = true ->
    every notComma
      (fold_left (fun text prep => replaceAll (wholeWord prep) "" text)
         words s) = true.
Proof.
  induction words as [|w words IH]; intros s H; [exact H|].
  simpl. apply IH. now apply every_replaceAll.
Qed.

(** X21. The name sent to the classifier holds no comma, is in lower case
    and carries no white space at either end. *)
Theorem classifier_key_is_clean (raw : string) :
  Str.includes (normalizeForAICategorization raw) "," = false
  /\ Str.toLowerCase (normalizeForAICategorization raw)
     = normalizeForAICategorization raw
  /\ Str.trim (normalizeForAICategorization raw)
     = normalizeForAICategorization raw.
Proof.
  unfold normalizeForAICategorization. cbv zeta.
  set (cut := cutAtComma _).
  assert (H : every notComma cut = true) by apply every_cutAtComma.
  clearbody cut.
  set (words := fold_left _ prepWords cut).
  assert (Hw : every notComma words = true) by now apply every_prepWords.
  clearbody words.
  set (spaced := replaceAll (Plus sp) " " _).
  assert (Hs : every notComma spaced = true).
  { unfold spaced. repeat apply every_replaceAll; try reflexivity.
    exact Hw. }
  clearbody spaced.
  split; [|split].
  - apply no_comma. rewrite every_lower. now apply every_trim.
  - apply lower_idempotent.
  - rewrite trim_lower. now rewrite trim_idempotent.
Qed.

(** ** notesFormatter.ts *)

(** X22. The name shown in the grocery list holds no comma and carries no
    white space at either end. *)
Theorem grocery_name_is_clean (name : string) :
  Str.includes (cleanGroceryDisplayName name) "," = false
  /\ Str.trim (cleanGroceryDisplayName name) = cleanGroceryDisplayName name.
Proof.
  unfold cleanGroceryDisplayName. cbv zeta.
  set (cut := cutAtComma _).
  assert (H : every notComma cut = true) by apply every_cutAtComma.
  clearbody cut.
  split; [|apply trim_idempotent].
  apply no_comma, every_trim, every_replaceAll; [reflexivity|].
  now apply every_remove.
Qed.

Lemma lookup_pushTo {A : Type} (k k' : string) (x : A)
  (m : list (string * list A)) :
  lookup k' (pushTo k x m)
  = if String.eqb k k'
    then Some (match lookup k m with
               | Some members => members ++ [x]
               | None => [x]
               end)
    else lookup k' m.
Proof.
  induction m as [|[k0 ms] m IH]; simpl.
  - rewrite lookup_cons. now destruct (String.eqb k k').
  - rewrite (lookup_cons k). destruct (String.eqb k0 k) eqn:E0.
    + apply String.eqb_eq in E0. subst k0. rewrite !lookup_cons.
      now destruct (String.eqb k k').
    + rewrite !lookup_cons, IH.
      destruct (String.eqb k0 k') eqn:E1; [|reflexivity].
      apply String.eqb_eq in E1. subst k0. now rewrite String.eqb_sym, E0.
Qed.

Lemma byCategory_lookup (aggregated : list CategorizedIngredient)
  (category : IngredientCategory) :
  lookup category (byCategory aggregated)
  = match filter (inCategory category) aggregated with
    | [] => None
    | members => Some members
    end.
Proof.
  induction aggregated as [|x l IH] using rev_ind; [reflexivity|].
  unfold byCategory in *. rewrite fold_left_app. cbn [fold_left].
  rewrite lookup_pushTo, filter_app. cbn [filter].
  change (inCategory category x) with (String.eqb (categoryOf x) category).
  destruct (String.eqb (categoryOf x) category) eqn:E.
  - apply String.eqb_eq in E. subst category. rewrite IH.
    destruct (filter (inCategory (categoryOf x)) l); reflexivity.
  - now rewrite IH, app_nil_r.
Qed.

Lemma categoryLines_block (numberToString : number -> string)
  (aggregated : list CategorizedIngredient) (category : IngredientCategory) :
  categoryLines numberToString (byCategory aggregated) category
  = categoryBlock numberToString category
      (filter (inCategory category) aggregated).
Proof.
  unfold categoryLines. rewrite byCategory_lookup.
  now destruct (filter (inCategory category) aggregated).
Qed.

Lemma groceryLines_blocks (numberToString : number -> string)
  (aggregated : list CategorizedIngredient) (weekLabel : nullable string) :
  groceryLines numberToString aggregated weekLabel
  = labelLines weekLabel
    ++ flat_map (fun category =>
                   categoryBlock numberToString category
                     (filter (inCategory category) aggregated))
         CATEGORY_ORDER.
Proof.
  unfold groceryLines. f_equal. apply flat_map_ext. intros category.
  apply categoryLines_block.
Qed.

(** X23. The grocery list is the label of the week followed by one block per
    category of [CATEGORY_ORDER], in that order; the block of a category
    lists the ingredients of that category in the order of the input, and a
    category without ingredient has no block. *)
Theorem grocery_list_by_category (numberToString : number -> string)
  (aggregated : list CategorizedIngredient) (weekLabel : nullable string) :
  formatGroceryListForNotes numberToString aggregated weekLabel
  = Str.trim
      (Str.join newline
         (labelLines weekLabel
          ++ flat_map (fun category =>
                         categoryBlock numberToString category
                           (filter (inCategory category) aggregated))
               CATEGORY_ORDER)).
Proof.
  unfold formatGroceryListForNotes. now rewrite groceryLines_blocks.
Qed.

Lemma flat_map_agree {A B : Type} (f g : A -> list B) (l : list A) :
  (forall a, In a l -> f a = g a) -> flat_map f l = flat_map g l.
Proof.
  induction l as [|a l IH]; intros H; [reflexivity|].
  cbn [flat_map]. rewrite (H a (or_introl eq_refl)). f_equal.
  apply IH. intros b Hb. apply H. now right.
Qed.

Lemma filter_within {A : Type} (p q : A -> bool) (l : list A) :
  (forall a, p a = true -> q a = true) ->
  filter p (filter q l) = filter p l.
Proof.
  intros H. induction l as [|a l IH]; [reflexivity|].
  cbn [filter]. destruct (q a) eqn:Q.
  - cbn [filter]. now rewrite IH.
  - rewrite IH. destruct (p a) eqn:P; [|reflexivity].
    apply H in P. congruence.
Qed.

(** X24. Ingredients whose category is none of the seven of
    [CATEGORY_ORDER] are left out: the list is the one of the other
    ingredients alone. *)
Theorem unknown_category_not_listed (numberToString : number -> string)
  (aggregated : list CategorizedIngredient) (weekLabel : nullable string) :
  formatGroceryListForNotes numberToString aggregated weekLabel
  = formatGroceryListForNotes numberToString (filter listed aggregated)
      weekLabel.
Proof.
  unfold formatGroceryListForNotes. rewrite !groceryLines_blocks.
  do 3 f_equal. apply flat_map_agree. intros category Hc.
  rewrite filter_within; [reflexivity|].
  intros i Hi. unfold listed. apply existsb_exists. exists category.
  split; [exact Hc|exact Hi].
Qed.

(** ** parser.ts: the batch, line by line *)

Lemma promiseAll_fulfilled {A B : Type} (f : A -> option B) (l : list A) :
  Forall (fun x => f x <> None) l ->
  exists out, promiseAll (List.map f l) = Some out.
Proof.
  induction 1 as [|x l Hx _ (out & IH)]; [now exists []|].
  cbn [List.map promiseAll]. destruct (f x) as [y|]; [|contradiction].
  rewrite IH. now exists (y :: out).
Qed.

(** X25. With the interpretation enabled, on lines none of which makes
    [parseIngredient] raise when it is parsed alone without the interpreter,
    [parseIngredients] returns N records for N lines, whatever the answer (a
    failed call, an answer that raises an error, a short or a long one).
    The record at position [i] is the one owed to line [i]: the record of
    the pattern that resolves the line, else the enrichment of the answer's
    element whose rank is the rank of the line among the unresolved lines,
    else the fallback record of the line. *)
Theorem batch_owes_every_line (lines : list string) (answer : AiResponse) :
  Forall (fun line => parseIngredient line false CallFailed <> None) lines ->
  (exists out,
      parseIngredients lines true answer = Some out
      /\ List.length out = List.length lines
      /\ forall i line,
          nth_error lines i = Some line ->
          nth_error out i
          = owed (usable (complexOf lines) answer)
              (List.length (complexOf (firstn i lines))) line)
  /\ (forall k r,
        nth_error (usable (complexOf lines) answer) k = Some r ->
        exists json result,
          answer = Reply json
          /\ nth_error (answerElements json) k = Some (Object result)
          /\ enrichAiItem (fillTexts (at_index (complexOf lines) k) result)
             = Some r).
Proof.
  intros Hall. split.
  - rewrite parseIngredients_expected.
    destruct (expected (usable (complexOf lines) answer) 0 lines)
      as [out|] eqn:E.
    + exists out. split; [reflexivity|].
      split; [exact (expected_length _ _ _ E)|].
      intros i line H. exact (expected_nth _ _ _ _ E H).
    + apply expected_without_answer in E.
      rewrite expected_on_failure in E.
      destruct (promiseAll_fulfilled
                  (fun line => parseIngredient line false CallFailed)
                  lines Hall) as (out & Hout).
      rewrite Hout in E. discriminate E.
  - intros k r. unfold usable, batchAnswer.
    destruct answer as [|json]; [now destruct k|].
    destruct (enrichAiResults _ _ _) as [en|] eqn:E; [|now destruct k].
    intros H. destruct (enrichAiResults_nth _ _ _ _ E H) as (x & Hx & Hr).
    now exists json, x.
Qed.

Lemma batch_owes_every_line_witness :
  exists out,
    parseIngredients ["2 eggs"; "olive oil"; "1 cup milk"] true CallFailed
    = Some out
    /\ nth_error out 1 = owed [] 0 "olive oil".
Proof.
  destruct (proj1 (batch_owes_every_line
                     ["2 eggs"; "olive oil"; "1 cup milk"] CallFailed
                     ltac:(repeat constructor; vm_compute; discriminate)))
    as (out & Hout & _ & Hnth).
  exists out. split; [exact Hout|].
  rewrite (Hnth 1 "olive oil" eq_refl). vm_compute. reflexivity.
Defined.
